(** * Variable projection for DMD (pydmd/varprodmd.py): model and properties

    A shallow embedding of [src/pydmd/varprodmd.py].

    - binary64 values are Rocq's primitive floats ([PrimFloat.float]), so the
      scalar arithmetic of the source (comparisons, [int(...)], divisions)
      evaluates here bit for bit as it does in Python;
    - complex128 values are pairs of floats;
    - 1-D arrays are lists, 2-D arrays carry their shape and their rows;
    - Python exceptions are an error type and fallible code returns [result];
      the orchestration code also carries a log of the calls it makes into the
      numerical libraries and of the warnings it emits;
    - the factorisations and the solver of NumPy/SciPy (SVD, pivoted QR,
      eigenvalues, nonlinear least squares, complex exponential, argsort) are
      not part of this repository: they are the fields of a [Backend], and
      what the source relies on (the shapes they return, that pivots and sort
      indices are permutations) is stated in [BackendSpec].  Reductions
      ([np.sum], matrix products) add up from left to right; NumPy's blocked
      summation of long arrays may round differently, and no statement below
      depends on the rounding of a sum. *)

From Stdlib Require Import String.
From Stdlib Require Import ZArith List Bool Lia Floats Permutation PeanoNat.
Import ListNotations.

Set Implicit Arguments.
Set Warnings "-inexact-float".
Set Warnings "-notation-overridden".

(** ** Python exceptions and results *)

Inductive exn : Type :=
| ValueError (msg : string)
| IndexError
| ZeroDivisionError
| OverflowError
| TypeError
| AttributeError (msg : string).

Inductive result (A : Type) : Type :=
| Ok (a : A)
| Raise (e : exn).

Arguments Ok {A} a.
Arguments Raise {A} e.

Definition rbind {A B} (m : result A) (k : A -> result B) : result B :=
  match m with
  | Ok a => k a
  | Raise e => Raise e
  end.

Declare Scope py_scope.
Delimit Scope py_scope with py.
Notation "x <- m ;; k" := (rbind m (fun x => k))
  (at level 61, m at next level, right associativity) : py_scope.
Notation "' pat <- m ;; k" := (rbind m (fun x => match x with pat => k end))
  (at level 61, pat pattern, m at next level, right associativity) : py_scope.
Open Scope py_scope.

Definition is_ok {A} (r : result A) : bool :=
  match r with Ok _ => true | Raise _ => false end.

(** An invalid-argument error is Python's [ValueError]. *)
Definition is_value_error {A} (r : result A) : bool :=
  match r with Raise (ValueError _) => true | _ => false end.

(** ** binary64 scalars *)

Definition F0 : float := 0%float.
Definition F1 : float := 1%float.
Definition F2 : float := 2%float.

(** [float(z)] for a Python int: round to nearest, ties to even. *)
Definition float_of_Z (z : Z) : float :=
  SF2Prim (binary_normalize prec emax z 0 false).

Definition float_of_nat (n : nat) : float := float_of_Z (Z.of_nat n).

(** [int(x)] for a Python float: truncation toward zero; infinities and NaN
    raise. *)
Definition int_of_float (x : float) : result Z :=
  match Prim2SF x with
  | S754_zero _ => Ok 0%Z
  | S754_finite s m e =>
      (* the value is m * 2^e; a negative shift drops the fraction bits *)
      let mag := Z.shiftl (Zpos m) e in
      Ok (if s then (- mag)%Z else mag)
  | S754_infinity _ => Raise OverflowError
  | S754_nan => Raise (ValueError "cannot convert float NaN to integer")
  end.

(** [x != y] on floats (true when either is NaN). *)
Definition fneb (x y : float) : bool := negb (PrimFloat.eqb x y).

(** ** complex128 scalars *)

Record complex : Type := mkC { re : float; im : float }.

Definition C0 : complex := mkC F0 F0.
Definition c_of_float (x : float) : complex := mkC x F0.
Definition cadd (a b : complex) : complex :=
  mkC (re a + re b)%float (im a + im b)%float.
Definition csub (a b : complex) : complex :=
  mkC (re a - re b)%float (im a - im b)%float.
Definition cmul (a b : complex) : complex :=
  mkC (re a * re b - im a * im b)%float (re a * im b + im a * re b)%float.
Definition cneg (a : complex) : complex := mkC (- re a)%float (- im a)%float.
Definition cconj (a : complex) : complex := mkC (re a) (- im a)%float.

(** NumPy's complex division (the scaled formula of its inner loop). *)
Definition cdiv (a b : complex) : complex :=
  let br := PrimFloat.abs (re b) in
  let bi := PrimFloat.abs (im b) in
  if PrimFloat.leb bi br then
    if PrimFloat.eqb br F0 && PrimFloat.eqb bi F0 then
      mkC (re a / br)%float (im a / br)%float
    else
      let rat := (im b / re b)%float in
      let scl := (F1 / (re b + im b * rat))%float in
      mkC ((re a + im a * rat) * scl)%float ((im a - re a * rat) * scl)%float
  else
    let rat := (re b / im b)%float in
    let scl := (F1 / (im b + re b * rat))%float in
    mkC ((re a * rat + im a) * scl)%float ((im a * rat - re a) * scl)%float.

(** ** Arrays *)

Definition vec (A : Type) : Type := list A.

(** A 2-D array: its shape and its rows. *)
Record mat (A : Type) : Type := mkMat {
  nrows : nat;
  ncols : nat;
  rows : list (list A)
}.

(** What the source receives as [np.ndarray]: the number of dimensions is
    only known at run time. *)
Inductive ndarray (A : Type) : Type :=
| Array1 (v : vec A)
| Array2 (a : mat A)
| ArrayN (shape : list nat).

Arguments ArrayN {A} shape.

(** [len(a.shape)].  [ArrayN] stands for the arrays of dimension 0 and of
    dimension 3 and more. *)
Definition ndim {A} (a : ndarray A) : nat :=
  match a with
  | Array1 _ => 1
  | Array2 _ => 2
  | ArrayN shape => length shape
  end.

Section Matrices.
Context {A : Type} (d : A).

Definition build (n m : nat) (f : nat -> nat -> A) : mat A :=
  mkMat n m (map (fun i => map (f i) (seq 0 m)) (seq 0 n)).

(** [a[i, j]] for indices in range. *)
Definition get (a : mat A) (i j : nat) : A := nth j (nth i (rows a) []) d.

(** [np.ravel(a)], row-major. *)
Definition ravel (a : mat A) : vec A := concat (rows a).

Definition wf_mat (a : mat A) : Prop :=
  length (rows a) = nrows a /\ Forall (fun r => length r = ncols a) (rows a).

(** [a.T] *)
Definition transpose (a : mat A) : mat A :=
  build (ncols a) (nrows a) (fun i j => get a j i).

(** [a[:, j]] *)
Definition col (a : mat A) (j : nat) : vec A :=
  map (fun i => get a i j) (seq 0 (nrows a)).

(** [a[i, :]] *)
Definition row (a : mat A) (i : nat) : vec A :=
  map (fun j => get a i j) (seq 0 (ncols a)).

(** [a[:, :k]] and [a[:k, :]] for [k >= 0] *)
Definition take_cols (a : mat A) (k : nat) : mat A :=
  build (nrows a) (Nat.min k (ncols a)) (get a).
Definition take_rows (a : mat A) (k : nat) : mat A :=
  build (Nat.min k (nrows a)) (ncols a) (get a).

(** [a[:, lo:hi]] for [0 <= lo], [0 <= hi] *)
Definition slice_cols (a : mat A) (lo hi : nat) : mat A :=
  build (nrows a) (Nat.min hi (ncols a) - lo) (fun i j => get a i (lo + j)).

End Matrices.

(** ** Assignment into 1-D arrays

    [target[...] = src] broadcasts: the source has the length of the target,
    or a single entry that is repeated; anything else is NumPy's
    "could not broadcast" [ValueError]. *)

Definition broadcast_to {A} (n : nat) (src : vec A) : result (vec A) :=
  if length src =? n then Ok src
  else match src with
       | [x] => Ok (repeat x n)
       | _ => Raise (ValueError "could not broadcast input array")
       end.

(** [v[lo:hi] = src] for [0 <= lo <= hi]. *)
Definition set_slice {A} (v : vec A) (lo hi : nat) (src : vec A)
  : result (vec A) :=
  let hi' := Nat.min hi (length v) in
  let lo' := Nat.min lo hi' in
  s <- broadcast_to (hi' - lo') src ;;
  Ok (firstn lo' v ++ s ++ skipn hi' v).

(** [z.real = src] and [z.imag = src] on a complex 1-D array. *)
Definition set_real (z : vec complex) (src : vec float) : result (vec complex) :=
  s <- broadcast_to (length z) src ;;
  Ok (map (fun p => mkC (snd p) (im (fst p))) (combine z s)).

Definition set_imag (z : vec complex) (src : vec float) : result (vec complex) :=
  s <- broadcast_to (length z) src ;;
  Ok (map (fun p => mkC (re (fst p)) (snd p)) (combine z s)).

(** ** The real split of the eigenvalues

    [pack_eigs] is lines 465-467 of [compute_varprodmd_any]; [unpack_eigs] is
    the first three lines of [__compute_dmd_rho] and of [__compute_dmd_jac]. *)

Definition pack_eigs (omegas : vec complex) : result (vec float) :=
  let r := length omegas in
  let omegas_in := repeat F0 (2 * r) in
  omegas_in <- set_slice omegas_in 0 r (map re omegas) ;;
  set_slice omegas_in r (2 * r) (map im omegas).

Definition unpack_eigs (alphas : vec float) : result (vec complex) :=
  let l := length alphas / 2 in
  let __alphas := repeat C0 l in
  __alphas <- set_real __alphas (firstn l alphas) ;;
  set_imag __alphas (skipn l alphas).

Definition zip_complex (xs ys : vec float) : vec complex :=
  map (fun p => mkC (fst p) (snd p)) (combine xs ys).


(** ** NumPy on 1-D real arrays *)

(** [np.sum(v)] *)
Definition np_sum (v : vec float) : float :=
  fold_left (fun acc x => (acc + x)%float) v F0.

(** [np.cumsum(v)] *)
Fixpoint cumsum_from (acc : float) (v : vec float) : vec float :=
  match v with
  | [] => []
  | x :: v' => let acc' := (acc + x)%float in acc' :: cumsum_from acc' v'
  end.

Definition np_cumsum (v : vec float) : vec float :=
  match v with
  | [] => []
  | x :: v' => x :: cumsum_from x v'
  end.

(** NumPy's order on floats, which sorts NaN last. *)
Definition np_less (a b : float) : bool :=
  PrimFloat.ltb a b || (fneb b b && PrimFloat.eqb a a).

(** [np.searchsorted(arr, key)] (side "left"): NumPy's binary search.  The
    interval [lo, hi) shrinks at every step, so [length arr] steps are
    enough. *)
Fixpoint binsearch_left (fuel : nat) (arr : vec float) (key : float)
  (lo hi : nat) : nat :=
  match fuel with
  | O => lo
  | S fuel' =>
      if lo <? hi then
        let mid := lo + (hi - lo) / 2 in
        if np_less (nth mid arr F0) key
        then binsearch_left fuel' arr key (mid + 1) hi
        else binsearch_left fuel' arr key lo mid
      else lo
  end.

Definition np_searchsorted (arr : vec float) (key : float) : nat :=
  binsearch_left (length arr) arr key 0 (length arr).

(** [np.where(cond)[0]] for a 1-D array: the indices at which [cond] holds. *)
Definition np_where {A} (cond : A -> bool) (v : vec A) : vec nat :=
  map fst (filter (fun p => cond (snd p)) (combine (seq 0 (length v)) v)).

(** Insertion sort with NumPy's order, used by [np.median]. *)
Fixpoint insert_sorted (x : float) (l : vec float) : vec float :=
  match l with
  | [] => [x]
  | y :: l' => if np_less y x then y :: insert_sorted x l' else x :: l
  end.

Definition np_sort (v : vec float) : vec float :=
  fold_right insert_sorted [] v.

(** [np.median(v)]: NaN for an empty array or when an entry is NaN, else the
    middle entry of the sorted array, or the mean of the two middle ones. *)
Definition np_median (v : vec float) : float :=
  let n := length v in
  if (n =? 0) || existsb (fun x => fneb x x) v then nan
  else
    let s := np_sort v in
    if Nat.odd n then nth (n / 2) s F0
    else ((nth (n / 2 - 1) s F0 + nth (n / 2) s F0) / F2)%float.

(** [np.var(v)] for a real array: the mean of the squared deviations. *)
Definition np_mean (v : vec float) : float :=
  (np_sum v / float_of_nat (length v))%float.

Definition np_var (v : vec float) : float :=
  let arrmean := np_mean v in
  let x := map (fun xi => (xi - arrmean)%float) v in
  (np_sum (map (fun xi => (xi * xi)%float) x) / float_of_nat (length v))%float.

(** [np.argmax(v)]: the first index of the largest entry; a NaN, once met,
    wins. *)
Fixpoint argmax_from (best : float) (besti : nat) (i : nat) (v : vec float)
  : nat :=
  match v with
  | [] => besti
  | x :: v' =>
      if fneb best best then besti
      else if PrimFloat.ltb best x || fneb x x
           then argmax_from x i (S i) v'
           else argmax_from best besti (S i) v'
  end.

Definition np_argmax (v : vec float) : result nat :=
  match v with
  | [] => Raise (ValueError "attempt to get argmax of an empty sequence")
  | x :: v' => Ok (argmax_from x 0 1 v')
  end.

(** ** Python numbers: the rank specifier is an int or a float *)

Inductive pynum : Type :=
| PyInt (z : Z)
| PyFloat (x : float).

(** [lo < x], [x < hi], [x == k], [x >= k] against an int literal. *)
Definition py_gt_int (x : pynum) (k : Z) : bool :=
  match x with
  | PyInt z => (k <? z)%Z
  | PyFloat f => PrimFloat.ltb (float_of_Z k) f
  end.

Definition py_lt_int (x : pynum) (k : Z) : bool :=
  match x with
  | PyInt z => (z <? k)%Z
  | PyFloat f => PrimFloat.ltb f (float_of_Z k)
  end.

Definition py_eq_int (x : pynum) (k : Z) : bool :=
  match x with
  | PyInt z => (z =? k)%Z
  | PyFloat f => PrimFloat.eqb f (float_of_Z k)
  end.

Definition py_ge_int (x : pynum) (k : Z) : bool :=
  match x with
  | PyInt z => (k <=? z)%Z
  | PyFloat f => PrimFloat.leb (float_of_Z k) f
  end.

(** [int(x)] *)
Definition py_int (x : pynum) : result Z :=
  match x with
  | PyInt z => Ok z
  | PyFloat f => int_of_float f
  end.

(** [float(x)] of a number used where NumPy expects a float64. *)
Definition py_float (x : pynum) : float :=
  match x with
  | PyInt z => float_of_Z z
  | PyFloat f => f
  end.

(** [x / y] on Python floats. *)
Definition py_div (x y : float) : result float :=
  if PrimFloat.eqb y F0 then Raise ZeroDivisionError else Ok (x / y)%float.

(** ** Rank estimation *)

(** [__svht]: the optimal hard threshold of Gavish and Donoho. *)
Definition __svht (sigma_svd : ndarray float) (rows cols : nat)
  (sigma : option float) : result Z :=
  match sigma_svd with
  | Array1 sv =>
      beta <- (if cols <? rows
               then py_div (float_of_nat cols) (float_of_nat rows)
               else py_div (float_of_nat rows) (float_of_nat cols)) ;;
      let tau_star :=
        match sigma with
        | Some sigma =>
            let sigma := PrimFloat.abs sigma in
            let lambda_star :=
              PrimFloat.sqrt
                (F2 * (beta + F1)
                 + (8 * beta
                    / (beta + F1
                       + PrimFloat.sqrt (beta * beta + 14 * beta + F1))))%float in
            (lambda_star * sigma
             * PrimFloat.sqrt (if (rows <? cols)%nat then float_of_nat cols
                               else float_of_nat rows))%float
        | None =>
            let median := np_median sv in
            let beta_square := (beta * beta)%float in
            let beta_cubic := (beta * beta_square)%float in
            let omega :=
              (0.56 * beta_cubic - 0.95 * beta_square + 1.82 * beta + 1.43)%float in
            (median * omega)%float
        end in
      let rank := np_where (fun s => PrimFloat.leb tau_star s) sv in
      if length rank =? 0 then Ok (Z.of_nat (length sv))
      else Ok (Z.of_nat (last rank 0%nat) + 1)%Z
  | _ => Raise (ValueError "Expected 1d array for diagonal matrix!")
  end.

(** [__compute_rank].  The singular values come from an SVD, a 1-D array. *)
Definition __compute_rank (sigma_x : vec float) (rows cols : nat)
  (rank : pynum) (sigma : option float) : result Z :=
  __rank <-
    (if py_gt_int rank 0 && py_lt_int rank 1 then
       let sq := map (fun s => (s * s)%float) sigma_x in
       let total := np_sum sq in
       let cumulative_energy :=
         np_cumsum (map (fun s => (s / total)%float) sq) in
       Ok (Z.of_nat (np_searchsorted cumulative_energy (py_float rank)) + 1)%Z
     else if py_eq_int rank 0 then
       __svht (Array1 sigma_x) rows cols sigma
     else if py_ge_int rank 1 then
       py_int rank
     else
       Raise (ValueError "Invalid rank specified")) ;;
  Ok (Z.min __rank (Z.of_nat (length sigma_x))).

(** ** NumPy on 2-D complex arrays *)

Definition cmat : Type := mat complex.

Definition cget (a : cmat) (i j : nat) : complex := get C0 a i j.

Definition shape_err {A} : result A :=
  Raise (ValueError "operands could not be broadcast together").

(** The length of a broadcast dimension: equal lengths, or one of them 1. *)
Definition broadcast_dim (n m : nat) : result nat :=
  if n =? m then Ok n
  else if n =? 1 then Ok m
  else if m =? 1 then Ok n
  else shape_err.

(** The index into an operand whose dimension has length [n]. *)
Definition bidx (n i : nat) : nat := if n =? 1 then 0 else i.

(** [a (op) b] on 2-D arrays, with broadcasting. *)
Definition broadcast2 (op : complex -> complex -> complex) (a b : cmat)
  : result cmat :=
  n <- broadcast_dim (nrows a) (nrows b) ;;
  m <- broadcast_dim (ncols a) (ncols b) ;;
  Ok (build n m (fun i j =>
        op (cget a (bidx (nrows a) i) (bidx (ncols a) j))
           (cget b (bidx (nrows b) i) (bidx (ncols b) j)))).

(** [a (op) b] on 1-D arrays, with broadcasting. *)
Definition broadcast1 {A B C} (da : A) (db : B) (op : A -> B -> C)
  (a : vec A) (b : vec B) : result (vec C) :=
  n <- broadcast_dim (length a) (length b) ;;
  Ok (map (fun i => op (nth (bidx (length a) i) a da)
                       (nth (bidx (length b) i) b db)) (seq 0 n)).

Definition mat_map {A B} (d : A) (f : A -> B) (a : mat A) : mat B :=
  build (nrows a) (ncols a) (fun i j => f (get d a i j)).

(** [a.conj().T] *)
Definition conj_transpose (a : cmat) : cmat :=
  build (ncols a) (nrows a) (fun i j => cconj (cget a j i)).

(** [v.reshape((1, -1))] and [v.reshape((-1, 1))] of a real vector, as they
    enter a product with a complex array. *)
Definition as_row (v : vec float) : cmat :=
  build 1 (length v) (fun _ j => c_of_float (nth j v F0)).
Definition as_col (v : vec float) : cmat :=
  build (length v) 1 (fun i _ => c_of_float (nth i v F0)).

(** [np.outer(u, v)] *)
Definition outer (u v : vec complex) : cmat :=
  build (length u) (length v) (fun i j => cmul (nth i u C0) (nth j v C0)).

Definition csum (v : vec complex) : complex := fold_left cadd v C0.

(** [np.dot(a, b)] on 2-D arrays. *)
Definition dot (a b : cmat) : result cmat :=
  if ncols a =? nrows b then
    Ok (build (nrows a) (ncols b) (fun i j =>
          csum (map (fun k => cmul (cget a i k) (cget b k j))
                    (seq 0 (ncols a)))))
  else Raise (ValueError "shapes not aligned").

(** [v @ a] for a 1-D [v] and a 2-D [a]. *)
Definition vecmat (v : vec complex) (a : cmat) : result (vec complex) :=
  if length v =? nrows a then
    Ok (map (fun j => csum (map (fun k => cmul (nth k v C0) (cget a k j))
                                (seq 0 (length v))))
            (seq 0 (ncols a)))
  else Raise (ValueError "shapes not aligned").

(** [np.linalg.multi_dot([a, b, c])]: the shapes are checked first, then the
    cheaper of the two parenthesisations is computed. *)
Definition multi_dot3 (a b c : cmat) : result cmat :=
  if negb (ncols a =? nrows b) || negb (ncols b =? nrows c) then
    Raise (ValueError "shapes not aligned")
  else
    let a0 := nrows a in
    let a1b0 := ncols a in
    let b1c0 := nrows c in
    let c1 := ncols c in
    let cost1 := a0 * b1c0 * (a1b0 + c1) in
    let cost2 := a1b0 * c1 * (a0 + b1c0) in
    if cost1 <? cost2 then ab <- dot a b ;; dot ab c
    else bc <- dot b c ;; dot a bc.

(** [a[i, :]] and [a[:, j]] with NumPy's bound check. *)
Definition row_at (a : cmat) (i : nat) : result (vec complex) :=
  if i <? nrows a then Ok (row C0 a i) else Raise IndexError.
Definition col_at (a : cmat) (j : nat) : result (vec complex) :=
  if j <? ncols a then Ok (col C0 a j) else Raise IndexError.

(** [a[lo:hi, j] = src] on a real 2-D array, [lo <= hi <= a.shape[0]]. *)
Definition set_col_slice (a : mat float) (lo hi j : nat) (src : vec float)
  : result (mat float) :=
  if j <? ncols a then
    s <- broadcast_to (hi - lo) src ;;
    Ok (build (nrows a) (ncols a) (fun i c =>
          if (c =? j) && (lo <=? i) && (i <? hi) then nth (i - lo) s F0
          else get F0 a i c))
  else Raise IndexError.

(** [v[idx] = vals] for an index array [idx] and as many values. *)
Fixpoint scatter {A} (v : vec A) (idx : vec nat) (vals : vec A)
  : result (vec A) :=
  match idx, vals with
  | [], [] => Ok v
  | i :: idx', x :: vals' =>
      if i <? length v
      then scatter (firstn i v ++ x :: skipn (S i) v) idx' vals'
      else Raise IndexError
  | _, _ => Raise (ValueError "shape mismatch")
  end.

(** [v[idx]] for an index array [idx]. *)
Definition take_at {A} (d : A) (v : vec A) (idx : vec nat) : result (vec A) :=
  if forallb (fun i => i <? length v) idx
  then Ok (map (fun i => nth i v d) idx)
  else Raise IndexError.

(** [a[:, idx]] for an index array [idx]. *)
Definition take_cols_at (a : cmat) (idx : vec nat) : result cmat :=
  if forallb (fun j => j <? ncols a) idx
  then Ok (build (nrows a) (length idx) (fun i j => cget a i (nth j idx 0)))
  else Raise IndexError.

(** [v[:n]] for a Python int [n]. *)
Definition py_take {A} (n : Z) (v : vec A) : vec A :=
  if (0 <=? n)%Z then firstn (Z.to_nat n) v
  else firstn (length v - Z.to_nat (- n)) v.

(** ** The numerical libraries *)

(** Options of [scipy.optimize.least_squares]. *)
Inductive optval : Type :=
| OptStr (s : string)
| OptNum (x : float).

Definition optargs_t : Type := list (string * optval).

Definition OPT_DEF_ARGS : optargs_t :=
  [("method", OptStr "trf"); ("tr_solver", OptStr "exact");
   ("loss", OptStr "linear"); ("x_scale", OptStr "jac");
   ("gtol", OptNum 1e-8); ("xtol", OptNum 1e-8); ("ftol", OptNum 1e-8)]%string.

(** [scipy.optimize.OptimizeResult]: the fields the source reads. *)
Record OptimizeResult : Type := mkOpt {
  opt_x : vec float;
  opt_fun : vec float;
  opt_jac : mat float
}.

(** [__OptimizeHelper]: the intermediate results shared by the residual and
    the Jacobian. *)
Record OptimizeHelper : Type := mkHelper {
  phi : cmat;
  u_svd : cmat;
  s_inv : vec float;
  v_svd : cmat;
  b_matrix : cmat;
  rho : cmat
}.

(** [__OptimizeHelper.__init__]: [np.empty] buffers; their contents are
    never read before [__compute_dmd_rho] replaces them, zeros stand for
    them. *)
Definition OptimizeHelper_init (l_in m_in n_in : nat) : OptimizeHelper :=
  let empty n m := build n m (fun _ _ => C0) in
  mkHelper (empty m_in l_in) (empty m_in l_in) (repeat F0 l_in)
           (empty l_in l_in) (empty l_in n_in) (empty m_in n_in).

(** The residual and the Jacobian as the solver calls them: with the extra
    arguments fixed, on a parameter vector and the helper. *)
Definition residual_fn : Type :=
  vec float -> OptimizeHelper -> result (vec float * OptimizeHelper).
Definition jacobian_fn : Type :=
  vec float -> OptimizeHelper -> result (mat float).

Record Backend : Type := mkBackend {
  (** [np.linalg.svd(a, full_matrices=False)] *)
  svd : cmat -> cmat * vec float * cmat;
  (** [np.linalg.eigvals(a)] *)
  eigvals : cmat -> vec complex;
  (** [scipy.linalg.qr(a, mode="economic", pivoting=True)[-1]] *)
  qr_pivot : cmat -> vec nat;
  (** [np.exp] and [np.abs] on a complex128 *)
  cexp : complex -> complex;
  cabs : complex -> float;
  (** [np.argsort(v)] *)
  argsort : vec float -> vec nat;
  (** [scipy.optimize.least_squares(fun, x0, jac, **optargs, args=...)]: the
      result and the helper as the last call left it *)
  least_squares :
    residual_fn -> vec float -> jacobian_fn -> optargs_t -> OptimizeHelper ->
    result (OptimizeResult * OptimizeHelper)
}.

(** What the source relies on. *)
Record BackendSpec (B : Backend) : Prop := mkBackendSpec {
  (** the economy SVD of an [n x m] array has [k = min n m] singular values,
      [U] is [n x k] and [Vh] is [k x m] *)
  svd_shape : forall a,
    let '(u, s, vh) := svd B a in
    let k := Nat.min (nrows a) (ncols a) in
    nrows u = nrows a /\ ncols u = k /\ length s = k /\
    nrows vh = k /\ ncols vh = ncols a;
  (** a square array of order [n] has [n] eigenvalues *)
  eigvals_length : forall a, length (eigvals B a) = nrows a;
  (** the pivots are a permutation of the column indices *)
  qr_pivot_perm : forall a, Permutation (qr_pivot B a) (seq 0 (ncols a));
  (** the sort indices are a permutation of the indices *)
  argsort_perm : forall v, Permutation (argsort B v) (seq 0 (length v));
  (** when the residual can be evaluated at every parameter vector of the
      length of [x0], and the Jacobian after it, the solver returns; its
      solution has the length of [x0], and the helper is as the residual left
      it at some parameter vector of that length *)
  least_squares_returns : forall f x0 j args h,
    (forall x h0, length x = length x0 ->
       exists r h1, f x h0 = Ok (r, h1) /\ exists jm, j x h1 = Ok jm) ->
    exists opt h',
      least_squares B f x0 j args h = Ok (opt, h') /\
      length (opt_x opt) = length x0 /\
      exists x h0 r, length x = length x0 /\ f x h0 = Ok (r, h')
}.

Section VarPro.
Variable B : Backend.

(** ** Residual and Jacobian *)

(** [__compute_dmd_rho] *)
Definition __compute_dmd_rho (alphas : vec float) (time : vec float)
  (data : cmat) (opthelper : OptimizeHelper)
  : result (vec float * OptimizeHelper) :=
  __alphas <- unpack_eigs alphas ;;
  let phi :=
    mat_map C0 (cexp B) (outer (map c_of_float time) __alphas) in
  let '(__u, __s, __v_t) := svd B phi in
  let __idx := np_where (fun s => fneb s F0) __s in
  let __s_inv := repeat F0 (length __s) in
  recip <- take_at F0 __s __idx ;;
  __s_inv <- scatter __s_inv __idx (map (fun s => (F1 / s)%float) recip) ;;
  proj <- multi_dot3 __u (conj_transpose __u) data ;;
  rho <- broadcast2 csub data proj ;;
  let rho_flat := ravel rho in
  let rho_out := repeat F0 (2 * length rho_flat) in
  rho_out <- set_slice rho_out 0 (length rho_flat) (map re rho_flat) ;;
  rho_out <- set_slice rho_out (length rho_flat) (length rho_out)
               (map im rho_flat) ;;
  let v_svd := conj_transpose __v_t in
  vs <- broadcast2 cmul v_svd (as_row __s_inv) ;;
  b_matrix <- multi_dot3 vs (conj_transpose __u) data ;;
  Ok (rho_out, mkHelper phi __u __s_inv v_svd b_matrix rho).

(** One turn of the loop of [__compute_dmd_jac]: the columns [j] and
    [l + j] of [jac_out]. *)
Definition jac_column (l : nat) (time : vec float) (opthelper : OptimizeHelper)
  (jac_out : mat float) (j : nat) : result (mat float) :=
  phi_j <- col_at (phi opthelper) j ;;
  d_phi_j <- broadcast1 F0 C0 (fun t p => cmul (c_of_float t) p) time phi_j ;;
  b_j <- row_at (b_matrix opthelper) j ;;
  let __outer := outer d_phi_j b_j in
  proj <- multi_dot3 (u_svd opthelper) (conj_transpose (u_svd opthelper))
            __outer ;;
  __a_j <- broadcast2 csub __outer proj ;;
  us <- broadcast2 cmul (u_svd opthelper) (as_row (s_inv opthelper)) ;;
  v_j <- row_at (v_svd opthelper) j ;;
  d_rho <- vecmat (map cconj d_phi_j) (rho opthelper) ;;
  __g_j <- dot us (outer (map cconj v_j) d_rho) ;;
  __jac <- broadcast2 csub (mat_map C0 cneg __a_j) __g_j ;;
  let __jac_flat := ravel __jac in
  let half := nrows jac_out / 2 in
  jac_out <- set_col_slice jac_out 0 half j (map re __jac_flat) ;;
  jac_out <- set_col_slice jac_out half (nrows jac_out) j (map im __jac_flat) ;;
  jac_out <- set_col_slice jac_out 0 half (l + j)
               (map (fun z => (- im z)%float) __jac_flat) ;;
  set_col_slice jac_out half (nrows jac_out) (l + j) (map re __jac_flat).

(** The [for] loop over [range(l)]. *)
Fixpoint jac_loop (l : nat) (time : vec float) (opthelper : OptimizeHelper)
  (jac_out : mat float) (js : list nat) : result (mat float) :=
  match js with
  | [] => Ok jac_out
  | j :: js' =>
      jac_out <- jac_column l time opthelper jac_out j ;;
      jac_loop l time opthelper jac_out js'
  end.

(** [__compute_dmd_jac] *)
Definition __compute_dmd_jac (alphas : vec float) (time : vec float)
  (data : cmat) (opthelper : OptimizeHelper) : result (mat float) :=
  __alphas <- unpack_eigs alphas ;;
  let jac_out :=
    build (2 * (nrows data * ncols data)) (length alphas) (fun _ _ => F0) in
  jac_loop (length __alphas) time opthelper jac_out
           (seq 0 (length __alphas)).

(** [__compute_dmd_varpro] *)
Definition __compute_dmd_varpro (alphas_init : vec float) (time : vec float)
  (data : cmat) (opthelper : OptimizeHelper) (optargs : optargs_t)
  : result (OptimizeResult * OptimizeHelper) :=
  least_squares B
    (fun x h => __compute_dmd_rho x time data h)
    alphas_init
    (fun x h => __compute_dmd_jac x time data h)
    optargs opthelper.

(** ** Sample selection *)

(** [select_best_samples_fast] *)
Definition select_best_samples_fast (data : ndarray complex) (comp : float)
  : result (vec nat) :=
  match data with
  | Array2 a =>
      if negb (PrimFloat.ltb F0 comp && PrimFloat.ltb comp F1) then
        Raise (ValueError "Compression must be in (0, 1)]")
      else
        n_samples <-
          int_of_float (float_of_nat (ncols a) * (F1 - comp))%float ;;
        let pcolumn := qr_pivot B a in
        let __idx := py_take n_samples pcolumn in
        Ok __idx
  | _ => Raise (ValueError "Expected 2D array!")
  end.

End VarPro.

(** ** A backend to run the model on examples

    It returns arrays of the shapes of [BackendSpec]: the SVD of an array is
    taken as if the array were diagonal with a non-negative real diagonal (it
    is the SVD of such arrays), the eigenvalues as if it were triangular, the
    pivots as if the columns came in decreasing norm; the exponential is its
    Taylor polynomial of degree 8; the solver evaluates the residual and the
    Jacobian at the initial guess and stops there. *)

Definition C1 : complex := mkC F1 F0.

Definition eye (n m : nat) : cmat :=
  build n m (fun i j => if i =? j then C1 else C0).

Definition diag_svd (a : cmat) : cmat * vec float * cmat :=
  let k := Nat.min (nrows a) (ncols a) in
  (eye (nrows a) k, map (fun i => re (cget a i i)) (seq 0 k), eye k (ncols a)).

Definition diag_eigvals (a : cmat) : vec complex :=
  map (fun i => cget a i i) (seq 0 (nrows a)).

Fixpoint taylor_exp (n : nat) (z term acc : complex) (k : float) : complex :=
  match n with
  | O => acc
  | S n' =>
      let term' := cdiv (cmul term z) (c_of_float k) in
      taylor_exp n' z term' (cadd acc term') (k + F1)%float
  end.

Definition sqrt_cabs (z : complex) : float :=
  PrimFloat.sqrt (re z * re z + im z * im z)%float.

(** A stable insertion sort of the indices by their keys. *)
Fixpoint insert_index (v : vec float) (i : nat) (l : vec nat) : vec nat :=
  match l with
  | [] => [i]
  | j :: l' =>
      if np_less (nth i v F0) (nth j v F0) then i :: l
      else j :: insert_index v i l'
  end.

Definition insertion_argsort (v : vec float) : vec nat :=
  fold_right (insert_index v) [] (seq 0 (length v)).

Definition one_step_least_squares (f : residual_fn) (x0 : vec float)
  (j : jacobian_fn) (args : optargs_t) (h : OptimizeHelper)
  : result (OptimizeResult * OptimizeHelper) :=
  '(r, h1) <- f x0 h ;;
  jm <- j x0 h1 ;;
  Ok (mkOpt x0 r jm, h1).

Definition example_backend : Backend :=
  mkBackend diag_svd diag_eigvals
            (fun a => seq 0 (ncols a))
            (fun z => taylor_exp 8 z C1 C1 F1)
            sqrt_cabs insertion_argsort one_step_least_squares.

(** ** Orchestration: results with a log

    The log records, in order, the calls into the numerical libraries and the
    warnings ([warnings.warn]) of a run; it is kept when an exception is
    raised. *)

Inductive event : Type :=
| NumericalWork (routine : string)
| Warning (msg : string).

Definition io (A : Type) : Type := (list event * result A)%type.

Definition io_ret {A} (a : A) : io A := ([], Ok a).

Definition io_bind {A B} (m : io A) (k : A -> io B) : io B :=
  match m with
  | (log, Ok a) => let (log', r) := k a in (log ++ log', r)
  | (log, Raise e) => (log, Raise e)
  end.

Definition lift {A} (r : result A) : io A := ([], r).
Definition raise {A} (e : exn) : io A := ([], Raise e).
Definition call {A} (routine : string) (a : A) : io A :=
  ([NumericalWork routine], Ok a).
Definition warn (msg : string) : io unit := ([Warning msg], Ok tt).

Declare Scope io_scope.
Delimit Scope io_scope with io.
Notation "x <- m ;; k" := (io_bind m (fun x => k))
  (at level 61, m at next level, right associativity) : io_scope.
Notation "' pat <- m ;; k" := (io_bind m (fun x => match x with pat => k end))
  (at level 61, pat pattern, m at next level, right associativity) : io_scope.
Notation "m ;;; k" := (io_bind m (fun _ => k))
  (at level 61, right associativity) : io_scope.

(** [a[:stop]] along an axis of length [len], for a Python int [stop]. *)
Definition py_stop (stop : Z) (len : nat) : nat :=
  if (0 <=? stop)%Z then Nat.min (Z.to_nat stop) len
  else len - Z.to_nat (- stop).

(** [np.arange(n)] *)
Definition arange (n : nat) : vec nat := seq 0 n.

(** [np.linalg.norm(a, axis=0)] *)
Definition norm_axis0 (a : cmat) : vec float :=
  map (fun j =>
         PrimFloat.sqrt
           (np_sum (map (fun i => re (cmul (cconj (cget a i j)) (cget a i j)))
                        (seq 0 (nrows a)))))
      (seq 0 (ncols a)).

Definition underdetermined_msg : string :=
  "Attempting to solve underdeterimined system. Decrease desired rank or compression!".

Section Fit.
Variable B : Backend.

(** [__compute_dmd_ev] *)
Definition __compute_dmd_ev (x_current x_next : cmat) (rank : pynum)
  : io (vec complex) :=
  ('(u_x, sigma_x, v_x_t) <- call "svd" (svd B x_current) ;;
   __rank <- lift (__compute_rank sigma_x (nrows x_current) (ncols x_current)
                     rank None) ;;
   let sigma_inv_approx :=
     map (fun s => (F1 / s)%float) (py_take __rank sigma_x) in
   let u := conj_transpose (take_cols C0 u_x (py_stop __rank (ncols u_x))) in
   let v := conj_transpose (take_rows C0 v_x_t (py_stop __rank (nrows v_x_t))) in
   sv <- lift (broadcast2 cmul (as_row sigma_inv_approx) v) ;;
   a_approx <- lift (multi_dot3 u x_next sv) ;;
   call "eigvals" (eigvals B a_approx))%io.

(** What [compute_varprodmd_any] returns. *)
Record varpro_result : Type := mkVarPro {
  vp_modes : cmat;
  vp_omegas : vec complex;
  vp_eigenf : vec float;
  vp_indices : vec nat;
  vp_opt : OptimizeResult
}.

(** [compute_varprodmd_any] *)
Definition compute_varprodmd_any (data : ndarray complex)
  (time : ndarray float) (optargs : optargs_t) (rank : pynum)
  (use_proj : bool) (compression : float) : io varpro_result :=
  (match data, time with
   | Array2 data, Array1 time =>
       '(u_r, s_r, v_r_t) <- call "svd" (svd B data) ;;
       __rank <- lift (__compute_rank s_r (nrows data) (ncols data) rank None) ;;
       let u_r := take_cols C0 u_r (py_stop __rank (ncols u_r)) in
       let s_r := py_take __rank s_r in
       let v_r :=
         conj_transpose (take_rows C0 v_r_t (py_stop __rank (nrows v_r_t))) in
       data_in <- lift (if use_proj
                        then broadcast2 cmul (conj_transpose v_r) (as_col s_r)
                        else Ok data) ;;
       (* trapezoidal derivative approximation *)
       let m := ncols data_in in
       mid <- lift (broadcast2 cadd (slice_cols C0 data_in 0 (m - 1))
                                    (slice_cols C0 data_in 1 m)) ;;
       let y_in := mat_map C0 (fun z => cdiv z (c_of_float F2)) mid in
       dt_in <- lift (broadcast1 F0 F0 PrimFloat.sub
                        (skipn 1 time) (firstn (length time - 1) time)) ;;
       diff <- lift (broadcast2 csub (slice_cols C0 data_in 1 m)
                                     (slice_cols C0 data_in 0 (m - 1))) ;;
       z_in <- lift (broadcast2 cdiv diff (as_row dt_in)) ;;
       omegas <- __compute_dmd_ev y_in z_in (PyInt __rank) ;;
       omegas_in <- lift (pack_eigs omegas) ;;
       '(data_in, time_in, indices) <-
         (if PrimFloat.ltb F0 compression then
            __idx <- lift (select_best_samples_fast B (Array2 data_in)
                             compression) ;;
            call "qr" tt ;;;
            let indices :=
              if 1 <? length __idx then __idx else arange (ncols data_in) in
            data_sel <- lift (take_cols_at data_in indices) ;;
            time_in <- lift (take_at F0 time indices) ;;
            io_ret (data_sel, time_in, indices)
          else
            io_ret (data_in, time, arange (ncols data_in))) ;;
       (if ncols data_in <? length omegas
        then warn underdetermined_msg else io_ret tt) ;;;
       let opthelper :=
         OptimizeHelper_init (ncols u_r) (nrows data_in) (ncols data_in) in
       '(opt, opthelper) <-
         (call "least_squares" tt ;;;
          lift (__compute_dmd_varpro B omegas_in time_in
                  (transpose C0 data_in) opthelper optargs)) ;;
       let half := length (opt_x opt) / 2 in
       omegas <- lift (set_real omegas (firstn half (opt_x opt))) ;;
       omegas <- lift (set_imag omegas (skipn half (opt_x opt))) ;;
       xi <- lift (if use_proj
                   then dot u_r (transpose C0 (b_matrix opthelper))
                   else Ok (transpose C0 (b_matrix opthelper))) ;;
       let eigenf := norm_axis0 xi in
       modes <- lift (broadcast2 cdiv xi (as_row eigenf)) ;;
       io_ret (mkVarPro modes omegas eigenf indices opt)
   | Array2 _, _ => raise (ValueError "time needs to be a 1D array")
   | _, _ => raise (ValueError "data needs to be 2D array")
   end)%io.

End Fit.

(** ** [VarProOperator] *)

(** [sorted_eigs] is a bool or a string. *)
Inductive sorted_eigs_t : Type :=
| SortBool (b : bool)
| SortStr (s : string).

Record VarProOperator : Type := mkOperator {
  _sorted_eigs : sorted_eigs_t;
  _svd_rank : pynum;
  _exact : bool;
  _optargs : optargs_t;
  _compression : float;
  _modes : option cmat;
  _eigenvalues : option (vec complex)
}.

(** [VarProOperator.__init__] *)
Definition VarProOperator_init (svd_rank : pynum) (exact : bool)
  (sorted_eigs : sorted_eigs_t) (compression : float) (optargs : optargs_t)
  : VarProOperator :=
  mkOperator sorted_eigs svd_rank exact optargs compression None None.

(** [v[idx]] and [a[:, idx]] for the sort indices. *)
Definition reindex {A} (d : A) (v : vec A) (idx : vec nat) : result (vec A) :=
  take_at d v idx.

Section Operator.
Variable B : Backend.

(** The sort key of the ["auto"] policy. *)
Definition auto_key (eigenvalues : vec complex) : result (vec float) :=
  let eigs_real := map re eigenvalues in
  let eigs_imag := map im eigenvalues in
  let __eigs_abs := map (cabs B) eigenvalues in
  let var_real := np_var eigs_real in
  let var_imag := np_var eigs_imag in
  let var_abs := np_var __eigs_abs in
  let __array := [var_real; var_imag; var_abs] in
  k <- np_argmax __array ;;
  Ok (nth k [eigs_real; eigs_imag; __eigs_abs] []).

(** The key of a sort policy given as a string. *)
Definition sort_key (policy : string) (eigenvalues : vec complex)
  : result (vec float) :=
  if String.eqb policy "auto" then auto_key eigenvalues
  else if String.eqb policy "real" then
    Ok (map (fun z => PrimFloat.abs (re z)) eigenvalues)
  else if String.eqb policy "imag" then
    Ok (map (fun z => PrimFloat.abs (im z)) eigenvalues)
  else if String.eqb policy "abs" then
    Ok (map (cabs B) eigenvalues)
  else Raise (ValueError (policy ++ " not supported!")).

(** [VarProOperator.compute_operator]: the operator after the call, and the
    amplitudes, the optimisation result and the sample indices. *)
Definition compute_operator (self : VarProOperator) (X : ndarray complex)
  (time : ndarray float)
  : io (VarProOperator * (vec float * OptimizeResult * vec nat)) :=
  (fit <- compute_varprodmd_any B X time (_optargs self) (_svd_rank self)
            (negb (_exact self)) (_compression self) ;;
   let modes := vp_modes fit in
   let eigenvalues := vp_omegas fit in
   let eigenf := vp_eigenf fit in
   (* overwrite for lazy sorting *)
   let sorted_eigs :=
     match _sorted_eigs self with
     | SortBool true => SortStr "auto"
     | other => other
     end in
   let self :=
     mkOperator sorted_eigs (_svd_rank self) (_exact self) (_optargs self)
                (_compression self) (Some modes) (Some eigenvalues) in
   match sorted_eigs with
   | SortStr policy =>
       eigs_abs <- lift (sort_key policy eigenvalues) ;;
       let idx := rev (argsort B eigs_abs) in
       eigenvalues <- lift (reindex C0 eigenvalues idx) ;;
       modes <- lift (take_cols_at modes idx) ;;
       eigenf <- lift (reindex F0 eigenf idx) ;;
       io_ret (mkOperator sorted_eigs (_svd_rank self) (_exact self)
                 (_optargs self) (_compression self)
                 (Some modes) (Some eigenvalues),
               (eigenf, vp_opt fit, vp_indices fit))
   | SortBool _ =>
       io_ret (self, (eigenf, vp_opt fit, vp_indices fit))
   end)%io.

End Operator.

(** ** [VarProDMD] *)

(** An attribute that [__init__] does not set is [None] here, and reading it
    raises [AttributeError], as does reading a field of Python's [None]. *)
Record VarProDMD : Type := mkDMD {
  _Atilde : VarProOperator;
  _optres : option OptimizeResult;
  _snapshots_holder : option (ndarray complex);
  _indices : option (vec nat);
  _b : option (vec float);
  _original_time : option (vec float);
  _dmd_time : option (vec float)
}.

(** [VarProDMD.__init__] *)
Definition VarProDMD_init (svd_rank : pynum) (exact : bool)
  (sorted_eigs : sorted_eigs_t) (compression : float)
  (optargs : option optargs_t) : VarProDMD :=
  let optargs := match optargs with
                 | None => OPT_DEF_ARGS
                 | Some o => o
                 end in
  mkDMD (VarProOperator_init svd_rank exact sorted_eigs compression optargs)
        None None None None None None.

Definition attr {A} (name : string) (field : option A) : result A :=
  match field with
  | Some a => Ok a
  | None => Raise (AttributeError name)
  end.

(** Modelled from the spec: the base model's [fitted] flag ([DMDBase] is not
    under [src/]).  The spec makes it false on a new instance and true once
    [fit] has succeeded, with no way back; [fit] is what stores the modes in
    the operator, and that tells the two states apart. *)
Definition fitted (self : VarProDMD) : bool :=
  match _modes (_Atilde self) with
  | Some _ => true
  | None => false
  end.

(** Modelled from the spec: the operator's [modes] and [eigenvalues] and the
    base model's [eigs] and [amplitudes] hand out what the operator and the
    model store; the snapshot holder stores the snapshots as given. *)
Definition eigs (self : VarProDMD) : option (vec complex) :=
  _eigenvalues (_Atilde self).
Definition amplitudes (self : VarProDMD) : result (vec float) :=
  attr "_b" (_b self).
Definition Snapshots (X : ndarray complex) : ndarray complex := X.

Definition np_pi : float := 3.141592653589793%float.

Section Model.
Variable B : Backend.

(** [optdmd_predict] *)
Definition optdmd_predict (phi : cmat) (omegas : vec complex)
  (eigenf : vec float) (time : vec float) : result cmat :=
  let t_omega :=
    mat_map C0 (cexp B) (outer omegas (map c_of_float time)) in
  dyn <- broadcast2 cmul t_omega (as_col eigenf) ;;
  dot phi dyn.

(** [VarProDMD.fit] *)
Definition fit (self : VarProDMD) (X : ndarray complex) (time : ndarray float)
  : io VarProDMD :=
  (let holder := Snapshots X in
   '(op, (b, optres, indices)) <- compute_operator B (_Atilde self) X time ;;
   match time with
   | Array1 t =>
       dmd_time <- lift (take_at F0 t indices) ;;
       io_ret (mkDMD op (Some optres) (Some holder) (Some indices) (Some b)
                     (Some t) (Some dmd_time))
   | _ =>
       (* not reached: [compute_varprodmd_any] has raised this error *)
       raise (ValueError "time needs to be a 1D array")
   end)%io.

(** [VarProDMD.forecast] *)
Definition forecast (self : VarProDMD) (time : vec float) : result cmat :=
  if negb (fitted self) then
    Raise (ValueError "Nothing fitted yet, need to call fit-method first!")
  else
    modes <- attr "modes" (_modes (_Atilde self)) ;;
    eigenvalues <- attr "eigenvalues" (_eigenvalues (_Atilde self)) ;;
    b <- attr "_b" (_b self) ;;
    optdmd_predict modes eigenvalues b time.

(** [VarProDMD.ssr] *)
Definition ssr (self : VarProDMD) : result float :=
  if negb (fitted self) then Raise (ValueError "Nothing fitted yet!")
  else
    optres <- attr "_optres" (_optres self) ;;
    let rho_flat_real := opt_fun optres in
    rho_flat_imag <- unpack_eigs rho_flat_real ;;
    let sigma :=
      PrimFloat.sqrt
        (np_sum (map (fun z => (re z * re z)%float) rho_flat_imag)
         + np_sum (map (fun z => (im z * im z)%float) rho_flat_imag))%float in
    original_time <- attr "_original_time" (_original_time self) ;;
    let denom :=
      Z.max (Z.of_nat (length original_time)
             - Z.of_nat (nrows (opt_jac optres) / 2)
             - Z.of_nat (ncols (opt_jac optres) / 2)) 1 in
    Ok (sigma / PrimFloat.sqrt (float_of_Z denom))%float.

(** [VarProDMD.selected_samples] *)
Definition selected_samples (self : VarProDMD) : result (option (vec nat)) :=
  if negb (fitted self) then
    Raise (ValueError "Nothing fitted yet, need to call fit-method first!")
  else Ok (_indices self).

(** [VarProDMD.opt_stats] *)
Definition opt_stats (self : VarProDMD) : result (option OptimizeResult) :=
  if negb (fitted self) then Raise (ValueError "Nothing fitted yet!")
  else Ok (_optres self).

(** [VarProDMD.dynamics]: the arguments of [np.outer] are read first. *)
Definition dynamics (self : VarProDMD) : result cmat :=
  let eigs := eigs self in
  original_time <- attr "_original_time" (_original_time self) ;;
  eigs <- match eigs with Some e => Ok e | None => Raise TypeError end ;;
  let time := original_time in
  let t_omega :=
    mat_map C0 (cexp B) (outer eigs (map c_of_float time)) in
  amp <- amplitudes self ;;
  broadcast2 cmul (as_col amp) t_omega.

(** [VarProDMD.frequency] *)
Definition frequency (self : VarProDMD) : result (vec float) :=
  eigs <- attr "imag" (eigs self) ;;
  Ok (map (fun z => (im z / (F2 * np_pi))%float) eigs).

(** [VarProDMD.growth_rate] *)
Definition growth_rate (self : VarProDMD) : result (vec float) :=
  eigs <- attr "real" (eigs self) ;;
  Ok (map re eigs).

End Model.

(** Two states sampled at three times. *)
Definition example_data : cmat :=
  build 2 3 (fun i j => mkC (float_of_nat (i + j)) F0).
Definition example_time : vec float := [0; 1; 2]%float.

(** The strings that [compute_operator] accepts as a sort policy. *)
Definition supported_policy (s : string) : bool :=
  String.eqb s "auto" || String.eqb s "real" || String.eqb s "imag"
  || String.eqb s "abs".

(** ** Notions used in the statements *)

Definition shaped {A} (n m : nat) (a : mat A) : Prop :=
  nrows a = n /\ ncols a = m /\ wf_mat a.

(** Zeros, with the reciprocals written at the indices of the non-zero
    entries, is the entrywise guarded reciprocal. *)
Definition guarded_recip (s : float) : float :=
  if fneb s F0 then (F1 / s)%float else F0.

Definition put_col (a : mat float) (lo hi j : nat) (src : vec float)
  : mat float :=
  build (nrows a) (ncols a) (fun i c =>
    if (c =? j) && (lo <=? i) && (i <? hi) then nth (i - lo) src F0
    else get F0 a i c).

Definition dims {A} (n m : nat) (a : mat A) : Prop :=
  nrows a = n /\ ncols a = m.

(** The helper after a residual evaluation with [m] samples, [l] eigenvalues
    and [n] states. *)
Definition helper_shaped (m l n : nat) (h : OptimizeHelper) : Prop :=
  let k := Nat.min m l in
  shaped m l (phi h) /\ dims m k (u_svd h) /\ length (s_inv h) = k /\
  shaped l k (v_svd h) /\ shaped l n (b_matrix h) /\ shaped m n (rho h).

(** The columns [j] and [l + j] after one turn of the loop, for the
    flattened complex Jacobian [flat] of the eigenvalue [j]. *)
Definition put_columns (J : mat float) (mn l j : nat) (flat : vec complex)
  : mat float :=
  put_col
    (put_col
       (put_col (put_col J 0 mn j (map re flat))
                mn (nrows J) j (map im flat))
       0 mn (l + j) (map (fun z => (- im z)%float) flat))
    mn (nrows J) (l + j) (map re flat).

(** Column [l + j] is column [j] multiplied by [i]: its top half is the
    negated bottom half of column [j], its bottom half the top half. *)
Definition rotated (J : mat float) (mn l j : nat) : Prop :=
  forall i, i < mn ->
    get F0 J i (l + j) = (- get F0 J (mn + i) j)%float /\
    get F0 J (mn + i) (l + j) = get F0 J i j.

Definition prepend {A} (log : list event) (m : io A) : io A :=
  let (log', r) := m in (log ++ log', r).

Definition fit_log (compressed warned : bool) : list event :=
  [NumericalWork "svd"; NumericalWork "svd"; NumericalWork "eigvals"]
  ++ (if compressed then [NumericalWork "qr"] else [])
  ++ (if warned then [Warning underdetermined_msg] else [])
  ++ [NumericalWork "least_squares"].

(** The sample indices of a fit on [m] samples: the first [ns] pivots when
    there are at least two, else all samples. *)
Definition fit_indices (c : float) (ns : Z) (pcol : vec nat) (m : nat)
  : vec nat :=
  if PrimFloat.ltb F0 c then
    let idx := py_take ns pcol in
    if 1 <? length idx then idx else arange m
  else arange m.

(** ** Notions used in the further properties *)

(** [v[idx]] and [a[:, idx]] when the indices are in range. *)
Definition pick {A} (d : A) (v : vec A) (idx : vec nat) : vec A :=
  map (fun i => nth i v d) idx.

(** The fit of [compute_varprodmd_any] with its eigenvalues, amplitudes and
    mode columns taken in the order [idx]. *)
Definition aligned (res : varpro_result) (idx : vec nat)
  (modes : cmat) (eigenvalues : vec complex) (b : vec float) : Prop :=
  eigenvalues = pick C0 (vp_omegas res) idx /\
  b = pick F0 (vp_eigenf res) idx /\
  dims (nrows (vp_modes res)) (length idx) modes /\
  forall i j, i < nrows modes -> j < length idx ->
    cget modes i j = cget (vp_modes res) i (nth j idx 0).

(** The policy [compute_operator] sorts by: [True] is rewritten to ["auto"],
    [False] does not sort. *)
Definition effective_policy (s : sorted_eigs_t) : option string :=
  match s with
  | SortBool true => Some "auto"%string
  | SortBool false => None
  | SortStr p => Some p
  end.

(** An operator and a model of rank 2 without compression, to run on
    [example_data]. *)
Definition example_operator (sorted_eigs : sorted_eigs_t) : VarProOperator :=
  VarProOperator_init (PyInt 2) false sorted_eigs 0%float OPT_DEF_ARGS.

Definition example_model (sorted_eigs : sorted_eigs_t) : VarProDMD :=
  VarProDMD_init (PyInt 2) false sorted_eigs 0%float None.

(** ** Bounds on binary64 values

    A finite binary64 value is a mantissa [m] and an exponent [e], and stands
    for [m * 2^e]. *)

Section FloatValues.
Local Open Scope Z_scope.

Definition val_le (m e b : Z) : Prop :=
  exists k, 0 <= k /\ 0 <= e + k /\ m * 2 ^ (e + k) <= b * 2 ^ k.

Definition shr_inv (n : Z) (x y : shr_record) : Prop :=
  0 <= shr_m x ->
  shr_m y = shr_m x / 2 ^ n /\
  (shr_r x = false -> shr_s x = false -> (shr_m x) mod 2 ^ n = 0 ->
   shr_r y = false /\ shr_s y = false).

Definition rounded_le (r : spec_float) (b : Z) : Prop :=
  match r with
  | S754_zero _ => True
  | S754_finite false m e => val_le (Zpos m) e b
  | _ => False
  end.


End FloatValues.

(** ** Orders

    NumPy's order on the binary64 values as [SpecFloat] has them. *)
Definition sless (x y : spec_float) : bool :=
  SFltb x y || (negb (SFeqb y y) && SFeqb x x).

(** In NumPy's order the entry of [key] at the index [a] is not above the
    entry at [b]. *)
Definition not_above (key : vec float) (a b : nat) : Prop :=
  np_less (nth b key F0) (nth a key F0) = false.

(** The indices [idx] list entries of [key] from the smallest to the
    biggest, as [np.argsort] returns them. *)
Definition ascending (key : vec float) (idx : vec nat) : Prop :=
  forall i j, i < j -> j < length idx ->
    not_above key (nth i idx 0) (nth j idx 0).

Fixpoint sorted_indices (key : vec float) (idx : vec nat) : Prop :=
  match idx with
  | [] => True
  | a :: idx' => Forall (not_above key a) idx' /\ sorted_indices key idx'
  end.

(** The values [v] come from the biggest to the smallest. *)
Definition descending (v : vec float) : Prop :=
  forall i j, i < j -> j < length v -> np_less (nth i v F0) (nth j v F0) = false.

(** ** Finite arrays

    The fields of a [Backend] stand for the libraries on the inputs on which
    they return.  On an array with a NaN or an infinite entry
    [np.linalg.svd] and [np.linalg.eigvals] raise [LinAlgError] and
    [scipy.linalg.qr] ([check_finite=True]) raises [ValueError]; a statement
    that a function returns is made for arrays that are finite. *)
Definition finite_float (x : float) : bool :=
  match Prim2SF x with
  | S754_zero _ | S754_finite _ _ _ => true
  | _ => false
  end.

Definition finite_complex (z : complex) : bool :=
  finite_float (re z) && finite_float (im z).

Definition all_finite (a : cmat) : bool :=
  forallb (fun i => forallb (fun j => finite_complex (cget a i j))
                      (seq 0 (ncols a)))
          (seq 0 (nrows a)).


(** Following the words of the spec: the floor of [(1 - c) * m] for the
    number that the binary64 value [c] stands for. *)
Definition exact_floor_count (m : nat) (c : float) : option Z :=
  match Prim2SF c with
  | S754_zero _ => Some (Z.of_nat m)
  | S754_finite s mc ec =>
      let num := if s then Zneg mc else Zpos mc in
      if (0 <=? ec)%Z then Some (Z.of_nat m * (1 - num * 2 ^ ec))%Z
      else Some ((Z.of_nat m * (2 ^ (- ec) - num)) / 2 ^ (- ec))%Z
  | _ => None
  end.


(** * Properties *)

Unset Implicit Arguments.

Lemma rbind_ok {A B} (m : result A) (k : A -> result B) b :
  rbind m k = Ok b -> exists a, m = Ok a /\ k a = Ok b.
Proof. destruct m as [a|e]; simpl; [eauto | discriminate]. Qed.


Section MatrixFacts.
Context {A : Type} (d : A).
Implicit Types (a : mat A) (f : nat -> nat -> A).

Lemma get_build n m f i j :
  i < n -> j < m -> get d (build n m f) i j = f i j.
Proof.
  intros Hi Hj. unfold get, build; simpl.
  rewrite nth_indep with (d' := map (f 0) (seq 0 m))
    by (rewrite length_map, length_seq; exact Hi).
  rewrite (map_nth (fun i => map (f i) (seq 0 m)) (seq 0 n) 0 i).
  rewrite seq_nth by exact Hi. simpl.
  rewrite nth_indep with (d' := f i 0)
    by (rewrite length_map, length_seq; exact Hj).
  rewrite (map_nth (f i) (seq 0 m) 0 j).
  rewrite seq_nth by exact Hj. reflexivity.
Qed.

Lemma wf_build n m f : wf_mat (build n m f).
Proof.
  split; simpl.
  - now rewrite length_map, length_seq.
  - apply Forall_forall. intros r Hr. apply in_map_iff in Hr.
    destruct Hr as (i & <- & _). now rewrite length_map, length_seq.
Qed.

Lemma length_concat_uniform (l : list (list A)) m :
  Forall (fun r => length r = m) l -> length (concat l) = length l * m.
Proof.
  induction 1 as [|r l Hr _ IH]; simpl; [reflexivity|].
  rewrite length_app, IH, Hr. reflexivity.
Qed.

Lemma length_ravel a :
  wf_mat a -> length (ravel a) = nrows a * ncols a.
Proof.
  intros [Hn Hc]. unfold ravel.
  rewrite (length_concat_uniform _ _ Hc), Hn. reflexivity.
Qed.

Lemma length_col a j : length (col d a j) = nrows a.
Proof. unfold col. now rewrite length_map, length_seq. Qed.

Lemma length_row a i : length (row d a i) = ncols a.
Proof. unfold row. now rewrite length_map, length_seq. Qed.

End MatrixFacts.

(** *** Round trip of the real split *)

Lemma broadcast_to_same {A} n (src : vec A) :
  length src = n -> broadcast_to n src = Ok src.
Proof.
  intros H. unfold broadcast_to. apply Nat.eqb_eq in H. now rewrite H.
Qed.

Lemma complex_eta z : mkC (re z) (im z) = z.
Proof. now destruct z. Qed.

Lemma length_zip_complex xs ys :
  length xs = length ys -> length (zip_complex xs ys) = length xs.
Proof.
  intros H. unfold zip_complex. rewrite length_map, length_combine. lia.
Qed.

Lemma map_re_zip xs : forall ys,
  length xs = length ys -> map re (zip_complex xs ys) = xs.
Proof.
  induction xs as [|x xs IH]; intros [|y ys] H; simpl in *; try discriminate;
    [reflexivity|]. f_equal. apply IH. lia.
Qed.

Lemma map_im_zip xs : forall ys,
  length xs = length ys -> map im (zip_complex xs ys) = ys.
Proof.
  induction xs as [|x xs IH]; intros [|y ys] H; simpl in *; try discriminate;
    [reflexivity|]. f_equal. apply IH. lia.
Qed.

Lemma zip_re_im omegas : zip_complex (map re omegas) (map im omegas) = omegas.
Proof.
  unfold zip_complex.
  induction omegas as [|z zs IH]; simpl; [reflexivity|].
  now rewrite IH, complex_eta.
Qed.

Lemma set_real_zeros xs :
  set_real (repeat C0 (length xs)) xs = Ok (map c_of_float xs).
Proof.
  unfold set_real. rewrite repeat_length, broadcast_to_same by reflexivity.
  simpl. f_equal. induction xs as [|x xs IH]; simpl; [reflexivity|].
  now rewrite IH.
Qed.

Lemma combine_reals_imags xs : forall ys,
  map (fun p => mkC (re (fst p)) (snd p)) (combine (map c_of_float xs) ys)
  = zip_complex xs ys.
Proof.
  unfold zip_complex.
  induction xs as [|x xs IH]; intros [|y ys]; simpl; try reflexivity.
  now rewrite IH.
Qed.

Lemma set_imag_reals xs ys :
  length xs = length ys ->
  set_imag (map c_of_float xs) ys = Ok (zip_complex xs ys).
Proof.
  intros H. unfold set_imag.
  rewrite length_map, broadcast_to_same by (symmetry; exact H).
  simpl. now rewrite combine_reals_imags.
Qed.

Lemma half_double r : (2 * r) / 2 = r.
Proof. rewrite Nat.mul_comm. apply Nat.div_mul. discriminate. Qed.

Lemma unpack_eigs_app xs ys :
  length xs = length ys ->
  unpack_eigs (xs ++ ys) = Ok (zip_complex xs ys).
Proof.
  intros H. unfold unpack_eigs.
  assert (Hl : length (xs ++ ys) / 2 = length xs).
  { rewrite length_app, <- H.
    replace (length xs + length xs) with (2 * length xs) by lia.
    apply half_double. }
  rewrite Hl.
  rewrite firstn_app, Nat.sub_diag, firstn_all, firstn_O, app_nil_r.
  rewrite skipn_app, Nat.sub_diag, skipn_all, skipn_O. simpl app.
  rewrite set_real_zeros. simpl. now apply set_imag_reals.
Qed.

Lemma set_slice_mid {A} (xs ys src : vec A) lo hi :
  lo = length xs -> hi = lo + length src -> length src <= length ys ->
  set_slice (xs ++ ys) lo hi src = Ok (xs ++ src ++ skipn (length src) ys).
Proof.
  intros -> -> Hle. unfold set_slice. rewrite length_app.
  replace (Nat.min (length xs + length src) (length xs + length ys))
    with (length xs + length src) by lia.
  replace (Nat.min (length xs) (length xs + length src))
    with (length xs) by lia.
  rewrite broadcast_to_same by lia. unfold rbind.
  rewrite firstn_app, Nat.sub_diag, firstn_all, firstn_O, app_nil_r.
  rewrite skipn_app, skipn_all2 by lia.
  replace (length xs + length src - length xs) with (length src) by lia.
  reflexivity.
Qed.

Lemma pack_eigs_eq omegas :
  pack_eigs omegas = Ok (map re omegas ++ map im omegas).
Proof.
  unfold pack_eigs.
  assert (Hre : length (map re omegas) = length omegas) by apply length_map.
  assert (Him : length (map im omegas) = length omegas) by apply length_map.
  rewrite (@set_slice_mid _ [] (repeat F0 (2 * length omegas)) (map re omegas))
    by (rewrite ?repeat_length; simpl; lia).
  unfold rbind. rewrite Hre.
  replace (2 * length omegas) with (length omegas + length omegas) by lia.
  rewrite repeat_app, skipn_app, repeat_length, Nat.sub_diag, skipn_O.
  rewrite skipn_all2 by (rewrite repeat_length; lia).
  rewrite (@set_slice_mid _ (map re omegas) (repeat F0 (length omegas))
             (map im omegas))
    by (rewrite ?repeat_length; simpl; lia).
  rewrite skipn_all2 by (rewrite repeat_length; lia).
  now rewrite app_nil_r.
Qed.

(** Every vector of even length is a real part followed by an imaginary part. *)
Lemma split_halves (a : vec float) r :
  length a = 2 * r ->
  a = firstn r a ++ skipn r a /\
  length (firstn r a) = r /\ length (skipn r a) = r.
Proof.
  intros H. split; [symmetry; apply firstn_skipn|].
  rewrite length_firstn, length_skipn. lia.
Qed.

(** C3. Packing a complex vector into the real parts followed by the imaginary
    parts and unpacking it as the residual evaluation does gives the vector
    back; and a real vector of length [2 r] unpacks to [r] complex values that
    pack to the same real vector. *)
Theorem split_unsplit_roundtrip (omegas : vec complex) (a : vec float) (r : nat)
  (Ha : length a = 2 * r) :
  (exists packed,
      pack_eigs omegas = Ok packed /\
      length packed = 2 * length omegas /\
      unpack_eigs packed = Ok omegas) /\
  (exists z,
      unpack_eigs a = Ok z /\ length z = r /\ pack_eigs z = Ok a).
Proof.
  split.
  - exists (map re omegas ++ map im omegas). split; [apply pack_eigs_eq|].
    split; [rewrite length_app, !length_map; lia|].
    rewrite unpack_eigs_app by now rewrite !length_map.
    now rewrite zip_re_im.
  - destruct (@split_halves a r Ha) as (Hsplit & H1 & H2).
    exists (zip_complex (firstn r a) (skipn r a)).
    assert (Hlen : length (firstn r a) = length (skipn r a)) by lia.
    split; [rewrite Hsplit at 1; now apply unpack_eigs_app|].
    split; [rewrite length_zip_complex; assumption|].
    rewrite pack_eigs_eq, map_re_zip, map_im_zip by assumption.
    now rewrite <- Hsplit.
Qed.

Lemma split_unsplit_roundtrip_witness :
  (exists packed,
      pack_eigs [mkC 1%float 2%float; mkC 3%float 4%float] = Ok packed /\
      length packed = 2 * 2 /\
      unpack_eigs packed = Ok [mkC 1%float 2%float; mkC 3%float 4%float]) /\
  (exists z,
      unpack_eigs [1%float; 3%float; 2%float; 4%float] = Ok z /\
      length z = 2 /\
      pack_eigs z = Ok [1%float; 3%float; 2%float; 4%float]).
Proof.
  apply (@split_unsplit_roundtrip
           [mkC 1%float 2%float; mkC 3%float 4%float]
           [1%float; 3%float; 2%float; 4%float] 2).
  reflexivity.
Defined.

(** ** Facts on binary64 comparisons and truncation *)

Lemma Prim2SF_F0 : Prim2SF (float_of_Z 0) = S754_zero false.
Proof. vm_compute. reflexivity. Qed.

Lemma Prim2SF_F1 :
  Prim2SF (float_of_Z 1) = S754_finite false 4503599627370496 (-52).
Proof. vm_compute. reflexivity. Qed.

(** A float below zero is neither above zero, nor zero, nor at least one. *)
Lemma negative_float f :
  PrimFloat.ltb f (float_of_Z 0) = true ->
  PrimFloat.ltb (float_of_Z 0) f = false /\
  PrimFloat.eqb f (float_of_Z 0) = false /\
  PrimFloat.leb (float_of_Z 1) f = false.
Proof.
  rewrite !ltb_spec, eqb_spec, leb_spec, Prim2SF_F0, Prim2SF_F1.
  unfold SFltb, SFeqb, SFleb.
  destruct (Prim2SF f) as [s|s| |s m e]; simpl; try discriminate;
    destruct s; simpl; try discriminate; auto.
Qed.

Lemma digits2_pos_size p : digits2_pos p = Pos.size p.
Proof. induction p; simpl; congruence. Qed.

(** A mantissa of 53 digits is at least [2^52]. *)
Lemma mantissa_53 (m : positive) :
  Zpos (digits2_pos m) = 53%Z -> (2 ^ 52 <= Zpos m)%Z.
Proof.
  rewrite digits2_pos_size. intros H.
  pose proof (Pos.size_le m) as Hle.
  assert (Hs : Pos.size m = 53%positive) by lia.
  rewrite Hs in Hle.
  assert (2 ^ 53 <= 2 * Zpos m)%Z.
  { change (2 ^ 53)%Z with (Zpos (2 ^ 53)). lia. }
  lia.
Qed.

(** [int(f)] of a float that is at least one is at least one. *)
Lemma int_of_float_ge_1 f z :
  PrimFloat.leb (float_of_Z 1) f = true ->
  int_of_float f = Ok z -> (1 <= z)%Z.
Proof.
  rewrite leb_spec, Prim2SF_F1. unfold int_of_float, SFleb, SFcompare.
  pose proof (Prim2SF_valid f) as Hv.
  destruct (Prim2SF f) as [s|s| |s m e]; cbv beta iota; try discriminate;
    destruct s; cbv beta iota; try discriminate.
  intros Hcmp Hz. injection Hz as <-.
  assert (Hm : (e = -52 -> 2 ^ 52 <= Zpos m)%Z).
  { intros ->. rewrite Z.compare_refl in Hcmp.
    pose proof (Pos.compare_spec 4503599627370496 m) as Hs.
    unfold Pos.compare in Hs.
    destruct Hs as [Hs|Hs|Hs]; try discriminate; lia. }
  assert (He : (-52 <= e)%Z).
  { destruct (Z.compare_spec (-52) e); try discriminate; lia. }
  clear Hcmp.
  destruct (Z.le_gt_cases 0 e) as [Hpos|Hneg].
  - rewrite Z.shiftl_mul_pow2 by lia.
    assert (0 < 2 ^ e)%Z by (apply Z.pow_pos_nonneg; lia). nia.
  - rewrite Z.shiftl_div_pow2 by lia.
    apply Z.div_le_lower_bound; [apply Z.pow_pos_nonneg; lia|].
    rewrite Z.mul_1_r.
    transitivity (2 ^ 52)%Z; [apply Z.pow_le_mono_r; lia|].
    destruct (Z.eq_dec e (-52)) as [->|Hne]; [now apply Hm|].
    unfold SpecFloat.valid_binary, bounded, canonical_mantissa, fexp in Hv.
    apply andb_prop in Hv. destruct Hv as [Hc _].
    apply Z.eqb_eq in Hc. apply mantissa_53.
    unfold SpecFloat.emin, emax, prec in Hc. lia.
Qed.

(** ** Rank estimation *)

Lemma binsearch_left_bounds fuel arr key : forall lo hi,
  lo <= hi ->
  lo <= binsearch_left fuel arr key lo hi <= hi.
Proof.
  induction fuel as [|fuel IH]; intros lo hi Hle; cbn [binsearch_left]; [lia|].
  destruct (lo <? hi) eqn:Hlt; [|lia].
  apply Nat.ltb_lt in Hlt.
  assert (Hmid : (hi - lo) / 2 < hi - lo)
    by (apply Nat.div_lt; lia).
  destruct (np_less _ _).
  - specialize (IH (lo + (hi - lo) / 2 + 1) hi). lia.
  - specialize (IH lo (lo + (hi - lo) / 2)). lia.
Qed.

Lemma np_searchsorted_le arr key : np_searchsorted arr key <= length arr.
Proof.
  unfold np_searchsorted.
  pose proof (@binsearch_left_bounds (length arr) arr key 0 (length arr)).
  lia.
Qed.

Lemma np_where_lt {A} (cond : A -> bool) (v : vec A) i :
  In i (np_where cond v) -> i < length v.
Proof.
  unfold np_where. intros H. apply in_map_iff in H.
  destruct H as ([j x] & <- & Hin). apply filter_In in Hin.
  destruct Hin as [Hin _]. apply in_combine_l in Hin.
  apply in_seq in Hin. simpl. lia.
Qed.

Lemma last_In {A} (l : list A) d : l <> [] -> In (last l d) l.
Proof.
  induction l as [|x l IH]; [congruence|]. intros _.
  destruct l as [|y l]; [now left|].
  right. apply IH. discriminate.
Qed.

Lemma length_np_cumsum v : length (np_cumsum v) = length v.
Proof.
  destruct v as [|x v]; [reflexivity|]. simpl. f_equal.
  generalize x. induction v as [|y v IH]; intros acc; simpl; [reflexivity|].
  now rewrite IH.
Qed.

Lemma svht_range sv rows cols sigma k :
  sv <> [] ->
  __svht (Array1 sv) rows cols sigma = Ok k ->
  (1 <= k <= Z.of_nat (length sv))%Z.
Proof.
  intros Hne H. unfold __svht in H.
  apply rbind_ok in H. destruct H as (beta & _ & H).
  set (rank := np_where _ sv) in H.
  assert (Hlen : 0 < length sv) by (destruct sv; simpl; [congruence|lia]).
  destruct (length rank =? 0) eqn:Hr; injection H as <-; [lia|].
  assert (Hin : In (last rank 0) rank).
  { apply last_In. intros ->. discriminate. }
  apply np_where_lt in Hin. lia.
Qed.

Lemma zero_float_not_positive f :
  PrimFloat.eqb f (float_of_Z 0) = true ->
  PrimFloat.ltb (float_of_Z 0) f = false.
Proof.
  rewrite ltb_spec, eqb_spec, Prim2SF_F0. unfold SFltb, SFeqb.
  destruct (Prim2SF f) as [s|s| |s m e]; simpl; try discriminate;
    destruct s; simpl; try discriminate; auto.
Qed.

Lemma py_div_ok x y :
  PrimFloat.eqb y F0 = false -> py_div x y = Ok (x / y)%float.
Proof. unfold py_div. now intros ->. Qed.

Lemma compute_rank_range sigma_x rows cols rank sigma k :
  sigma_x <> [] ->
  __compute_rank sigma_x rows cols rank sigma = Ok k ->
  (1 <= k <= Z.of_nat (length sigma_x))%Z.
Proof.
  intros Hne H.
  assert (Hlen : 0 < length sigma_x)
    by (destruct sigma_x; simpl; [congruence|lia]).
  unfold __compute_rank in H.
  apply rbind_ok in H. destruct H as (r0 & Hr0 & H). injection H as <-.
  enough (1 <= r0)%Z by lia.
  destruct (py_gt_int rank 0 && py_lt_int rank 1).
  { injection Hr0 as <-. lia. }
  destruct (py_eq_int rank 0).
  { now apply svht_range in Hr0. }
  destruct (py_ge_int rank 1) eqn:Hge; [|discriminate].
  destruct rank as [z|f]; simpl in *.
  - injection Hr0 as <-. now apply Z.leb_le in Hge.
  - now apply int_of_float_ge_1 with (f := f).
Qed.

Lemma compute_rank_int sigma_x rows cols r sigma :
  (1 <= r)%Z ->
  __compute_rank sigma_x rows cols (PyInt r) sigma
  = Ok (Z.min r (Z.of_nat (length sigma_x))).
Proof.
  intros Hr. unfold __compute_rank. simpl.
  destruct (0 <? r)%Z eqn:H0; destruct (r <? 1)%Z eqn:H1; simpl;
    try (apply Z.ltb_lt in H1; lia).
  - destruct (r =? 0)%Z eqn:Hz; [apply Z.eqb_eq in Hz; lia|].
    destruct (1 <=? r)%Z eqn:Hge; [reflexivity|].
    apply Z.leb_gt in Hge. lia.
  - apply Z.ltb_ge in H0. lia.
Qed.

(** C7. For a non-empty vector of singular values, whatever rank
    [__compute_rank] returns lies between 1 and the number of singular values;
    an integer [r >= 1] gives [min r (len sigma)]; a negative specifier raises
    the invalid-argument error; a fraction in (0,1) always gives a rank, and
    so does the sentinel 0 when the matrix has a row or a column. *)
Theorem compute_rank_clamped (sigma_x : vec float) (rows cols : nat)
  (rank : pynum) (sigma : option float) (Hne : sigma_x <> []) :
  (forall k, __compute_rank sigma_x rows cols rank sigma = Ok k ->
             (1 <= k <= Z.of_nat (length sigma_x))%Z) /\
  (forall r, rank = PyInt r -> (1 <= r)%Z ->
             __compute_rank sigma_x rows cols rank sigma
             = Ok (Z.min r (Z.of_nat (length sigma_x)))) /\
  (py_lt_int rank 0 = true ->
   __compute_rank sigma_x rows cols rank sigma
   = Raise (ValueError "Invalid rank specified")) /\
  (py_gt_int rank 0 && py_lt_int rank 1 = true ->
   is_ok (__compute_rank sigma_x rows cols rank sigma) = true) /\
  (py_eq_int rank 0 = true ->
   PrimFloat.eqb (float_of_nat (Nat.max rows cols)) F0 = false ->
   is_ok (__compute_rank sigma_x rows cols rank sigma) = true).
Proof.
  assert (Hlen : 0 < length sigma_x)
    by (destruct sigma_x; simpl; [congruence|lia]).
  split; [|split; [|split; [|split]]].
  - (* the range of a returned rank *)
    intros k. now apply compute_rank_range.
  - (* an integer rank *)
    intros r -> Hr. now apply compute_rank_int.
  - (* a negative rank *)
    intros Hneg. unfold __compute_rank.
    destruct rank as [z|f]; simpl in *.
    + apply Z.ltb_lt in Hneg.
      destruct (0 <? z)%Z eqn:H0; [apply Z.ltb_lt in H0; lia|]. simpl.
      destruct (z =? 0)%Z eqn:Hz; [apply Z.eqb_eq in Hz; lia|].
      destruct (1 <=? z)%Z eqn:Hge; [apply Z.leb_le in Hge; lia|].
      reflexivity.
    + destruct (negative_float f Hneg) as (-> & -> & ->). reflexivity.
  - (* a fraction *)
    intros Hfrac. unfold __compute_rank. now rewrite Hfrac.
  - (* the sentinel 0 *)
    intros Hzero Hdiv. unfold __compute_rank.
    assert (Hnot : py_gt_int rank 0 && py_lt_int rank 1 = false).
    { destruct rank as [z|f]; simpl in *.
      - apply Z.eqb_eq in Hzero. subst z. reflexivity.
      - now rewrite (zero_float_not_positive f Hzero). }
    rewrite Hnot, Hzero. unfold __svht.
    assert (Hbeta : exists beta,
               (if cols <? rows
                then py_div (float_of_nat cols) (float_of_nat rows)
                else py_div (float_of_nat rows) (float_of_nat cols))
               = Ok beta).
    { destruct (cols <? rows) eqn:Hc.
      - apply Nat.ltb_lt in Hc.
        rewrite Nat.max_l in Hdiv by lia. rewrite py_div_ok by exact Hdiv.
        eauto.
      - apply Nat.ltb_ge in Hc.
        rewrite Nat.max_r in Hdiv by lia. rewrite py_div_ok by exact Hdiv.
        eauto. }
    destruct Hbeta as (beta & ->). simpl rbind.
    now destruct (length _ =? 0).
Qed.

Lemma compute_rank_clamped_witness :
  (forall k, __compute_rank [3; 2; 1]%float 3 5 (PyInt 2) None = Ok k ->
             (1 <= k <= 3)%Z) /\
  (forall r, PyInt 2 = PyInt r -> (1 <= r)%Z ->
             __compute_rank [3; 2; 1]%float 3 5 (PyInt 2) None
             = Ok (Z.min r 3)) /\
  (py_lt_int (PyInt 2) 0 = true ->
   __compute_rank [3; 2; 1]%float 3 5 (PyInt 2) None
   = Raise (ValueError "Invalid rank specified")) /\
  (py_gt_int (PyInt 2) 0 && py_lt_int (PyInt 2) 1 = true ->
   is_ok (__compute_rank [3; 2; 1]%float 3 5 (PyInt 2) None) = true) /\
  (py_eq_int (PyInt 2) 0 = true ->
   PrimFloat.eqb (float_of_nat (Nat.max 3 5)) F0 = false ->
   is_ok (__compute_rank [3; 2; 1]%float 3 5 (PyInt 2) None) = true).
Proof.
  apply (@compute_rank_clamped [3; 2; 1]%float 3 5 (PyInt 2) None).
  discriminate.
Defined.

(** ** The example backend meets the specification *)

Lemma insert_index_perm v i l : Permutation (insert_index v i l) (i :: l).
Proof.
  induction l as [|j l IH]; simpl; [apply Permutation_refl|].
  destruct (np_less _ _); [apply Permutation_refl|].
  eapply perm_trans; [apply perm_skip, IH | apply perm_swap].
Qed.

Lemma insertion_argsort_perm v :
  Permutation (insertion_argsort v) (seq 0 (length v)).
Proof.
  unfold insertion_argsort. induction (seq 0 (length v)) as [|i l IH]; simpl.
  - apply perm_nil.
  - eapply perm_trans; [apply insert_index_perm | apply perm_skip, IH].
Qed.

Lemma example_backend_spec : BackendSpec example_backend.
Proof.
  constructor; simpl.
  - intros a. unfold diag_svd. simpl.
    now rewrite length_map, length_seq.
  - intros a. unfold diag_eigvals. now rewrite length_map, length_seq.
  - intros a. apply Permutation_refl.
  - apply insertion_argsort_perm.
  - intros f x0 j args h H. unfold one_step_least_squares.
    destruct (H x0 h eq_refl) as (r & h1 & Hf & jm & Hj).
    exists (mkOpt x0 r jm), h1. rewrite Hf. simpl. rewrite Hj. simpl.
    repeat split. exists x0, h, r. auto.
Qed.

(** ** Sample selection *)

Lemma length_py_take {A} (n : Z) (v : vec A) :
  (0 <= n <= Z.of_nat (length v))%Z -> length (py_take n v) = Z.to_nat n.
Proof.
  intros H. unfold py_take.
  destruct (0 <=? n)%Z eqn:Hn; [|apply Z.leb_gt in Hn; lia].
  rewrite length_firstn. lia.
Qed.

Lemma py_take_incl {A} (n : Z) (v : vec A) x : In x (py_take n v) -> In x v.
Proof.
  assert (Hin : forall k, In x (firstn k v) -> In x v).
  { intros k H. rewrite <- (firstn_skipn k v). apply in_or_app. now left. }
  unfold py_take. destruct (0 <=? n)%Z; apply Hin.
Qed.

Lemma NoDup_firstn {A} (k : nat) (v : list A) : NoDup v -> NoDup (firstn k v).
Proof.
  intros H. rewrite <- (firstn_skipn k v) in H.
  now apply NoDup_app_remove_r in H.
Qed.

Lemma NoDup_py_take {A} (n : Z) (v : vec A) : NoDup v -> NoDup (py_take n v).
Proof. unfold py_take. destruct (0 <=? n)%Z; apply NoDup_firstn. Qed.


(** ** Shapes of the array operations *)


Lemma shaped_build {A} n m (f : nat -> nat -> A) : shaped n m (build n m f).
Proof. repeat split; try reflexivity; apply wf_build. Qed.

Lemma broadcast_dim_same n : broadcast_dim n n = Ok n.
Proof. unfold broadcast_dim. now rewrite Nat.eqb_refl. Qed.

Lemma broadcast_dim_one n : broadcast_dim n 1 = Ok n.
Proof.
  unfold broadcast_dim. destruct (n =? 1) eqn:H; [|reflexivity].
  apply Nat.eqb_eq in H. now subst.
Qed.

Lemma broadcast_one_dim n : broadcast_dim 1 n = Ok n.
Proof.
  unfold broadcast_dim. destruct (1 =? n) eqn:H; [|reflexivity].
  apply Nat.eqb_eq in H. now subst.
Qed.

Lemma broadcast2_dims op a b n m :
  broadcast_dim (nrows a) (nrows b) = Ok n ->
  broadcast_dim (ncols a) (ncols b) = Ok m ->
  exists r, broadcast2 op a b = Ok r /\ shaped n m r.
Proof.
  intros Hn Hm. unfold broadcast2. rewrite Hn, Hm. simpl.
  eexists. split; [reflexivity | apply shaped_build].
Qed.

Lemma broadcast2_ok op a b n m :
  nrows a = n -> ncols a = m ->
  (nrows b = n \/ nrows b = 1) -> ncols b = m ->
  exists r, broadcast2 op a b = Ok r /\ shaped n m r.
Proof.
  intros Hn Hm Hbn Hbm. apply broadcast2_dims.
  - rewrite Hn. destruct Hbn as [->| ->];
      [apply broadcast_dim_same | apply broadcast_dim_one].
  - rewrite Hm, Hbm. apply broadcast_dim_same.
Qed.

Lemma broadcast1_ok {A B C} (da : A) (db : B) (op : A -> B -> C) a b :
  length a = length b ->
  exists r, broadcast1 da db op a b = Ok r /\ length r = length a.
Proof.
  intros H. unfold broadcast1. rewrite H, broadcast_dim_same. simpl.
  eexists. split; [reflexivity|]. now rewrite length_map, length_seq.
Qed.

Lemma dot_ok a b :
  ncols a = nrows b ->
  exists r, dot a b = Ok r /\ shaped (nrows a) (ncols b) r.
Proof.
  intros H. unfold dot. apply Nat.eqb_eq in H. rewrite H.
  eexists. split; [reflexivity | apply shaped_build].
Qed.

Lemma multi_dot3_ok a b c :
  ncols a = nrows b -> ncols b = nrows c ->
  exists r, multi_dot3 a b c = Ok r /\ shaped (nrows a) (ncols c) r.
Proof.
  intros Hab Hbc. unfold multi_dot3.
  rewrite (proj2 (Nat.eqb_eq _ _) Hab), (proj2 (Nat.eqb_eq _ _) Hbc). simpl.
  destruct (_ <? _).
  - destruct (dot_ok a b Hab) as (ab & -> & Hn & Hm & _). simpl.
    destruct (dot_ok ab c) as (r & -> & Hr); [congruence|].
    exists r. split; [reflexivity|]. now rewrite <- Hn.
  - destruct (dot_ok b c Hbc) as (bc & -> & Hn & Hm & _). simpl.
    destruct (dot_ok a bc) as (r & -> & Hr); [congruence|].
    exists r. split; [reflexivity|]. now rewrite <- Hm.
Qed.

Lemma vecmat_ok v a :
  length v = nrows a ->
  exists r, vecmat v a = Ok r /\ length r = ncols a.
Proof.
  intros H. unfold vecmat. apply Nat.eqb_eq in H. rewrite H.
  eexists. split; [reflexivity|]. now rewrite length_map, length_seq.
Qed.

Lemma row_at_ok a i :
  i < nrows a -> exists r, row_at a i = Ok r /\ length r = ncols a.
Proof.
  intros H. unfold row_at. apply Nat.ltb_lt in H. rewrite H.
  eexists. split; [reflexivity | apply length_row].
Qed.

Lemma col_at_ok a j :
  j < ncols a -> exists r, col_at a j = Ok r /\ length r = nrows a.
Proof.
  intros H. unfold col_at. apply Nat.ltb_lt in H. rewrite H.
  eexists. split; [reflexivity | apply length_col].
Qed.

Lemma shaped_conj_transpose a :
  shaped (ncols a) (nrows a) (conj_transpose a).
Proof. apply shaped_build. Qed.

Lemma shaped_outer u v : shaped (length u) (length v) (outer u v).
Proof. apply shaped_build. Qed.

Lemma shaped_as_row v : shaped 1 (length v) (as_row v).
Proof. apply shaped_build. Qed.

Lemma shaped_mat_map {A B} (d : A) (f : A -> B) a :
  shaped (nrows a) (ncols a) (mat_map d f a).
Proof. apply shaped_build. Qed.

Lemma length_ravel_shaped {A} n m (a : mat A) :
  shaped n m a -> length (ravel a) = n * m.
Proof. intros (<- & <- & Hwf). now apply length_ravel. Qed.

(** ** The inverted singular values *)

Lemma combine_app_same {A B} (l1 : list A) : forall (r1 : list B) l2 r2,
  length l1 = length r1 ->
  combine (l1 ++ l2) (r1 ++ r2) = combine l1 r1 ++ combine l2 r2.
Proof.
  induction l1 as [|x l1 IH]; intros [|y r1] l2 r2 H; simpl in *;
    try discriminate; [reflexivity|].
  f_equal. apply IH. lia.
Qed.

Lemma np_where_snoc {A} (cond : A -> bool) (v : vec A) x :
  np_where cond (v ++ [x])
  = np_where cond v ++ (if cond x then [length v] else []).
Proof.
  unfold np_where. rewrite length_app, Nat.add_1_r, seq_S. simpl.
  rewrite combine_app_same by now rewrite length_seq.
  rewrite filter_app, map_app. simpl. now destruct (cond x).
Qed.

Lemma take_at_ok {A} (d : A) (v : vec A) idx :
  Forall (fun i => i < length v) idx ->
  take_at d v idx = Ok (map (fun i => nth i v d) idx).
Proof.
  intros H. unfold take_at.
  assert (Hb : forallb (fun i => i <? length v) idx = true).
  { apply forallb_forall. intros i Hi. apply Nat.ltb_lt.
    rewrite Forall_forall in H. now apply H. }
  now rewrite Hb.
Qed.

Lemma np_where_in_range {A} (cond : A -> bool) (v : vec A) :
  Forall (fun i => i < length v) (np_where cond v).
Proof. apply Forall_forall. intros i. apply np_where_lt. Qed.

Lemma scatter_app {A} (idx1 : vec nat) : forall (v : vec A) vals1 idx2 vals2,
  length idx1 = length vals1 ->
  scatter v (idx1 ++ idx2) (vals1 ++ vals2)
  = (v' <- scatter v idx1 vals1 ;; scatter v' idx2 vals2).
Proof.
  induction idx1 as [|i idx1 IH]; intros v [|x vals1] idx2 vals2 H;
    simpl in *; try discriminate.
  - now destruct idx2, vals2.
  - destruct (i <? length v); [|reflexivity]. apply IH. lia.
Qed.


Lemma scatter_one {A} (l1 : vec A) y x tail n :
  n = length l1 ->
  scatter (l1 ++ y :: tail) [n] [x] = Ok (l1 ++ x :: tail).
Proof.
  intros ->. cbn [scatter].
  replace (length l1 <? length (l1 ++ y :: tail)) with true
    by (symmetry; apply Nat.ltb_lt; rewrite length_app; simpl; lia).
  rewrite firstn_app, Nat.sub_diag, firstn_all, firstn_O, app_nil_r.
  replace (S (length l1)) with (length l1 + 1) by lia.
  rewrite skipn_app, skipn_all2 by lia.
  replace (length l1 + 1 - length l1) with 1 by lia.
  reflexivity.
Qed.

Lemma scatter_reciprocals (s : vec float) : forall tail,
  scatter (repeat F0 (length s) ++ tail)
          (np_where (fun x => fneb x F0) s)
          (map (fun x => (F1 / x)%float)
               (map (fun i => nth i s F0) (np_where (fun x => fneb x F0) s)))
  = Ok (map guarded_recip s ++ tail).
Proof.
  induction s as [|x s IH] using rev_ind; intros tail; [reflexivity|].
  rewrite np_where_snoc, !map_app, length_app, repeat_app, <- !app_assoc.
  rewrite scatter_app by now rewrite !length_map.
  assert (Hvals :
    map (fun i => nth i (s ++ [x]) F0) (np_where (fun x => fneb x F0) s)
    = map (fun i => nth i s F0) (np_where (fun x => fneb x F0) s)).
  { apply map_ext_in. intros i Hi. apply np_where_lt in Hi.
    now apply app_nth1. }
  rewrite Hvals, IH. cbn [rbind].
  change (map guarded_recip [x]) with [guarded_recip x].
  unfold guarded_recip at 3.
  destruct (fneb x F0).
  - cbn [map length repeat app]. rewrite nth_middle.
    apply scatter_one. now rewrite length_map.
  - reflexivity.
Qed.

Lemma s_inv_ok (s : vec float) :
  scatter (repeat F0 (length s)) (np_where (fun x => fneb x F0) s)
          (map (fun x => (F1 / x)%float)
               (map (fun i => nth i s F0) (np_where (fun x => fneb x F0) s)))
  = Ok (map guarded_recip s).
Proof.
  pose proof (scatter_reciprocals s []) as H.
  now rewrite !app_nil_r in H.
Qed.

(** The real parts, then the imaginary parts, written into zeros. *)
Lemma set_halves {T} (xs ys : vec float) n (k : vec float -> result T) :
  length xs = n -> length ys = n ->
  (o <- set_slice (repeat F0 (2 * n)) 0 n xs ;;
   o' <- set_slice o n (length o) ys ;; k o')
  = k (xs ++ ys).
Proof.
  intros Hx Hy.
  rewrite (set_slice_mid [] (repeat F0 (2 * n)) xs)
    by (rewrite ?repeat_length; simpl; lia).
  cbn [rbind app]. rewrite Hx.
  replace (2 * n) with (n + n) by lia.
  rewrite repeat_app, skipn_app, repeat_length, Nat.sub_diag, skipn_O.
  rewrite skipn_all2 by (rewrite repeat_length; lia). cbn [app].
  rewrite (set_slice_mid xs (repeat F0 n) ys)
    by (rewrite ?length_app, ?repeat_length; lia).
  rewrite skipn_all2 by (rewrite repeat_length; lia).
  now rewrite app_nil_r.
Qed.

(** ** Column assignment *)


Lemma set_col_slice_ok (a : mat float) lo hi j src :
  j < ncols a -> length src = hi - lo ->
  set_col_slice a lo hi j src = Ok (put_col a lo hi j src).
Proof.
  intros Hj Hlen. unfold set_col_slice.
  apply Nat.ltb_lt in Hj. rewrite Hj, broadcast_to_same by exact Hlen.
  reflexivity.
Qed.

Lemma get_put_col a lo hi j src i c :
  i < nrows a -> c < ncols a ->
  get F0 (put_col a lo hi j src) i c
  = if (c =? j) && (lo <=? i) && (i <? hi) then nth (i - lo) src F0
    else get F0 a i c.
Proof. intros Hi Hc. unfold put_col. now rewrite get_build. Qed.

(** ** The residual *)



Lemma unpack_eigs_even alphas l :
  length alphas = 2 * l ->
  exists z, unpack_eigs alphas = Ok z /\ length z = l.
Proof.
  intros H. destruct (split_halves alphas l H) as (Hs & H1 & H2).
  exists (zip_complex (firstn l alphas) (skipn l alphas)). split.
  - rewrite Hs at 1. apply unpack_eigs_app. lia.
  - rewrite length_zip_complex; lia.
Qed.

Section Residual.
Variable B : Backend.
Hypothesis HB : BackendSpec B.

Lemma compute_dmd_rho_ok alphas time data h0 l m n :
  length alphas = 2 * l -> length time = m ->
  nrows data = m -> ncols data = n ->
  exists rho_out h,
    __compute_dmd_rho B alphas time data h0 = Ok (rho_out, h) /\
    length rho_out = 2 * (m * n) /\
    helper_shaped m l n h /\
    s_inv h = map guarded_recip (snd (fst (svd B (phi h)))).
Proof.
  intros Ha Ht Hdn Hdm. unfold __compute_dmd_rho.
  destruct (unpack_eigs_even alphas l Ha) as (z & -> & Hz). cbn [rbind].
  set (phi0 := mat_map C0 (cexp B) (outer (map c_of_float time) z)).
  assert (Hphi : shaped m l phi0).
  { unfold phi0.
    pose proof (shaped_mat_map C0 (cexp B) (outer (map c_of_float time) z))
      as Hs.
    cbn in Hs. now rewrite length_map, Ht, Hz in Hs. }
  pose proof (svd_shape HB phi0) as Hsvd.
  destruct (svd B phi0) as [[u s] vt] eqn:Esvd.
  destruct Hphi as (Hpn & Hpm & Hpwf).
  rewrite Hpn, Hpm in Hsvd.
  destruct Hsvd as (Hun & Hum & Hs & Hvn & Hvm).
  rewrite take_at_ok by apply np_where_in_range. cbn [rbind].
  rewrite s_inv_ok. cbn [rbind].
  destruct (multi_dot3_ok u (conj_transpose u) data)
    as (proj & -> & Hprn & Hprm & _); [reflexivity | cbn; congruence |].
  cbn [rbind].
  destruct (broadcast2_ok csub data proj m n)
    as (rho1 & -> & Hrho); try congruence; [left; congruence|].
  cbn [rbind].
  pose proof (length_ravel_shaped m n rho1 Hrho) as Hflat.
  rewrite set_halves by apply length_map.
  destruct (broadcast2_ok cmul (conj_transpose vt)
              (as_row (map guarded_recip s)) l (Nat.min m l))
    as (vs & -> & Hvsn & Hvsm & _);
    [cbn; congruence | cbn; congruence | right; reflexivity
    | cbn; now rewrite length_map |].
  cbn [rbind].
  destruct (multi_dot3_ok vs (conj_transpose u) data)
    as (bm & -> & Hbm); [cbn; congruence | cbn; congruence |].
  cbn [rbind].
  eexists. eexists. split; [reflexivity|]. split; [|split].
  - rewrite length_app, !length_map, Hflat. lia.
  - unfold helper_shaped. cbn [phi u_svd s_inv v_svd b_matrix rho].
    split; [exact (conj Hpn (conj Hpm Hpwf))|].
    split; [split; assumption|].
    split; [now rewrite length_map|].
    split.
    { pose proof (shaped_conj_transpose vt) as Hv.
      now rewrite Hvn, Hvm in Hv. }
    split; [|exact Hrho].
    now rewrite Hvsn, Hdm in Hbm.
  - cbn. now rewrite Esvd.
Qed.

End Residual.


(** ** The Jacobian *)


Lemma jac_column_ok time h J j l m n :
  helper_shaped m l n h -> length time = m ->
  dims (2 * (m * n)) (2 * l) J -> j < l ->
  exists flat,
    length flat = m * n /\
    jac_column l time h J j = Ok (put_columns J (m * n) l j flat).
Proof.
  intros (Hphi & (Hun & Hum) & Hs & Hv & Hb & Hrho) Ht (HJn & HJm) Hj.
  destruct Hphi as (Hpn & Hpm & _). destruct Hv as (Hvn & Hvm & _).
  destruct Hb as (Hbn & Hbm & _). destruct Hrho as (Hrn & Hrm & _).
  unfold jac_column.
  destruct (col_at_ok (phi h) j) as (phi_j & -> & Hphij); [lia|].
  cbn [rbind].
  destruct (broadcast1_ok F0 C0 (fun t p => cmul (c_of_float t) p) time phi_j)
    as (d_phi_j & -> & Hd); [congruence|].
  cbn [rbind].
  destruct (row_at_ok (b_matrix h) j) as (b_j & -> & Hbj); [lia|].
  cbn [rbind].
  destruct (multi_dot3_ok (u_svd h) (conj_transpose (u_svd h))
              (outer d_phi_j b_j))
    as (proj & -> & Hprn & Hprm & _); [reflexivity | cbn; congruence |].
  cbn [rbind].
  destruct (broadcast2_ok csub (outer d_phi_j b_j) proj m n)
    as (a_j & -> & Haj);
    [cbn; congruence | cbn; congruence | left; congruence
    | cbn in Hprm; congruence |].
  cbn [rbind].
  destruct (broadcast2_ok cmul (u_svd h) (as_row (s_inv h)) m (Nat.min m l))
    as (us & -> & Husn & Husm & _);
    [assumption | assumption | right; reflexivity | cbn; assumption |].
  cbn [rbind].
  destruct (row_at_ok (v_svd h) j) as (v_j & -> & Hvj); [lia|].
  cbn [rbind].
  destruct (vecmat_ok (map cconj d_phi_j) (rho h)) as (d_rho & -> & Hdr);
    [rewrite length_map; congruence|].
  cbn [rbind].
  destruct (dot_ok us (outer (map cconj v_j) d_rho)) as (g_j & -> & Hg);
    [cbn; rewrite length_map; congruence|].
  cbn [rbind].
  destruct Haj as (Hajn & Hajm & _).
  destruct (broadcast2_ok csub (mat_map C0 cneg a_j) g_j m n)
    as (jac & -> & Hjac);
    [cbn; congruence | cbn; congruence
    | left; destruct Hg as (-> & _); congruence
    | destruct Hg as (_ & -> & _); cbn; congruence |].
  cbn [rbind].
  pose proof (length_ravel_shaped m n jac Hjac) as Hflat.
  assert (Hhalf : nrows J / 2 = m * n) by (rewrite HJn; apply half_double).
  exists (ravel jac). split; [exact Hflat|].
  rewrite Hhalf.
  rewrite set_col_slice_ok by (rewrite ?length_map; lia). cbn [rbind].
  rewrite set_col_slice_ok
    by (rewrite ?length_map; unfold put_col; cbn; lia).
  cbn [rbind].
  rewrite set_col_slice_ok
    by (rewrite ?length_map; unfold put_col; cbn; lia).
  cbn [rbind].
  rewrite set_col_slice_ok
    by (rewrite ?length_map; unfold put_col; cbn; lia).
  reflexivity.
Qed.


Lemma dims_put_columns J mn l j flat n m :
  dims n m J -> dims n m (put_columns J mn l j flat).
Proof. intros H. exact H. Qed.

Lemma get_put_columns J mn l j flat i c :
  nrows J = 2 * mn -> i < 2 * mn -> c < ncols J -> j < l ->
  length flat = mn ->
  get F0 (put_columns J mn l j flat) i c
  = if c =? l + j then
      if i <? mn then (- im (nth i flat C0))%float
      else re (nth (i - mn) flat C0)
    else if c =? j then
      if i <? mn then re (nth i flat C0) else im (nth (i - mn) flat C0)
    else get F0 J i c.
Proof.
  intros Hn Hi Hc Hj Hflat. unfold put_columns.
  rewrite !get_put_col by (unfold put_col; cbn; lia).
  cbn [nrows ncols put_col build]. rewrite Hn.
  assert (Hre : forall k, k < mn ->
            nth k (map re flat) F0 = re (nth k flat C0)).
  { intros k Hk. now rewrite <- (map_nth re flat C0 k). }
  assert (Him : forall k, k < mn ->
            nth k (map im flat) F0 = im (nth k flat C0)).
  { intros k Hk. now rewrite <- (map_nth im flat C0 k). }
  assert (Hni : forall k, k < mn ->
            nth k (map (fun z => (- im z)%float) flat) F0
            = (- im (nth k flat C0))%float).
  { intros k Hk.
    rewrite nth_indep with (d' := (- im C0)%float)
      by (rewrite length_map; lia).
    now rewrite (map_nth (fun z => (- im z)%float) flat C0 k). }
  destruct (Nat.eqb_spec c (l + j)) as [->|Hc1].
  - replace (l + j =? j) with false by (symmetry; apply Nat.eqb_neq; lia).
    cbn [andb].
    destruct (Nat.ltb_spec i mn) as [Hlt|Hge].
    + replace (mn <=? i) with false by (symmetry; apply Nat.leb_gt; lia).
      cbn [andb]. rewrite Nat.sub_0_r. now apply Hni.
    + replace (mn <=? i) with true by (symmetry; apply Nat.leb_le; lia).
      replace (i <? 2 * mn) with true by (symmetry; apply Nat.ltb_lt; lia).
      cbn [andb]. apply Hre. lia.
  - cbn [andb]. destruct (Nat.eqb_spec c j) as [->|Hc2]; [|reflexivity].
    cbn [andb].
    destruct (Nat.ltb_spec i mn) as [Hlt|Hge].
    + replace (mn <=? i) with false by (symmetry; apply Nat.leb_gt; lia).
      cbn [andb]. rewrite Nat.sub_0_r. now apply Hre.
    + replace (mn <=? i) with true by (symmetry; apply Nat.leb_le; lia).
      replace (i <? 2 * mn) with true by (symmetry; apply Nat.ltb_lt; lia).
      cbn [andb]. apply Him. lia.
Qed.

Lemma rotated_put_columns J mn l j flat :
  dims (2 * mn) (2 * l) J -> j < l -> length flat = mn ->
  rotated (put_columns J mn l j flat) mn l j.
Proof.
  intros (Hn & Hm) Hj Hflat i Hi.
  rewrite !get_put_columns by lia.
  rewrite !Nat.eqb_refl.
  replace (j =? l + j) with false by (symmetry; apply Nat.eqb_neq; lia).
  replace (i <? mn) with true by (symmetry; apply Nat.ltb_lt; lia).
  replace (mn + i <? mn) with false by (symmetry; apply Nat.ltb_ge; lia).
  replace (mn + i - mn) with i by lia.
  split; reflexivity.
Qed.

Lemma rotated_preserved J mn l j j' flat :
  dims (2 * mn) (2 * l) J -> j < l -> j' < l -> j' <> j ->
  length flat = mn ->
  rotated J mn l j' -> rotated (put_columns J mn l j flat) mn l j'.
Proof.
  intros (Hn & Hm) Hj Hj' Hne Hflat Hrot i Hi.
  rewrite !get_put_columns by lia.
  replace (l + j' =? l + j) with false by (symmetry; apply Nat.eqb_neq; lia).
  replace (l + j' =? j) with false by (symmetry; apply Nat.eqb_neq; lia).
  replace (j' =? l + j) with false by (symmetry; apply Nat.eqb_neq; lia).
  replace (j' =? j) with false by (symmetry; apply Nat.eqb_neq; lia).
  now apply Hrot.
Qed.

Lemma jac_loop_ok time h l m n : forall js J,
  helper_shaped m l n h -> length time = m ->
  dims (2 * (m * n)) (2 * l) J -> wf_mat J -> NoDup js ->
  (forall j, In j js -> j < l) ->
  (forall j, j < l -> ~ In j js -> rotated J (m * n) l j) ->
  exists J',
    jac_loop l time h J js = Ok J' /\
    dims (2 * (m * n)) (2 * l) J' /\ wf_mat J' /\
    forall j, j < l -> rotated J' (m * n) l j.
Proof.
  induction js as [|j js IH]; intros J Hh Ht HJ Hwf Hnd Hlt Hrot.
  - exists J. repeat split; try apply HJ; try apply Hwf.
    + now apply Hrot.
    + now apply Hrot.
  - cbn [jac_loop].
    assert (Hj : j < l) by (apply Hlt; now left).
    destruct (jac_column_ok time h J j l m n Hh Ht HJ Hj) as (flat & Hflat & ->).
    cbn [rbind]. apply NoDup_cons_iff in Hnd. destruct Hnd as [Hnotin Hnd'].
    apply IH; try assumption.
    + apply wf_build.
    + intros j' Hj'. apply Hlt. now right.
    + intros j' Hj' Hnot.
      destruct (Nat.eq_dec j' j) as [->|Hne].
      * now apply rotated_put_columns.
      * apply rotated_preserved; try assumption.
        apply Hrot; [exact Hj'|]. intros [Heq|Hin]; [congruence | auto].
Qed.

Lemma compute_dmd_jac_ok alphas time data h l m n :
  length alphas = 2 * l -> length time = m ->
  nrows data = m -> ncols data = n -> helper_shaped m l n h ->
  exists J,
    __compute_dmd_jac alphas time data h = Ok J /\
    dims (2 * (m * n)) (2 * l) J /\ wf_mat J /\
    forall j, j < l -> rotated J (m * n) l j.
Proof.
  intros Ha Ht Hrows Hcols Hh. unfold __compute_dmd_jac.
  destruct (unpack_eigs_even alphas l Ha) as (z & -> & Hz). cbn [rbind].
  rewrite Hz, Ha, Hrows, Hcols.
  apply jac_loop_ok with (n := n); try assumption.
  - split; reflexivity.
  - apply wf_build.
  - apply seq_NoDup.
  - intros j Hj. apply in_seq in Hj. lia.
  - intros j Hj Hnot. exfalso. apply Hnot. apply in_seq. lia.
Qed.

(** C6. For a parameter vector of [2 r] entries, [m] time samples and an
    [m x n] data array, the Jacobian evaluated after the residual is a real
    array of [2 m n] rows and [2 r] columns, and for every [j < r] the column
    of the imaginary part of the eigenvalue [j] is the column of its real
    part multiplied by [i]: the top half is the negated bottom half of
    column [j], the bottom half is the top half of column [j]. *)
Theorem jacobian_shape_and_rotation (B : Backend) (HB : BackendSpec B)
  (alphas time : vec float) (data : cmat) (h0 : OptimizeHelper) (r m n : nat)
  (Ha : length alphas = 2 * r) (Ht : length time = m)
  (Hrows : nrows data = m) (Hcols : ncols data = n) :
  exists rho_out h J,
    __compute_dmd_rho B alphas time data h0 = Ok (rho_out, h) /\
    __compute_dmd_jac alphas time data h = Ok J /\
    nrows J = 2 * (m * n) /\ ncols J = 2 * r /\ wf_mat J /\
    forall j i, j < r -> i < m * n ->
      get F0 J i (r + j) = (- get F0 J (m * n + i) j)%float /\
      get F0 J (m * n + i) (r + j) = get F0 J i j.
Proof.
  destruct (compute_dmd_rho_ok B HB alphas time data h0 r m n Ha Ht Hrows Hcols)
    as (rho_out & h & Hrho & _ & Hh & _).
  destruct (compute_dmd_jac_ok alphas time data h r m n Ha Ht Hrows Hcols Hh)
    as (J & HJ & (Hn & Hm) & Hwf & Hrot).
  exists rho_out, h, J.
  split; [exact Hrho|]. split; [exact HJ|]. split; [exact Hn|].
  split; [exact Hm|]. split; [exact Hwf|].
  intros j i Hj Hi. now apply Hrot.
Qed.

Lemma jacobian_shape_and_rotation_witness :
  exists rho_out h J,
    __compute_dmd_rho example_backend [0; 0.5; 0; 1]%float [0; 1; 2]%float
      (build 3 2 (fun i j => mkC (float_of_nat i) (float_of_nat j)))
      (OptimizeHelper_init 2 3 2) = Ok (rho_out, h) /\
    __compute_dmd_jac [0; 0.5; 0; 1]%float [0; 1; 2]%float
      (build 3 2 (fun i j => mkC (float_of_nat i) (float_of_nat j))) h
    = Ok J /\
    nrows J = 2 * (3 * 2) /\ ncols J = 2 * 2 /\ wf_mat J /\
    forall j i, j < 2 -> i < 3 * 2 ->
      get F0 J i (2 + j) = (- get F0 J (3 * 2 + i) j)%float /\
      get F0 J (3 * 2 + i) (2 + j) = get F0 J i j.
Proof.
  apply (jacobian_shape_and_rotation example_backend example_backend_spec
           [0; 0.5; 0; 1]%float [0; 1; 2]%float
           (build 3 2 (fun i j => mkC (float_of_nat i) (float_of_nat j)))
           (OptimizeHelper_init 2 3 2) 2 3 2);
    reflexivity.
Defined.

(** ** Runs of the orchestration code *)


Lemma io_bind_ok {A C} (m : io A) (k : A -> io C) log a :
  m = (log, Ok a) -> io_bind m k = prepend log (k a).
Proof. intros ->. reflexivity. Qed.

Lemma io_bind_lift {A C} (a : A) (k : A -> io C) :
  io_bind (lift (Ok a)) k = k a.
Proof. unfold io_bind, lift. now destruct (k a). Qed.

Lemma io_bind_ret {A C} (a : A) (k : A -> io C) : io_bind (io_ret a) k = k a.
Proof. unfold io_bind, io_ret. now destruct (k a). Qed.

Lemma io_bind_call {A C} name (a : A) (k : A -> io C) :
  io_bind (call name a) k = prepend [NumericalWork name] (k a).
Proof. reflexivity. Qed.

Lemma io_bind_raise {A C} (e : exn) (k : A -> io C) log :
  io_bind (log, Raise e) k = (log, Raise e).
Proof. reflexivity. Qed.

Ltac io_step := cbv beta iota zeta.

(** *** Slices *)

Lemma py_stop_nat kz len :
  (0 <= kz)%Z -> py_stop kz len = Nat.min (Z.to_nat kz) len.
Proof.
  intros H. unfold py_stop. apply Z.leb_le in H. now rewrite H.
Qed.

Lemma py_take_nat {A} kz (v : vec A) :
  (0 <= kz)%Z -> py_take kz v = firstn (Z.to_nat kz) v.
Proof.
  intros H. unfold py_take. apply Z.leb_le in H. now rewrite H.
Qed.

Section InitialGuess.
Variable B : Backend.
Hypothesis HB : BackendSpec B.

(** The initial eigenvalues: one per retained singular value of the
    midpoint array. *)
Lemma compute_dmd_ev_ok (y_in z_in : cmat) (kz : Z) p c :
  dims p c y_in -> dims p c z_in -> (1 <= kz)%Z ->
  exists omegas,
    __compute_dmd_ev B y_in z_in (PyInt kz)
    = ([NumericalWork "svd"; NumericalWork "eigvals"], Ok omegas) /\
    length omegas = Nat.min (Z.to_nat kz) (Nat.min p c).
Proof.
  intros (Hyn & Hym) (Hzn & Hzm) Hk. unfold __compute_dmd_ev.
  pose proof (svd_shape HB y_in) as Hsvd.
  destruct (svd B y_in) as [[u_x sigma_x] v_x_t] eqn:Esvd.
  rewrite Hyn, Hym in Hsvd. destruct Hsvd as (Hun & Hum & Hs & Hvn & Hvm).
  rewrite io_bind_call. io_step.
  rewrite compute_rank_int by exact Hk. rewrite io_bind_lift. io_step.
  set (r1 := Z.min kz (Z.of_nat (length sigma_x))).
  assert (Hr1 : (0 <= r1)%Z) by (unfold r1; lia).
  assert (Hr1n : Z.to_nat r1 = Nat.min (Z.to_nat kz) (Nat.min p c))
    by (unfold r1; rewrite Hs; lia).
  rewrite !py_stop_nat, py_take_nat by exact Hr1.
  rewrite Hum, Hvn.
  replace (Nat.min (Z.to_nat r1) (Nat.min p c)) with (Z.to_nat r1) by lia.
  set (sinv := map (fun s => (F1 / s)%float) (firstn (Z.to_nat r1) sigma_x)).
  assert (Hsinv : length sinv = Z.to_nat r1).
  { unfold sinv. rewrite length_map, length_firstn, Hs. lia. }
  set (u := conj_transpose (take_cols C0 u_x (Z.to_nat r1))).
  set (v := conj_transpose (take_rows C0 v_x_t (Z.to_nat r1))).
  assert (Hu : dims (Z.to_nat r1) p u).
  { unfold u, dims. cbn. rewrite Hum, Hun. lia. }
  assert (Hv : dims c (Z.to_nat r1) v).
  { unfold v, dims. cbn. rewrite Hvn, Hvm. lia. }
  destruct Hu as (Hu1 & Hu2). destruct Hv as (Hv1 & Hv2).
  destruct (broadcast2_dims cmul (as_row sinv) v c (Z.to_nat r1))
    as (sv & -> & Hsv1 & Hsv2 & _).
  { cbn [as_row build nrows]. rewrite Hv1. apply broadcast_one_dim. }
  { cbn [as_row build ncols]. rewrite Hv2, Hsinv. apply broadcast_dim_same. }
  rewrite io_bind_lift. io_step.
  destruct (multi_dot3_ok u z_in sv) as (a_approx & -> & Ha1 & _);
    [congruence | congruence |].
  rewrite io_bind_lift. io_step.
  eexists. split; [reflexivity|].
  rewrite (eigvals_length HB), Ha1. lia.
Qed.

End InitialGuess.



Lemma dims_slice_cols (a : cmat) lo hi p m :
  dims p m a -> dims p (Nat.min hi m - lo) (slice_cols C0 a lo hi).
Proof. intros (Hn & Hm). unfold dims. cbn. now rewrite Hn, Hm. Qed.

Lemma take_cols_at_ok (a : cmat) idx :
  Forall (fun j => j < ncols a) idx ->
  exists r, take_cols_at a idx = Ok r /\ shaped (nrows a) (length idx) r.
Proof.
  intros H. unfold take_cols_at.
  assert (Hb : forallb (fun j => j <? ncols a) idx = true).
  { apply forallb_forall. intros i Hi. apply Nat.ltb_lt.
    rewrite Forall_forall in H. now apply H. }
  rewrite Hb. eexists. split; [reflexivity | apply shaped_build].
Qed.

Lemma set_real_ok z src :
  length src = length z -> exists z', set_real z src = Ok z' /\ length z' = length z.
Proof.
  intros H. unfold set_real. rewrite broadcast_to_same by exact H. simpl.
  eexists. split; [reflexivity|]. rewrite length_map, length_combine. lia.
Qed.

Lemma set_imag_ok z src :
  length src = length z -> exists z', set_imag z src = Ok z' /\ length z' = length z.
Proof.
  intros H. unfold set_imag. rewrite broadcast_to_same by exact H. simpl.
  eexists. split; [reflexivity|]. rewrite length_map, length_combine. lia.
Qed.

Lemma length_norm_axis0 a : length (norm_axis0 a) = ncols a.
Proof. unfold norm_axis0. now rewrite length_map, length_seq. Qed.

Lemma fit_indices_range c ns pcol m :
  Permutation pcol (seq 0 m) ->
  Forall (fun i => i < m) (fit_indices c ns pcol m).
Proof.
  intros Hp. unfold fit_indices.
  assert (Har : Forall (fun i => i < m) (arange m)).
  { apply Forall_forall. intros i Hi. apply in_seq in Hi. lia. }
  destruct (PrimFloat.ltb F0 c); [|exact Har]. cbv zeta.
  destruct (1 <? _); [|exact Har].
  apply Forall_forall. intros i Hi. apply py_take_incl in Hi.
  apply (Permutation_in _ Hp) in Hi. apply in_seq in Hi. lia.
Qed.

Section FitRuns.
Variable B : Backend.
Hypothesis HB : BackendSpec B.

Lemma solver_returns omegas_in time_in data_t h0 optargs l m' p :
  length omegas_in = 2 * l -> length time_in = m' -> dims m' p data_t ->
  exists opt h,
    __compute_dmd_varpro B omegas_in time_in data_t h0 optargs = Ok (opt, h) /\
    length (opt_x opt) = 2 * l /\ helper_shaped m' l p h.
Proof.
  intros Hx Ht (Hdn & Hdm). unfold __compute_dmd_varpro.
  assert (Hcalls : forall x hx, length x = length omegas_in ->
            exists r h1,
              __compute_dmd_rho B x time_in data_t hx = Ok (r, h1) /\
              exists jm, __compute_dmd_jac x time_in data_t h1 = Ok jm).
  { intros x hx Hxl.
    destruct (compute_dmd_rho_ok B HB x time_in data_t hx l m' p)
      as (rho_out & h1 & Hrho & _ & Hh & _); try congruence.
    exists rho_out, h1. split; [exact Hrho|].
    destruct (compute_dmd_jac_ok x time_in data_t h1 l m' p)
      as (J & HJ & _); try congruence.
    eauto. }
  destruct (least_squares_returns HB
              (fun x h => __compute_dmd_rho B x time_in data_t h) omegas_in
              (fun x h => __compute_dmd_jac x time_in data_t h) optargs h0
              Hcalls)
    as (opt & h & Hls & Hlen & x & hx & r & Hxl & Hf).
  exists opt, h. split; [exact Hls|]. split; [congruence|].
  destruct (compute_dmd_rho_ok B HB x time_in data_t hx l m' p)
    as (rho_out & h1 & Hrho & _ & Hh & _); congruence.
Qed.

Lemma compute_varprodmd_any_ok (data : cmat) (time : vec float)
  (optargs : optargs_t) (rank : pynum) (use_proj : bool) (c : float)
  (n m : nat) (kz ns : Z) :
  dims n m data -> length time = m -> 0 < n -> 0 < m ->
  __compute_rank (snd (fst (svd B data))) n m rank None = Ok kz ->
  (PrimFloat.ltb F0 c = true ->
   PrimFloat.ltb c F1 = true /\
   int_of_float (float_of_nat m * (F1 - c))%float = Ok ns) ->
  exists res pcol,
    let k := Z.to_nat kz in
    let p := if use_proj then k else n in
    let l := Nat.min k (Nat.min p (m - 1)) in
    let indices := fit_indices c ns pcol m in
    compute_varprodmd_any B (Array2 data) (Array1 time) optargs rank use_proj c
    = (fit_log (PrimFloat.ltb F0 c) (length indices <? l), Ok res) /\
    Permutation pcol (seq 0 m) /\
    vp_indices res = indices /\
    length (vp_omegas res) = l /\ length (vp_eigenf res) = l /\
    dims n l (vp_modes res) /\ length (opt_x (vp_opt res)) = 2 * l.
Proof.
  intros (Hdn & Hdm) Ht Hn Hm Hrank Hc. unfold compute_varprodmd_any.
  pose proof (svd_shape HB data) as Hsvd.
  destruct (svd B data) as [[u s] vt] eqn:Esvd. cbn [fst snd] in Hrank.
  rewrite Hdn, Hdm in Hsvd. destruct Hsvd as (Hun & Hum & Hs & Hvn & Hvm).
  assert (Hkz : (1 <= kz <= Z.of_nat (length s))%Z).
  { apply compute_rank_range with (2 := Hrank).
    intros ->. simpl in Hs. lia. }
  set (k := Z.to_nat kz).
  assert (Hk : 1 <= k <= Nat.min n m) by (unfold k; lia).
  rewrite io_bind_call. io_step.
  rewrite Hdn, Hdm, Hrank, io_bind_lift. io_step.
  rewrite !py_stop_nat, py_take_nat by lia. fold k.
  rewrite Hum, Hvn.
  replace (Nat.min k (Nat.min n m)) with k by lia.
  set (u_r := take_cols C0 u k).
  set (s_r := firstn k s).
  set (v_r := conj_transpose (take_rows C0 vt k)).
  assert (Hur : dims n k u_r) by (unfold u_r, dims; cbn; lia).
  assert (Hsr : length s_r = k) by (unfold s_r; rewrite length_firstn; lia).
  assert (Hvr : dims m k v_r) by (unfold v_r, dims; cbn; lia).
  clearbody u_r s_r v_r. destruct Hvr as (Hvr1 & Hvr2).
  set (p := if use_proj then k else n).
  match goal with
  | |- context [io_bind (lift ?X) _] =>
      assert (Hdata_in : exists data_in, X = Ok data_in /\ dims p m data_in)
  end.
  { unfold p. destruct use_proj.
    - destruct (broadcast2_dims cmul (conj_transpose v_r) (as_col s_r) k m)
        as (d & Hd & H1 & H2 & _).
      + cbn. rewrite Hvr2, Hsr. apply broadcast_dim_same.
      + cbn. rewrite Hvr1. apply broadcast_dim_one.
      + exists d. split; [exact Hd | split; assumption].
    - exists data. split; [reflexivity | split; assumption]. }
  destruct Hdata_in as (data_in & -> & Hin1 & Hin2).
  rewrite io_bind_lift. io_step. rewrite Hin2.
  set (lo := slice_cols C0 data_in 0 (m - 1)).
  set (hi := slice_cols C0 data_in 1 m).
  assert (Hlo : dims p (m - 1) lo)
    by (unfold lo, dims; cbn; rewrite Hin1, Hin2; lia).
  assert (Hhi : dims p (m - 1) hi)
    by (unfold hi, dims; cbn; rewrite Hin1, Hin2; lia).
  clearbody lo hi. destruct Hlo as (Hlo1 & Hlo2). destruct Hhi as (Hhi1 & Hhi2).
  destruct (broadcast2_ok cadd lo hi p (m - 1)) as (mid & -> & Hmid1 & Hmid2 & _);
    try assumption; [left; assumption|].
  rewrite io_bind_lift. io_step.
  destruct (broadcast1_ok F0 F0 PrimFloat.sub (skipn 1 time)
              (firstn (length time - 1) time)) as (dt_in & -> & Hdt).
  { rewrite length_skipn, length_firstn. lia. }
  rewrite length_skipn, Ht in Hdt.
  rewrite io_bind_lift. io_step.
  destruct (broadcast2_ok csub hi lo p (m - 1)) as (diff & -> & Hdf1 & Hdf2 & _);
    try assumption; [left; assumption|].
  rewrite io_bind_lift. io_step.
  destruct (broadcast2_ok cdiv diff (as_row dt_in) p (m - 1))
    as (z_in & -> & Hz1 & Hz2 & _);
    try assumption; [right; reflexivity|].
  rewrite io_bind_lift. io_step.
  set (y_in := mat_map C0 (fun z => cdiv z (c_of_float F2)) mid).
  assert (Hy : dims p (m - 1) y_in) by (unfold y_in, dims; cbn; lia).
  clearbody y_in.
  destruct (compute_dmd_ev_ok B HB y_in z_in kz p (m - 1) Hy (conj Hz1 Hz2))
    as (omegas & Hev & Hl); [lia|].
  fold k in Hl. set (l := Nat.min k (Nat.min p (m - 1))) in *.
  rewrite (io_bind_ok _ _ _ _ Hev). io_step.
  rewrite pack_eigs_eq, io_bind_lift. io_step.
  set (omegas_in := map re omegas ++ map im omegas).
  assert (Hoin : length omegas_in = 2 * l).
  { unfold omegas_in. rewrite length_app, !length_map. lia. }
  clearbody omegas_in.
  set (pcol := qr_pivot B data_in).
  assert (Hperm : Permutation pcol (seq 0 m)).
  { unfold pcol. rewrite <- Hin2. apply (qr_pivot_perm HB). }
  set (indices := fit_indices c ns pcol m).
  assert (Hrange : Forall (fun i => i < m) indices)
    by now apply fit_indices_range.
  match goal with
  | |- context [io_bind ?X _] =>
      match X with
      | (if _ then _ else _) =>
          assert (Hsel : exists data_sel time_in,
                    X = (if PrimFloat.ltb F0 c then [NumericalWork "qr"]
                         else [], Ok (data_sel, time_in, indices)) /\
                    dims p (length indices) data_sel /\
                    length time_in = length indices)
      end
  end.
  { unfold indices, fit_indices in *.
    destruct (PrimFloat.ltb F0 c) eqn:Ec.
    - destruct (Hc eq_refl) as (Hc1 & Hns).
      unfold select_best_samples_fast. rewrite Ec, Hc1, Hin2, Hns.
      cbn [negb andb rbind]. fold pcol.
      rewrite io_bind_lift. io_step. rewrite io_bind_call. io_step.
      cbv zeta in Hrange.
      match goal with
      | |- context [take_cols_at data_in ?I] => set (ix := I) in *
      end.
      destruct (take_cols_at_ok data_in ix) as (d & -> & Hd1 & Hd2 & _).
      { now rewrite Hin2. }
      rewrite io_bind_lift. io_step.
      rewrite take_at_ok by now rewrite Ht.
      rewrite io_bind_lift. io_step.
      eexists. eexists. split; [reflexivity|].
      split; [split; congruence|]. now rewrite length_map.
    - exists data_in, time. split; [reflexivity|].
      unfold arange. rewrite length_seq. split; [split; assumption|exact Ht]. }
  destruct Hsel as (data_sel & time_in & Hsel & (Hds1 & Hds2) & Hti).
  rewrite (io_bind_ok _ _ _ _ Hsel). io_step.
  rewrite Hds2, Hl.
  match goal with
  | |- context [io_bind ?X _] =>
      match X with
      | (if _ then _ else _) =>
          assert (Hw : X = (if length indices <? l
                            then [Warning underdetermined_msg] else [], Ok tt))
            by (destruct (length indices <? l); reflexivity)
      end
  end.
  rewrite (io_bind_ok _ _ _ _ Hw). io_step. clear Hw.
  destruct (solver_returns omegas_in time_in (transpose C0 data_sel)
              (OptimizeHelper_init (ncols u_r) (nrows data_sel)
                 (length indices))
              optargs l (length indices) p Hoin Hti)
    as (opt & h & Hls & Hox & Hh).
  { split; cbn; assumption. }
  match goal with
  | |- context [io_bind ?X _] =>
      match X with
      | io_bind (call _ _) _ =>
          assert (Hsolve : X = ([NumericalWork "least_squares"], Ok (opt, h)))
            by (rewrite io_bind_call, Hls; reflexivity)
      end
  end.
  rewrite (io_bind_ok _ _ _ _ Hsolve). io_step. clear Hsolve.
  rewrite Hox, half_double.
  destruct (set_real_ok omegas (firstn l (opt_x opt)))
    as (omegas0 & -> & Ho0); [rewrite length_firstn; lia|].
  rewrite io_bind_lift. io_step.
  destruct (set_imag_ok omegas0 (skipn l (opt_x opt)))
    as (omegas1 & -> & Ho1); [rewrite length_skipn; lia|].
  rewrite io_bind_lift. io_step.
  destruct Hh as (_ & _ & _ & _ & (Hb1 & Hb2 & _) & _).
  destruct Hur as (Hur1 & Hur2).
  match goal with
  | |- context [io_bind (lift ?X) _] =>
      assert (Hxi : exists xi, X = Ok xi /\ dims n l xi)
  end.
  { unfold p in Hb2. destruct use_proj.
    - destruct (dot_ok u_r (transpose C0 (b_matrix h)))
        as (xi & Hxi & Hx1 & Hx2 & _); [cbn; congruence|].
      exists xi. split; [exact Hxi|]. cbn in Hx2. split; congruence.
    - eexists. split; [reflexivity|]. split; cbn; assumption. }
  destruct Hxi as (xi & -> & Hxi1 & Hxi2).
  rewrite io_bind_lift. io_step.
  destruct (broadcast2_ok cdiv xi (as_row (norm_axis0 xi)) n l)
    as (modes & -> & Hm1 & Hm2 & _);
    try assumption;
    [right; reflexivity | cbn; rewrite length_norm_axis0; exact Hxi2 |].
  rewrite io_bind_lift. io_step.
  eexists. exists pcol. fold indices.
  split; [reflexivity|]. split; [exact Hperm|]. cbn.
  split; [reflexivity|]. split; [lia|].
  split; [rewrite length_norm_axis0; exact Hxi2|].
  split; [split; assumption | exact Hox].
Qed.

End FitRuns.


Lemma solver_in_fit_log b w :
  In (NumericalWork "least_squares") (fit_log b w).
Proof. unfold fit_log. destruct b, w; simpl; tauto. Qed.

Lemma svd_in_fit_log b w : In (NumericalWork "svd") (fit_log b w).
Proof. unfold fit_log. simpl. tauto. Qed.




(** ** Slices of no entry *)



(** ** C2: an unsupported sort policy *)

Lemma sort_key_unsupported B policy eigenvalues :
  supported_policy policy = false ->
  sort_key B policy eigenvalues
  = Raise (ValueError (policy ++ " not supported!")).
Proof.
  unfold supported_policy, sort_key. intros H.
  apply orb_false_elim in H. destruct H as (H & ->).
  apply orb_false_elim in H. destruct H as (H & ->).
  apply orb_false_elim in H. destruct H as (-> & ->). reflexivity.
Qed.

(** C2, as the code has it.  With a sort policy that is a string other than
    "auto", "real", "imag" and "abs", [compute_operator] raises the
    invalid-argument error, and it does so after the numerical work: on data
    that can be fitted, the SVDs, the eigenvalue initialisation and the
    nonlinear optimisation have all run when the error is raised; an error of
    the fit itself is raised as it is. *)
Theorem unsupported_policy_raises_after_fit (B : Backend) (HB : BackendSpec B)
  (self : VarProOperator) (policy : string)
  (data : cmat) (time : vec float) (n m : nat) (kz ns : Z)
  (Hpolicy : _sorted_eigs self = SortStr policy)
  (Hbad : supported_policy policy = false)
  (Hdims : dims n m data) (Htime : length time = m)
  (Hn : 0 < n) (Hm : 0 < m)
  (Hrank : __compute_rank (snd (fst (svd B data))) n m (_svd_rank self) None
           = Ok kz)
  (Hcomp : PrimFloat.ltb F0 (_compression self) = true ->
           PrimFloat.ltb (_compression self) F1 = true /\
           int_of_float (float_of_nat m * (F1 - _compression self))%float
           = Ok ns) :
  (exists log,
     compute_operator B self (Array2 data) (Array1 time)
     = (log, Raise (ValueError (policy ++ " not supported!"))) /\
     In (NumericalWork "svd") log /\
     In (NumericalWork "eigvals") log /\
     In (NumericalWork "least_squares") log) /\
  (forall X t log e,
     compute_varprodmd_any B X t (_optargs self) (_svd_rank self)
       (negb (_exact self)) (_compression self) = (log, Raise e) ->
     compute_operator B self X t = (log, Raise e)).
Proof.
  split.
  - destruct (compute_varprodmd_any_ok B HB data time (_optargs self)
                (_svd_rank self) (negb (_exact self)) (_compression self)
                n m kz ns Hdims Htime Hn Hm Hrank Hcomp)
      as (res & pcol & Hrun & _).
    cbv zeta in Hrun. unfold compute_operator.
    rewrite (io_bind_ok _ _ _ _ Hrun). io_step. rewrite Hpolicy.
    rewrite sort_key_unsupported by exact Hbad.
    unfold lift. rewrite io_bind_raise. cbn [prepend].
    eexists. split; [reflexivity|]. rewrite app_nil_r.
    split; [apply svd_in_fit_log|].
    split; [|apply solver_in_fit_log].
    unfold fit_log. simpl. tauto.
  - intros X t log e H. unfold compute_operator. rewrite H. reflexivity.
Qed.

Lemma unsupported_policy_raises_after_fit_witness :
  (exists log,
     compute_operator example_backend
       (VarProOperator_init (PyInt 2) false (SortStr "bogus") 0%float
          OPT_DEF_ARGS)
       (Array2 example_data) (Array1 example_time)
     = (log, Raise (ValueError ("bogus" ++ " not supported!"))) /\
     In (NumericalWork "svd") log /\
     In (NumericalWork "eigvals") log /\
     In (NumericalWork "least_squares") log) /\
  (forall X t log e,
     compute_varprodmd_any example_backend X t OPT_DEF_ARGS (PyInt 2)
       (negb false) 0%float = (log, Raise e) ->
     compute_operator example_backend
       (VarProOperator_init (PyInt 2) false (SortStr "bogus") 0%float
          OPT_DEF_ARGS) X t = (log, Raise e)).
Proof.
  apply (unsupported_policy_raises_after_fit example_backend
           example_backend_spec
           (VarProOperator_init (PyInt 2) false (SortStr "bogus") 0%float
              OPT_DEF_ARGS)
           "bogus" example_data example_time 2 3 2%Z 0%Z).
  - reflexivity.
  - reflexivity.
  - split; reflexivity.
  - reflexivity.
  - lia.
  - lia.
  - vm_compute. reflexivity.
  - intros H. vm_compute in H. discriminate.
Defined.

(** C2 as stated fails: the error of the policy "bogus" is raised when the
    log of the numerical work already holds the SVDs, the eigenvalue
    computation and the solver. *)
Lemma unsupported_policy_counterexample :
  compute_operator example_backend
    (VarProOperator_init (PyInt 2) false (SortStr "bogus") 0%float OPT_DEF_ARGS)
    (Array2 example_data) (Array1 example_time)
  = ([NumericalWork "svd"; NumericalWork "svd"; NumericalWork "eigvals";
      NumericalWork "least_squares"],
     Raise (ValueError "bogus not supported!")).
Proof. vm_compute. reflexivity. Qed.

(** ** C1: the key of the "auto" policy *)

Lemma argmax_from_bound v : forall best besti i,
  besti < i -> argmax_from best besti i v < i + length v.
Proof.
  induction v as [|x v IH]; intros best besti i H; simpl; [lia|].
  destruct (fneb best best); [lia|].
  destruct (PrimFloat.ltb best x || fneb x x).
  - specialize (IH x i (S i)). lia.
  - specialize (IH best besti (S i)). lia.
Qed.

Lemma np_argmax_bound v k : np_argmax v = Ok k -> k < length v.
Proof.
  destruct v as [|x v]; simpl; [discriminate|]. intros H. injection H as <-.
  pose proof (argmax_from_bound v x 0 1). lia.
Qed.

(** The candidates of the "auto" policy are the real parts, the imaginary
    parts and the magnitudes: the first two enter with their sign. *)
Lemma auto_key_candidates B eigenvalues key :
  auto_key B eigenvalues = Ok key ->
  key = map re eigenvalues \/ key = map im eigenvalues \/
  key = map (cabs B) eigenvalues.
Proof.
  unfold auto_key. intros H. apply rbind_ok in H.
  destruct H as (k & Hk & H). injection H as <-.
  apply np_argmax_bound in Hk. simpl in Hk.
  destruct k as [|[|[|k]]]; simpl; auto. lia.
Qed.

(** C1 at the eigenvalues -3, 1, 2: the real part has the largest variance
    and is the key, with its sign, so the order after the sort is 2, 1, -3;
    sorted by [|Re|], as the policy is documented, it would be -3, 2, 1. *)
Theorem auto_policy_sorts_by_signed_parts :
  let eigs := [mkC (-3) 0; mkC 1 0; mkC 2 0]%float in
  sort_key example_backend "auto" eigs = Ok (map re eigs) /\
  reindex C0 eigs (rev (argsort example_backend (map re eigs)))
  = Ok [mkC 2 0; mkC 1 0; mkC (-3) 0]%float /\
  reindex C0 eigs
    (rev (argsort example_backend
            (map (fun z => PrimFloat.abs (re z)) eigs)))
  = Ok [mkC (-3) 0; mkC 2 0; mkC 1 0]%float.
Proof. vm_compute. repeat split; reflexivity. Qed.

(** ** C9: the accessors before [fit] *)

(** C9 on a new instance: [forecast], [ssr], [selected_samples] and
    [opt_stats] raise the not-fitted error; [dynamics], [frequency] and
    [growth_rate] have no such check and fail on the missing attribute. *)
Theorem accessors_before_fit (B : Backend) (svd_rank : pynum) (exact : bool)
  (sorted_eigs : sorted_eigs_t) (compression : float)
  (optargs : option optargs_t) (time : vec float) :
  let self := VarProDMD_init svd_rank exact sorted_eigs compression optargs in
  fitted self = false /\
  forecast B self time
  = Raise (ValueError "Nothing fitted yet, need to call fit-method first!") /\
  ssr self = Raise (ValueError "Nothing fitted yet!") /\
  selected_samples self
  = Raise (ValueError "Nothing fitted yet, need to call fit-method first!") /\
  opt_stats self = Raise (ValueError "Nothing fitted yet!") /\
  dynamics B self = Raise (AttributeError "_original_time") /\
  frequency self = Raise (AttributeError "imag") /\
  growth_rate self = Raise (AttributeError "real").
Proof. cbv zeta. repeat split. Qed.

(** * Further properties *)

(** ** Sorting in [compute_operator] *)

Lemma length_pick {A} (d : A) (v : vec A) idx :
  length (pick d v idx) = length idx.
Proof. apply length_map. Qed.

Lemma pick_seq {A} (d : A) (v : vec A) : pick d v (seq 0 (length v)) = v.
Proof.
  unfold pick. apply nth_ext with (d := d) (d' := d).
  - now rewrite length_map, length_seq.
  - intros i Hi. rewrite length_map, length_seq in Hi.
    rewrite nth_indep with (d' := nth 0 v d)
      by (rewrite length_map, length_seq; exact Hi).
    rewrite (map_nth (fun i => nth i v d) (seq 0 (length v)) 0 i).
    now rewrite seq_nth.
Qed.

Lemma take_cols_at_eq (a : cmat) idx :
  Forall (fun j => j < ncols a) idx ->
  take_cols_at a idx
  = Ok (build (nrows a) (length idx) (fun i j => cget a i (nth j idx 0))).
Proof.
  intros H. unfold take_cols_at.
  assert (Hb : forallb (fun j => j <? ncols a) idx = true).
  { apply forallb_forall. intros i Hi. apply Nat.ltb_lt.
    rewrite Forall_forall in H. now apply H. }
  now rewrite Hb.
Qed.

Lemma sort_key_supported B policy ev :
  supported_policy policy = true ->
  exists key, sort_key B policy ev = Ok key /\ length key = length ev.
Proof.
  unfold supported_policy, sort_key. intros H.
  destruct (String.eqb policy "auto").
  - unfold auto_key. cbv zeta. cbn [np_argmax rbind].
    match goal with
    | |- context [argmax_from ?b 0 1 ?v] =>
        pose proof (argmax_from_bound v b 0 1 ltac:(lia)) as Hk;
        destruct (argmax_from b 0 1 v) as [|[|[|k]]]
    end; cbn [nth length] in *; try lia;
      (eexists; split; [reflexivity | apply length_map]).
  - destruct (String.eqb policy "real");
      [eexists; split; [reflexivity | apply length_map]|].
    destruct (String.eqb policy "imag");
      [eexists; split; [reflexivity | apply length_map]|].
    destruct (String.eqb policy "abs");
      [eexists; split; [reflexivity | apply length_map]|].
    discriminate.
Qed.

Lemma perm_seq_range idx l :
  Permutation idx (seq 0 l) -> Forall (fun i => i < l) idx.
Proof.
  intros Hp. apply Forall_forall. intros i Hi.
  apply (Permutation_in _ Hp) in Hi. apply in_seq in Hi. lia.
Qed.

Section OperatorRuns.
Variable B : Backend.
Hypothesis HB : BackendSpec B.

Lemma compute_operator_ok (self : VarProOperator) (data : cmat)
  (time : vec float) (n m : nat) (kz ns : Z) :
  dims n m data -> length time = m -> 0 < n -> 0 < m ->
  __compute_rank (snd (fst (svd B data))) n m (_svd_rank self) None = Ok kz ->
  (PrimFloat.ltb F0 (_compression self) = true ->
   PrimFloat.ltb (_compression self) F1 = true /\
   int_of_float (float_of_nat m * (F1 - _compression self))%float = Ok ns) ->
  (forall p, effective_policy (_sorted_eigs self) = Some p ->
             supported_policy p = true) ->
  exists res pcol idx op b modes ev,
    let k := Z.to_nat kz in
    let p := if negb (_exact self) then k else n in
    let l := Nat.min k (Nat.min p (m - 1)) in
    let indices := fit_indices (_compression self) ns pcol m in
    let log := fit_log (PrimFloat.ltb F0 (_compression self))
                       (length indices <? l) in
    compute_varprodmd_any B (Array2 data) (Array1 time) (_optargs self)
      (_svd_rank self) (negb (_exact self)) (_compression self)
    = (log, Ok res) /\
    compute_operator B self (Array2 data) (Array1 time)
    = (log, Ok (op, (b, vp_opt res, indices))) /\
    Permutation pcol (seq 0 m) /\
    Permutation idx (seq 0 l) /\
    _modes op = Some modes /\ _eigenvalues op = Some ev /\
    aligned res idx modes ev b /\
    dims n l (vp_modes res) /\
    length (vp_omegas res) = l /\ length (vp_eigenf res) = l /\
    length (opt_x (vp_opt res)) = 2 * l /\
    (forall p, effective_policy (_sorted_eigs self) = Some p ->
       exists key, sort_key B p (vp_omegas res) = Ok key /\
                   idx = rev (argsort B key)) /\
    (effective_policy (_sorted_eigs self) = None ->
     idx = seq 0 l /\ modes = vp_modes res) /\
    effective_policy (_sorted_eigs op) = effective_policy (_sorted_eigs self) /\
    vp_indices res = indices.
Proof.
  intros Hdims Htime Hn Hm Hrank Hcomp Hpol.
  destruct (compute_varprodmd_any_ok B HB data time (_optargs self)
              (_svd_rank self) (negb (_exact self)) (_compression self)
              n m kz ns Hdims Htime Hn Hm Hrank Hcomp)
    as (res & pcol & Hrun & Hperm & Hidx & Hom & Hef & Hmd & Hx).
  cbv zeta in *.
  set (l := Nat.min (Z.to_nat kz)
              (Nat.min (if negb (_exact self) then Z.to_nat kz else n)
                       (m - 1))) in *.
  assert (Hsorted : forall p, supported_policy p = true ->
            exists key, sort_key B p (vp_omegas res) = Ok key /\
              Permutation (rev (argsort B key)) (seq 0 l)).
  { intros p Hp.
    destruct (sort_key_supported B p (vp_omegas res) Hp) as (key & Hk & Hkl).
    exists key. split; [exact Hk|].
    rewrite <- Hom, <- Hkl, <- Permutation_rev. apply (argsort_perm HB). }
  assert (Hcase : forall p sorted_eigs,
            supported_policy p = true ->
            exists key idx,
              sort_key B p (vp_omegas res) = Ok key /\
              idx = rev (argsort B key) /\
              Permutation idx (seq 0 l) /\
              (eigs_abs <- lift (sort_key B p (vp_omegas res)) ;;
               let idx := rev (argsort B eigs_abs) in
               eigenvalues <- lift (reindex C0 (vp_omegas res) idx) ;;
               modes <- lift (take_cols_at (vp_modes res) idx) ;;
               eigenf <- lift (reindex F0 (vp_eigenf res) idx) ;;
               io_ret (mkOperator sorted_eigs (_svd_rank self) (_exact self)
                         (_optargs self) (_compression self)
                         (Some modes) (Some eigenvalues),
                       (eigenf, vp_opt res, vp_indices res)))%io
              = ([], Ok (mkOperator sorted_eigs (_svd_rank self) (_exact self)
                           (_optargs self) (_compression self)
                           (Some (build (nrows (vp_modes res)) (length idx)
                                    (fun i j => cget (vp_modes res) i
                                                  (nth j idx 0))))
                           (Some (pick C0 (vp_omegas res) idx)),
                         (pick F0 (vp_eigenf res) idx, vp_opt res,
                          vp_indices res)))).
  { intros p se Hp. destruct (Hsorted p Hp) as (key & Hk & Hpm).
    exists key, (rev (argsort B key)).
    split; [exact Hk|]. split; [reflexivity|]. split; [exact Hpm|].
    pose proof (perm_seq_range _ _ Hpm) as Hr.
    rewrite Hk, io_bind_lift. io_step. unfold reindex.
    rewrite take_at_ok by now rewrite Hom.
    rewrite io_bind_lift. io_step.
    rewrite take_cols_at_eq by now rewrite (proj2 Hmd).
    rewrite io_bind_lift. io_step.
    rewrite take_at_ok by now rewrite Hef.
    rewrite io_bind_lift. io_step. reflexivity. }
  unfold compute_operator. rewrite (io_bind_ok _ _ _ _ Hrun). io_step.
  assert (Hal : forall idx, Permutation idx (seq 0 l) ->
            aligned res idx
              (build (nrows (vp_modes res)) (length idx)
                 (fun i j => cget (vp_modes res) i (nth j idx 0)))
              (pick C0 (vp_omegas res) idx) (pick F0 (vp_eigenf res) idx)).
  { intros idx _. split; [reflexivity|]. split; [reflexivity|].
    split; [split; reflexivity|].
    intros i j Hi Hj. unfold cget. cbn [nrows build] in Hi.
    now rewrite get_build. }
  destruct (_sorted_eigs self) as [[|]|p] eqn:Es; cbn [effective_policy] in *.
  - destruct (Hcase "auto"%string (SortStr "auto") (Hpol _ eq_refl))
      as (key & idx & Hk & -> & Hpm & Heq).
    cbv zeta in Heq. cbn [_svd_rank _exact _optargs _compression].
    rewrite Heq.
    cbn [prepend]. rewrite app_nil_r, Hidx.
    exists res, pcol. do 5 eexists.
    split; [exact Hrun|]. split; [reflexivity|].
    split; [exact Hperm|]. split; [exact Hpm|].
    split; [reflexivity|]. split; [reflexivity|].
    split; [now apply Hal|].
    split; [exact Hmd|]. split; [exact Hom|]. split; [exact Hef|].
    split; [exact Hx|]. split; [|split; [discriminate | split; [reflexivity | exact Hidx]]].
    intros p Hp. injection Hp as <-. eauto.
  - cbn [prepend io_ret]. rewrite app_nil_r, Hidx.
    exists res, pcol, (seq 0 l). do 4 eexists.
    split; [exact Hrun|]. split; [reflexivity|].
    split; [exact Hperm|]. split; [apply Permutation_refl|].
    split; [reflexivity|]. split; [reflexivity|]. split.
    { split; [now rewrite <- Hom, pick_seq|].
      split; [now rewrite <- Hef, pick_seq|].
      rewrite length_seq. split; [split; [reflexivity | apply Hmd]|].
      intros i j _ Hj. now rewrite seq_nth. }
    split; [exact Hmd|]. split; [exact Hom|]. split; [exact Hef|].
    split; [exact Hx|]. split; [discriminate|].
    split; [intros _; split; reflexivity|]. split; [reflexivity | exact Hidx].
  - destruct (Hcase p (SortStr p) (Hpol _ eq_refl))
      as (key & idx & Hk & -> & Hpm & Heq).
    cbv zeta in Heq. cbn [_svd_rank _exact _optargs _compression].
    rewrite Heq.
    cbn [prepend]. rewrite app_nil_r, Hidx.
    exists res, pcol. do 5 eexists.
    split; [exact Hrun|]. split; [reflexivity|].
    split; [exact Hperm|]. split; [exact Hpm|].
    split; [reflexivity|]. split; [reflexivity|].
    split; [now apply Hal|].
    split; [exact Hmd|]. split; [exact Hom|]. split; [exact Hef|].
    split; [exact Hx|]. split; [|split; [discriminate | split; [reflexivity | exact Hidx]]].
    intros q Hq. injection Hq as <-. eauto.
Qed.

End OperatorRuns.

(** ** [fit] and the accessors after it *)

Lemma optdmd_predict_ok B (phi : cmat) omegas eigenf time :
  ncols phi = length omegas -> length eigenf = length omegas ->
  exists r, optdmd_predict B phi omegas eigenf time = Ok r /\
            shaped (nrows phi) (length time) r.
Proof.
  intros Hphi Hb. unfold optdmd_predict.
  destruct (broadcast2_dims cmul
              (mat_map C0 (cexp B) (outer omegas (map c_of_float time)))
              (as_col eigenf) (length omegas) (length time))
    as (dyn & -> & Hd1 & Hd2 & _).
  - cbn. rewrite Hb. apply broadcast_dim_same.
  - cbn. rewrite length_map. apply broadcast_dim_one.
  - cbn [rbind]. destruct (dot_ok phi dyn) as (r & -> & Hr); [congruence|].
    exists r. split; [reflexivity|]. now rewrite <- Hd2.
Qed.

Lemma dynamics_ok B (self : VarProDMD) ev b t :
  _eigenvalues (_Atilde self) = Some ev -> _b self = Some b ->
  _original_time self = Some t -> length b = length ev ->
  exists r, dynamics B self = Ok r /\ shaped (length ev) (length t) r.
Proof.
  intros Hev Hb Ht Hl. unfold dynamics, eigs, amplitudes.
  rewrite Hev, Hb, Ht. cbn [attr rbind].
  apply broadcast2_dims.
  - cbn. rewrite Hl. apply broadcast_dim_same.
  - cbn. rewrite length_map. apply broadcast_one_dim.
Qed.

Section ModelRuns.
Variable B : Backend.
Hypothesis HB : BackendSpec B.

Lemma fit_ok (self : VarProDMD) (data : cmat) (time : vec float)
  (n m : nat) (kz ns : Z) :
  let A := _Atilde self in
  dims n m data -> length time = m -> 0 < n -> 0 < m ->
  __compute_rank (snd (fst (svd B data))) n m (_svd_rank A) None = Ok kz ->
  (PrimFloat.ltb F0 (_compression A) = true ->
   PrimFloat.ltb (_compression A) F1 = true /\
   int_of_float (float_of_nat m * (F1 - _compression A))%float = Ok ns) ->
  (forall p, effective_policy (_sorted_eigs A) = Some p ->
             supported_policy p = true) ->
  exists res pcol idx op b modes ev,
    let k := Z.to_nat kz in
    let p := if negb (_exact A) then k else n in
    let l := Nat.min k (Nat.min p (m - 1)) in
    let indices := fit_indices (_compression A) ns pcol m in
    let log := fit_log (PrimFloat.ltb F0 (_compression A))
                       (length indices <? l) in
    compute_varprodmd_any B (Array2 data) (Array1 time) (_optargs A)
      (_svd_rank A) (negb (_exact A)) (_compression A)
    = (log, Ok res) /\
    fit B self (Array2 data) (Array1 time)
    = (log, Ok (mkDMD op (Some (vp_opt res)) (Some (Array2 data))
                  (Some indices) (Some b) (Some time)
                  (Some (pick F0 time indices)))) /\
    Permutation pcol (seq 0 m) /\
    Permutation idx (seq 0 l) /\
    _modes op = Some modes /\ _eigenvalues op = Some ev /\
    aligned res idx modes ev b /\
    dims n l (vp_modes res) /\
    length (vp_omegas res) = l /\ length (vp_eigenf res) = l /\
    length (opt_x (vp_opt res)) = 2 * l.
Proof.
  intros A Hdims Htime Hn Hm Hrank Hcomp Hpol.
  destruct (compute_operator_ok B HB A data time n m kz ns
              Hdims Htime Hn Hm Hrank Hcomp Hpol)
    as (res & pcol & idx & op & b & modes & ev & Hrun & Hop & Hperm & Hpi &
        Hmo & Hev & Hal & Hmd & Hom & Hef & Hx & _).
  cbv zeta in *. exists res, pcol, idx, op, b, modes, ev.
  split; [exact Hrun|]. split.
  - unfold fit. fold A. rewrite (io_bind_ok _ _ _ _ Hop). io_step.
    rewrite take_at_ok
      by (rewrite Htime; now apply fit_indices_range).
    rewrite io_bind_lift. io_step. cbn [prepend io_ret Snapshots].
    now rewrite app_nil_r.
  - repeat (split; [assumption|]). assumption.
Qed.

End ModelRuns.

(** X1. With a sort policy among "auto", "real", "imag" and "abs", or a bool,
    [compute_operator] returns on data that can be fitted, logs nothing beyond
    the fit, and keeps every eigenvalue with its amplitude and its mode: the
    eigenvalues, the amplitudes and the columns of the modes are reordered by
    one permutation [idx] of the eigenvalue indices, which is the reversed
    [argsort] of the key of the policy. *)
Theorem sorting_keeps_modes_aligned (B : Backend) (HB : BackendSpec B)
  (self : VarProOperator) (data : cmat) (time : vec float)
  (n m : nat) (kz ns : Z)
  (Hdims : dims n m data) (Htime : length time = m)
  (Hn : 0 < n) (Hm : 0 < m)
  (Hrank : __compute_rank (snd (fst (svd B data))) n m (_svd_rank self) None
           = Ok kz)
  (Hcomp : PrimFloat.ltb F0 (_compression self) = true ->
           PrimFloat.ltb (_compression self) F1 = true /\
           int_of_float (float_of_nat m * (F1 - _compression self))%float
           = Ok ns)
  (Hpol : forall p, effective_policy (_sorted_eigs self) = Some p ->
                    supported_policy p = true) :
  exists log res idx op b modes ev,
    compute_varprodmd_any B (Array2 data) (Array1 time) (_optargs self)
      (_svd_rank self) (negb (_exact self)) (_compression self)
    = (log, Ok res) /\
    compute_operator B self (Array2 data) (Array1 time)
    = (log, Ok (op, (b, vp_opt res, vp_indices res))) /\
    Permutation idx (seq 0 (length (vp_omegas res))) /\
    _modes op = Some modes /\ _eigenvalues op = Some ev /\
    aligned res idx modes ev b /\
    (forall p, effective_policy (_sorted_eigs self) = Some p ->
       exists key, sort_key B p (vp_omegas res) = Ok key /\
                   idx = rev (argsort B key)).
Proof.
  destruct (compute_operator_ok B HB self data time n m kz ns
              Hdims Htime Hn Hm Hrank Hcomp Hpol)
    as (res & pcol & idx & op & b & modes & ev & Hrun & Hop & _ & Hpi &
        Hmo & Hev & Hal & _ & Hom & _ & _ & Hkey & _ & _ & Hidx).
  cbv zeta in *. eexists. exists res, idx, op, b, modes, ev.
  split; [exact Hrun|]. split; [now rewrite Hidx|].
  split; [now rewrite Hom|]. auto.
Qed.

Lemma sorting_keeps_modes_aligned_witness :
  exists log res idx op b modes ev,
    compute_varprodmd_any example_backend (Array2 example_data)
      (Array1 example_time) OPT_DEF_ARGS (PyInt 2) true 0%float
    = (log, Ok res) /\
    compute_operator example_backend (example_operator (SortStr "real"))
      (Array2 example_data) (Array1 example_time)
    = (log, Ok (op, (b, vp_opt res, vp_indices res))) /\
    Permutation idx (seq 0 (length (vp_omegas res))) /\
    _modes op = Some modes /\ _eigenvalues op = Some ev /\
    aligned res idx modes ev b /\
    (forall p, Some "real"%string = Some p ->
       exists key, sort_key example_backend p (vp_omegas res) = Ok key /\
                   idx = rev (argsort example_backend key)).
Proof.
  apply (sorting_keeps_modes_aligned example_backend example_backend_spec
           (example_operator (SortStr "real")) example_data example_time
           2 3 2%Z 0%Z).
  - split; reflexivity.
  - reflexivity.
  - lia.
  - lia.
  - vm_compute. reflexivity.
  - intros H. vm_compute in H. discriminate.
  - intros p H. injection H as <-. reflexivity.
Defined.

(** X2. The bool sort flags of [compute_operator]: [True] behaves on every
    input exactly as the policy "auto", and with [False] the operator stores
    the modes and the eigenvalues of the fit, and the amplitudes are returned,
    in the order of the fit. *)
Theorem bool_sort_flags (B : Backend) (svd_rank : pynum) (exact : bool)
  (compression : float) (optargs : optargs_t)
  (X : ndarray complex) (t : ndarray float) :
  compute_operator B
    (VarProOperator_init svd_rank exact (SortBool true) compression optargs)
    X t
  = compute_operator B
      (VarProOperator_init svd_rank exact (SortStr "auto") compression optargs)
      X t /\
  (forall log res,
     compute_varprodmd_any B X t optargs svd_rank (negb exact) compression
     = (log, Ok res) ->
     compute_operator B
       (VarProOperator_init svd_rank exact (SortBool false) compression
          optargs) X t
     = (log, Ok (mkOperator (SortBool false) svd_rank exact optargs
                   compression (Some (vp_modes res)) (Some (vp_omegas res)),
                 (vp_eigenf res, vp_opt res, vp_indices res)))).
Proof.
  split; [reflexivity|].
  intros log res H. unfold compute_operator, VarProOperator_init.
  cbn [_optargs _svd_rank _exact _compression _sorted_eigs].
  rewrite H. cbn [io_bind io_ret]. now rewrite app_nil_r.
Qed.

(** X3. After a [fit] on [n x m] data that can be fitted, with a supported
    sort policy, the model is fitted and its accessors return: with [l] the
    number of eigenvalues, the smallest of the rank, the number of rows of the
    array that is fitted and [m - 1], [forecast] at [T] times gives an
    [n x T] array, [dynamics] an [l x m] array, [frequency] and [growth_rate]
    [l] values each. *)
Theorem fit_then_predict (B : Backend) (HB : BackendSpec B)
  (self : VarProDMD) (data : cmat) (time : vec float)
  (n m : nat) (kz ns : Z)
  (Hdims : dims n m data) (Htime : length time = m)
  (Hn : 0 < n) (Hm : 0 < m)
  (Hrank : __compute_rank (snd (fst (svd B data))) n m
             (_svd_rank (_Atilde self)) None = Ok kz)
  (Hcomp : PrimFloat.ltb F0 (_compression (_Atilde self)) = true ->
           PrimFloat.ltb (_compression (_Atilde self)) F1 = true /\
           int_of_float
             (float_of_nat m * (F1 - _compression (_Atilde self)))%float
           = Ok ns)
  (Hpol : forall p,
      effective_policy (_sorted_eigs (_Atilde self)) = Some p ->
      supported_policy p = true) :
  let k := Z.to_nat kz in
  let p := if negb (_exact (_Atilde self)) then k else n in
  let l := Nat.min k (Nat.min p (m - 1)) in
  exists log dmd,
    fit B self (Array2 data) (Array1 time) = (log, Ok dmd) /\
    fitted dmd = true /\
    (forall t, exists r, forecast B dmd t = Ok r /\ shaped n (length t) r) /\
    (exists r, dynamics B dmd = Ok r /\ shaped l m r) /\
    (exists f, frequency dmd = Ok f /\ length f = l) /\
    (exists g, growth_rate dmd = Ok g /\ length g = l).
Proof.
  destruct (fit_ok B HB self data time n m kz ns
              Hdims Htime Hn Hm Hrank Hcomp Hpol)
    as (res & pcol & idx & op & b & modes & ev & _ & Hfit & _ & Hpi &
        Hmo & Hev & (-> & -> & (Hm1 & Hm2) & _) & (Hr1 & _) & _).
  cbv zeta in *.
  set (l := Nat.min (Z.to_nat kz) _) in *.
  assert (Hl : length idx = l)
    by (rewrite (Permutation_length Hpi); apply length_seq).
  eexists. eexists. split; [exact Hfit|].
  unfold fitted, forecast, fitted, frequency, growth_rate, eigs.
  cbn [_Atilde _b]. rewrite Hmo, Hev. cbn [negb attr rbind].
  split; [reflexivity|]. split; [|split; [|split]].
  - intros t.
    destruct (optdmd_predict_ok B modes (pick C0 (vp_omegas res) idx)
                (pick F0 (vp_eigenf res) idx) t) as (r & Hr & Hs).
    + now rewrite length_pick.
    + now rewrite !length_pick.
    + exists r. split; [exact Hr|]. now rewrite Hm1, Hr1 in Hs.
  - destruct (dynamics_ok B
                (mkDMD op (Some (vp_opt res)) (Some (Array2 data))
                   (Some (fit_indices (_compression (_Atilde self)) ns pcol m))
                   (Some (pick F0 (vp_eigenf res) idx)) (Some time)
                   (Some (pick F0 time
                            (fit_indices (_compression (_Atilde self)) ns
                               pcol m))))
                (pick C0 (vp_omegas res) idx) (pick F0 (vp_eigenf res) idx)
                time Hev eq_refl eq_refl) as (r & Hr & Hs).
    + now rewrite !length_pick.
    + exists r. split; [exact Hr|]. now rewrite length_pick, Hl, Htime in Hs.
  - eexists. split; [reflexivity|]. now rewrite length_map, length_pick.
  - eexists. split; [reflexivity|]. now rewrite length_map, length_pick.
Qed.

Lemma fit_then_predict_witness :
  exists log dmd,
    fit example_backend (example_model (SortStr "abs")) (Array2 example_data)
      (Array1 example_time) = (log, Ok dmd) /\
    fitted dmd = true /\
    (forall t, exists r,
        forecast example_backend dmd t = Ok r /\ shaped 2 (length t) r) /\
    (exists r, dynamics example_backend dmd = Ok r /\ shaped 2 3 r) /\
    (exists f, frequency dmd = Ok f /\ length f = 2) /\
    (exists g, growth_rate dmd = Ok g /\ length g = 2).
Proof.
  apply (fit_then_predict example_backend example_backend_spec
           (example_model (SortStr "abs")) example_data example_time
           2 3 2%Z 0%Z).
  - split; reflexivity.
  - reflexivity.
  - lia.
  - lia.
  - vm_compute. reflexivity.
  - intros H. vm_compute in H. discriminate.
  - intros p H. injection H as <-. reflexivity.
Defined.

(** X4. What [fit] records.  After a [fit] on data that can be fitted, the
    model holds the snapshots and the time vector as given, the sample indices
    that the fit has used, the times at these indices as the DMD time, and the
    result of the optimiser, with two real parameters for each eigenvalue;
    [selected_samples] and [opt_stats] hand out the indices and the result.
    Without compression the indices are those of all samples and the DMD time
    is the time vector. *)
Theorem fit_records_samples (B : Backend) (HB : BackendSpec B)
  (self : VarProDMD) (data : cmat) (time : vec float)
  (n m : nat) (kz ns : Z)
  (Hdims : dims n m data) (Htime : length time = m)
  (Hn : 0 < n) (Hm : 0 < m)
  (Hrank : __compute_rank (snd (fst (svd B data))) n m
             (_svd_rank (_Atilde self)) None = Ok kz)
  (Hcomp : PrimFloat.ltb F0 (_compression (_Atilde self)) = true ->
           PrimFloat.ltb (_compression (_Atilde self)) F1 = true /\
           int_of_float
             (float_of_nat m * (F1 - _compression (_Atilde self)))%float
           = Ok ns)
  (Hpol : forall p,
      effective_policy (_sorted_eigs (_Atilde self)) = Some p ->
      supported_policy p = true) :
  exists log dmd pcol opt ev,
    let indices := fit_indices (_compression (_Atilde self)) ns pcol m in
    fit B self (Array2 data) (Array1 time) = (log, Ok dmd) /\
    Permutation pcol (seq 0 m) /\
    selected_samples dmd = Ok (Some indices) /\
    opt_stats dmd = Ok (Some opt) /\
    eigs dmd = Some ev /\ length (opt_x opt) = 2 * length ev /\
    _snapshots_holder dmd = Some (Array2 data) /\
    _original_time dmd = Some time /\
    _dmd_time dmd = Some (pick F0 time indices) /\
    (PrimFloat.ltb F0 (_compression (_Atilde self)) = false ->
     indices = arange m /\ _dmd_time dmd = Some time).
Proof.
  destruct (fit_ok B HB self data time n m kz ns
              Hdims Htime Hn Hm Hrank Hcomp Hpol)
    as (res & pcol & idx & op & b & modes & ev & _ & Hfit & Hperm & Hpi &
        Hmo & Hev & (-> & _) & _ & _ & _ & Hx).
  cbv zeta in *. eexists. eexists. exists pcol, (vp_opt res). eexists.
  split; [exact Hfit|]. split; [exact Hperm|].
  unfold selected_samples, opt_stats, fitted, eigs.
  cbn [_Atilde _indices _optres _snapshots_holder _original_time _dmd_time].
  rewrite Hmo, Hev. cbn [negb].
  split; [reflexivity|]. split; [reflexivity|]. split; [reflexivity|].
  split.
  { rewrite length_pick, (Permutation_length Hpi), length_seq. exact Hx. }
  split; [reflexivity|]. split; [reflexivity|]. split; [reflexivity|].
  intros Hc. unfold fit_indices. rewrite Hc. split; [reflexivity|].
  unfold arange. now rewrite <- Htime, pick_seq.
Qed.

Lemma fit_records_samples_witness :
  exists log dmd pcol opt ev,
    let indices := fit_indices 0%float 0%Z pcol 3 in
    fit example_backend (example_model (SortBool false)) (Array2 example_data)
      (Array1 example_time) = (log, Ok dmd) /\
    Permutation pcol (seq 0 3) /\
    selected_samples dmd = Ok (Some indices) /\
    opt_stats dmd = Ok (Some opt) /\
    eigs dmd = Some ev /\ length (opt_x opt) = 2 * length ev /\
    _snapshots_holder dmd = Some (Array2 example_data) /\
    _original_time dmd = Some example_time /\
    _dmd_time dmd = Some (pick F0 example_time indices) /\
    (PrimFloat.ltb F0 0%float = false ->
     indices = arange 3 /\ _dmd_time dmd = Some example_time).
Proof.
  apply (fit_records_samples example_backend example_backend_spec
           (example_model (SortBool false)) example_data example_time
           2 3 2%Z 0%Z).
  - split; reflexivity.
  - reflexivity.
  - lia.
  - lia.
  - vm_compute. reflexivity.
  - intros H. vm_compute in H. discriminate.
  - intros p H. discriminate.
Defined.

(** ** The compression of [compute_varprodmd_any] *)

(** X5. The shapes that [compute_varprodmd_any] returns on an [n x m] array
    with [m] times.  With [k] the rank, [p] the number of rows of the array
    that is fitted ([k] with the projection, else [n]) and
    [l = min k (min p (m - 1))], it runs two SVDs and the eigenvalue solver,
    then the pivoted QR when the compression is positive, then the optimiser,
    and returns [l] eigenvalues, [l] amplitudes, [n x l] modes and [2 l]
    optimised parameters: there are never as many eigenvalues as samples. *)
Theorem fit_shape_contract (B : Backend) (HB : BackendSpec B)
  (data : cmat) (time : vec float) (optargs : optargs_t) (rank : pynum)
  (use_proj : bool) (c : float) (n m : nat) (kz ns : Z)
  (Hdims : dims n m data) (Htime : length time = m)
  (Hn : 0 < n) (Hm : 0 < m)
  (Hrank : __compute_rank (snd (fst (svd B data))) n m rank None = Ok kz)
  (Hcomp : PrimFloat.ltb F0 c = true ->
           PrimFloat.ltb c F1 = true /\
           int_of_float (float_of_nat m * (F1 - c))%float = Ok ns) :
  let k := Z.to_nat kz in
  let p := if use_proj then k else n in
  let l := Nat.min k (Nat.min p (m - 1)) in
  exists warned res,
    compute_varprodmd_any B (Array2 data) (Array1 time) optargs rank use_proj c
    = (fit_log (PrimFloat.ltb F0 c) warned, Ok res) /\
    length (vp_omegas res) = l /\ length (vp_eigenf res) = l /\
    dims n l (vp_modes res) /\ length (opt_x (vp_opt res)) = 2 * l /\
    l < m /\ Forall (fun i => i < m) (vp_indices res).
Proof.
  destruct (compute_varprodmd_any_ok B HB data time optargs rank use_proj c
              n m kz ns Hdims Htime Hn Hm Hrank Hcomp)
    as (res & pcol & Hrun & Hperm & Hidx & Hom & Hef & Hmd & Hx).
  cbv zeta in *. eexists. exists res. split; [exact Hrun|].
  split; [exact Hom|]. split; [exact Hef|]. split; [exact Hmd|].
  split; [exact Hx|]. split; [lia|].
  rewrite Hidx. now apply fit_indices_range.
Qed.

Lemma fit_shape_contract_witness :
  exists warned res,
    compute_varprodmd_any example_backend (Array2 example_data)
      (Array1 example_time) OPT_DEF_ARGS (PyInt 2) false 0.5%float
    = (fit_log (PrimFloat.ltb F0 0.5) warned, Ok res) /\
    length (vp_omegas res) = 2 /\ length (vp_eigenf res) = 2 /\
    dims 2 2 (vp_modes res) /\ length (opt_x (vp_opt res)) = 2 * 2 /\
    2 < 3 /\ Forall (fun i => i < 3) (vp_indices res).
Proof.
  apply (fit_shape_contract example_backend example_backend_spec
           example_data example_time OPT_DEF_ARGS (PyInt 2) false 0.5%float
           2 3 2%Z 1%Z).
  - split; reflexivity.
  - reflexivity.
  - lia.
  - lia.
  - vm_compute. reflexivity.
  - intros _. split; vm_compute; reflexivity.
Defined.

(** X6. A compression that is not positive (zero, a negative number, NaN)
    is taken as no compression: [compute_varprodmd_any] does not hand it to
    [select_best_samples_fast], which would reject it, runs no pivoted QR and
    fits all [m] samples. *)
Theorem nonpositive_compression_keeps_all_samples
  (B : Backend) (HB : BackendSpec B)
  (data : cmat) (time : vec float) (optargs : optargs_t) (rank : pynum)
  (use_proj : bool) (c : float) (n m : nat) (kz : Z)
  (Hdims : dims n m data) (Htime : length time = m)
  (Hn : 0 < n) (Hm : 0 < m)
  (Hrank : __compute_rank (snd (fst (svd B data))) n m rank None = Ok kz)
  (Hc : PrimFloat.ltb F0 c = false) :
  is_value_error (select_best_samples_fast B (Array2 data) c) = true /\
  exists log res,
    compute_varprodmd_any B (Array2 data) (Array1 time) optargs rank use_proj c
    = (log, Ok res) /\
    vp_indices res = arange m /\
    ~ In (NumericalWork "qr") log /\
    ~ In (Warning underdetermined_msg) log.
Proof.
  split.
  - unfold select_best_samples_fast. now rewrite Hc.
  - destruct (compute_varprodmd_any_ok B HB data time optargs rank use_proj c
                n m kz 0%Z Hdims Htime Hn Hm Hrank)
      as (res & pcol & Hrun & _ & Hidx & _); [congruence|].
    cbv zeta in *. unfold fit_indices in *. rewrite Hc in *.
    eexists. exists res. split; [exact Hrun|]. split; [exact Hidx|].
    unfold arange. rewrite length_seq.
    replace (m <? _) with false by (symmetry; apply Nat.ltb_ge; lia).
    split; intros H; cbn in H;
      repeat (destruct H as [H|H]; try discriminate); exact H.
Qed.

Lemma nonpositive_compression_keeps_all_samples_witness :
  is_value_error
    (select_best_samples_fast example_backend (Array2 example_data)
       (-0.5)%float) = true /\
  exists log res,
    compute_varprodmd_any example_backend (Array2 example_data)
      (Array1 example_time) OPT_DEF_ARGS (PyInt 2) true (-0.5)%float
    = (log, Ok res) /\
    vp_indices res = arange 3 /\
    ~ In (NumericalWork "qr") log /\
    ~ In (Warning underdetermined_msg) log.
Proof.
  apply (nonpositive_compression_keeps_all_samples example_backend
           example_backend_spec example_data example_time OPT_DEF_ARGS
           (PyInt 2) true (-0.5)%float 2 3 2%Z).
  - split; reflexivity.
  - reflexivity.
  - lia.
  - lia.
  - vm_compute. reflexivity.
  - vm_compute. reflexivity.
Defined.

(** X7. When the compression [c] in (0,1) leaves [int(m * (1.0 - c)) = 1]
    sample, [select_best_samples_fast] returns that one pivot, and a fit with
    this compression does not use it: as for an empty selection, the fit falls
    back to the indices [0 .. m-1] of all samples, and logs no warning. *)
Theorem single_sample_selection_falls_back (B : Backend) (HB : BackendSpec B)
  (data : cmat) (time : vec float) (optargs : optargs_t) (rank : pynum)
  (use_proj : bool) (c : float) (n m : nat) (kz : Z)
  (Hdims : dims n m data) (Htime : length time = m)
  (Hn : 0 < n) (Hm : 0 < m)
  (Hrank : __compute_rank (snd (fst (svd B data))) n m rank None = Ok kz)
  (Hc : PrimFloat.ltb F0 c && PrimFloat.ltb c F1 = true)
  (Hone : int_of_float (float_of_nat m * (F1 - c))%float = Ok 1%Z) :
  (exists i, select_best_samples_fast B (Array2 data) c = Ok [i] /\ i < m) /\
  exists res,
    compute_varprodmd_any B (Array2 data) (Array1 time) optargs rank use_proj c
    = (fit_log true false, Ok res) /\
    vp_indices res = arange m.
Proof.
  apply andb_prop in Hc. destruct Hc as (Hc0 & Hc1).
  assert (Hone_pivot : forall pcol, Permutation pcol (seq 0 m) ->
            exists i, py_take 1 pcol = [i] /\ i < m).
  { intros pcol Hp. pose proof (Permutation_length Hp) as Hl.
    rewrite length_seq in Hl.
    destruct pcol as [|i pcol]; [simpl in Hl; lia|].
    exists i. split; [reflexivity|].
    assert (Hi : In i (seq 0 m))
      by (apply (Permutation_in _ Hp); now left).
    apply in_seq in Hi. lia. }
  destruct Hdims as (Hd1 & Hd2). split.
  - unfold select_best_samples_fast. rewrite Hc0, Hc1, Hd2, Hone.
    cbn [negb andb rbind].
    destruct (Hone_pivot (qr_pivot B data)) as (i & -> & Hi);
      [rewrite <- Hd2; apply (qr_pivot_perm HB) | eauto].
  - destruct (compute_varprodmd_any_ok B HB data time optargs rank use_proj c
                n m kz 1%Z (conj Hd1 Hd2) Htime Hn Hm Hrank)
      as (res & pcol & Hrun & Hperm & Hidx & _); [now intros _|].
    cbv zeta in *. exists res.
    assert (Hfi : fit_indices c 1 pcol m = arange m).
    { unfold fit_indices. rewrite Hc0.
      destruct (Hone_pivot pcol Hperm) as (i & -> & _). reflexivity. }
    rewrite Hfi in *. split; [|exact Hidx].
    rewrite Hrun, Hc0. unfold arange. rewrite length_seq.
    replace (m <? _) with false; [reflexivity|].
    symmetry. apply Nat.ltb_ge. lia.
Qed.

Lemma single_sample_selection_falls_back_witness :
  (exists i,
      select_best_samples_fast example_backend (Array2 example_data) 0.5%float
      = Ok [i] /\ i < 3) /\
  exists res,
    compute_varprodmd_any example_backend (Array2 example_data)
      (Array1 example_time) OPT_DEF_ARGS (PyInt 2) true 0.5%float
    = (fit_log true false, Ok res) /\
    vp_indices res = arange 3.
Proof.
  apply (single_sample_selection_falls_back example_backend
           example_backend_spec example_data example_time OPT_DEF_ARGS
           (PyInt 2) true 0.5%float 2 3 2%Z).
  - split; reflexivity.
  - reflexivity.
  - lia.
  - lia.
  - vm_compute. reflexivity.
  - vm_compute. reflexivity.
  - vm_compute. reflexivity.
Defined.

Section CompressionRejected.
Variable B : Backend.
Hypothesis HB : BackendSpec B.

Lemma compute_varprodmd_any_bad_compression (data : cmat) (time : vec float)
  (optargs : optargs_t) (rank : pynum) (use_proj : bool) (c : float)
  (n m : nat) (kz : Z) :
  dims n m data -> length time = m -> 0 < n -> 0 < m ->
  __compute_rank (snd (fst (svd B data))) n m rank None = Ok kz ->
  PrimFloat.ltb F0 c = true -> PrimFloat.ltb c F1 = false ->
  compute_varprodmd_any B (Array2 data) (Array1 time) optargs rank use_proj c
  = ([NumericalWork "svd"; NumericalWork "svd"; NumericalWork "eigvals"],
     Raise (ValueError "Compression must be in (0, 1)]")).
Proof.
  intros (Hdn & Hdm) Ht Hn Hm Hrank Hc0 Hc1. unfold compute_varprodmd_any.
  pose proof (svd_shape HB data) as Hsvd.
  destruct (svd B data) as [[u s] vt] eqn:Esvd. cbn [fst snd] in Hrank.
  rewrite Hdn, Hdm in Hsvd. destruct Hsvd as (Hun & Hum & Hs & Hvn & Hvm).
  assert (Hkz : (1 <= kz <= Z.of_nat (length s))%Z).
  { apply compute_rank_range with (2 := Hrank).
    intros ->. simpl in Hs. lia. }
  set (k := Z.to_nat kz).
  assert (Hk : 1 <= k <= Nat.min n m) by (unfold k; lia).
  rewrite io_bind_call. io_step.
  rewrite Hdn, Hdm, Hrank, io_bind_lift. io_step.
  rewrite !py_stop_nat, py_take_nat by lia. fold k.
  rewrite Hum, Hvn.
  replace (Nat.min k (Nat.min n m)) with k by lia.
  set (u_r := take_cols C0 u k).
  set (s_r := firstn k s).
  set (v_r := conj_transpose (take_rows C0 vt k)).
  assert (Hur : dims n k u_r) by (unfold u_r, dims; cbn; lia).
  assert (Hsr : length s_r = k) by (unfold s_r; rewrite length_firstn; lia).
  assert (Hvr : dims m k v_r) by (unfold v_r, dims; cbn; lia).
  clearbody u_r s_r v_r. destruct Hvr as (Hvr1 & Hvr2).
  set (p := if use_proj then k else n).
  match goal with
  | |- context [io_bind (lift ?X) _] =>
      assert (Hdata_in : exists data_in, X = Ok data_in /\ dims p m data_in)
  end.
  { unfold p. destruct use_proj.
    - destruct (broadcast2_dims cmul (conj_transpose v_r) (as_col s_r) k m)
        as (d & Hd & H1 & H2 & _).
      + cbn. rewrite Hvr2, Hsr. apply broadcast_dim_same.
      + cbn. rewrite Hvr1. apply broadcast_dim_one.
      + exists d. split; [exact Hd | split; assumption].
    - exists data. split; [reflexivity | split; assumption]. }
  destruct Hdata_in as (data_in & -> & Hin1 & Hin2).
  rewrite io_bind_lift. io_step. rewrite Hin2.
  set (lo := slice_cols C0 data_in 0 (m - 1)).
  set (hi := slice_cols C0 data_in 1 m).
  assert (Hlo : dims p (m - 1) lo)
    by (unfold lo, dims; cbn; rewrite Hin1, Hin2; lia).
  assert (Hhi : dims p (m - 1) hi)
    by (unfold hi, dims; cbn; rewrite Hin1, Hin2; lia).
  clearbody lo hi. destruct Hlo as (Hlo1 & Hlo2). destruct Hhi as (Hhi1 & Hhi2).
  destruct (broadcast2_ok cadd lo hi p (m - 1)) as (mid & -> & Hmid1 & Hmid2 & _);
    try assumption; [left; assumption|].
  rewrite io_bind_lift. io_step.
  destruct (broadcast1_ok F0 F0 PrimFloat.sub (skipn 1 time)
              (firstn (length time - 1) time)) as (dt_in & -> & Hdt).
  { rewrite length_skipn, length_firstn. lia. }
  rewrite length_skipn, Ht in Hdt.
  rewrite io_bind_lift. io_step.
  destruct (broadcast2_ok csub hi lo p (m - 1)) as (diff & -> & Hdf1 & Hdf2 & _);
    try assumption; [left; assumption|].
  rewrite io_bind_lift. io_step.
  destruct (broadcast2_ok cdiv diff (as_row dt_in) p (m - 1))
    as (z_in & -> & Hz1 & Hz2 & _);
    try assumption; [right; reflexivity|].
  rewrite io_bind_lift. io_step.
  set (y_in := mat_map C0 (fun z => cdiv z (c_of_float F2)) mid).
  assert (Hy : dims p (m - 1) y_in) by (unfold y_in, dims; cbn; lia).
  clearbody y_in.
  destruct (compute_dmd_ev_ok B HB y_in z_in kz p (m - 1) Hy (conj Hz1 Hz2))
    as (omegas & Hev & Hl); [lia|].
  fold k in Hl. set (l := Nat.min k (Nat.min p (m - 1))) in *.
  rewrite (io_bind_ok _ _ _ _ Hev). io_step.
  rewrite pack_eigs_eq, io_bind_lift. io_step.
  set (omegas_in := map re omegas ++ map im omegas).
  assert (Hoin : length omegas_in = 2 * l).
  { unfold omegas_in. rewrite length_app, !length_map. lia. }
  clearbody omegas_in.
  rewrite Hc0. unfold select_best_samples_fast. rewrite Hc0, Hc1.
  cbn [negb andb]. reflexivity.
Qed.

End CompressionRejected.

(** X8. A compression of 1 or more (and the infinite one) is rejected only
    by [select_best_samples_fast], in the middle of the fit: on data that can
    be fitted, [compute_varprodmd_any] has run both SVDs and the eigenvalue
    solver when the invalid-argument error is raised, and [compute_operator]
    and [fit] raise the same error after the same work. *)
Theorem compression_rejected_after_initialisation
  (B : Backend) (HB : BackendSpec B)
  (self : VarProDMD) (data : cmat) (time : vec float) (n m : nat) (kz : Z)
  (Hdims : dims n m data) (Htime : length time = m)
  (Hn : 0 < n) (Hm : 0 < m)
  (Hrank : __compute_rank (snd (fst (svd B data))) n m
             (_svd_rank (_Atilde self)) None = Ok kz)
  (Hc0 : PrimFloat.ltb F0 (_compression (_Atilde self)) = true)
  (Hc1 : PrimFloat.ltb (_compression (_Atilde self)) F1 = false) :
  let log := [NumericalWork "svd"; NumericalWork "svd";
              NumericalWork "eigvals"] in
  let err := ValueError "Compression must be in (0, 1)]" in
  compute_varprodmd_any B (Array2 data) (Array1 time)
    (_optargs (_Atilde self)) (_svd_rank (_Atilde self))
    (negb (_exact (_Atilde self))) (_compression (_Atilde self))
  = (log, Raise err) /\
  compute_operator B (_Atilde self) (Array2 data) (Array1 time)
  = (log, Raise err) /\
  fit B self (Array2 data) (Array1 time) = (log, Raise err).
Proof.
  pose proof (compute_varprodmd_any_bad_compression B HB data time
                (_optargs (_Atilde self)) (_svd_rank (_Atilde self))
                (negb (_exact (_Atilde self))) (_compression (_Atilde self))
                n m kz Hdims Htime Hn Hm Hrank Hc0 Hc1) as Hrun.
  cbv zeta. split; [exact Hrun|].
  assert (Hop : compute_operator B (_Atilde self) (Array2 data) (Array1 time)
                = ([NumericalWork "svd"; NumericalWork "svd";
                    NumericalWork "eigvals"],
                   Raise (ValueError "Compression must be in (0, 1)]")))
    by (unfold compute_operator; now rewrite Hrun).
  split; [exact Hop|]. unfold fit. now rewrite Hop.
Qed.

Lemma compression_rejected_after_initialisation_witness :
  compute_varprodmd_any example_backend (Array2 example_data)
    (Array1 example_time) OPT_DEF_ARGS (PyInt 2) true 1%float
  = ([NumericalWork "svd"; NumericalWork "svd"; NumericalWork "eigvals"],
     Raise (ValueError "Compression must be in (0, 1)]")) /\
  compute_operator example_backend
    (VarProOperator_init (PyInt 2) false (SortBool false) 1%float OPT_DEF_ARGS)
    (Array2 example_data) (Array1 example_time)
  = ([NumericalWork "svd"; NumericalWork "svd"; NumericalWork "eigvals"],
     Raise (ValueError "Compression must be in (0, 1)]")) /\
  fit example_backend
    (VarProDMD_init (PyInt 2) false (SortBool false) 1%float None)
    (Array2 example_data) (Array1 example_time)
  = ([NumericalWork "svd"; NumericalWork "svd"; NumericalWork "eigvals"],
     Raise (ValueError "Compression must be in (0, 1)]")).
Proof.
  apply (compression_rejected_after_initialisation example_backend
           example_backend_spec
           (VarProDMD_init (PyInt 2) false (SortBool false) 1%float None)
           example_data example_time 2 3 2%Z).
  - split; reflexivity.
  - reflexivity.
  - lia.
  - lia.
  - vm_compute. reflexivity.
  - vm_compute. reflexivity.
  - vm_compute. reflexivity.
Defined.

(** X9. Arrays of the wrong dimension are rejected before any numerical
    work: data that is not 2-D, then a time that is not 1-D, make
    [compute_varprodmd_any], [compute_operator] and [fit] raise the
    invalid-argument error with an empty log, the data being checked first. *)
Theorem wrong_dimensions_fail_fast (B : Backend) (self : VarProDMD)
  (X : ndarray complex) (t : ndarray float) :
  let A := _Atilde self in
  let run :=
    compute_varprodmd_any B X t (_optargs A) (_svd_rank A) (negb (_exact A))
      (_compression A) in
  (ndim X <> 2 ->
   let err := ValueError "data needs to be 2D array" in
   run = ([], Raise err) /\
   compute_operator B A X t = ([], Raise err) /\
   fit B self X t = ([], Raise err)) /\
  (forall data, X = Array2 data -> ndim t <> 1 ->
   let err := ValueError "time needs to be a 1D array" in
   run = ([], Raise err) /\
   compute_operator B A X t = ([], Raise err) /\
   fit B self X t = ([], Raise err)).
Proof.
  cbv zeta. split.
  - intros HX.
    assert (Hrun : forall o r e c,
              compute_varprodmd_any B X t o r e c
              = ([], Raise (ValueError "data needs to be 2D array"))).
    { intros. destruct X as [v|a|sh]; [|now contradiction HX|];
        destruct t; reflexivity. }
    split; [apply Hrun|].
    unfold fit, compute_operator. rewrite !Hrun. split; reflexivity.
  - intros data -> Ht.
    assert (Hrun : forall o r e c,
              compute_varprodmd_any B (Array2 data) t o r e c
              = ([], Raise (ValueError "time needs to be a 1D array"))).
    { intros. destruct t as [v|a|sh]; [now contradiction Ht| |]; reflexivity. }
    split; [apply Hrun|].
    unfold fit, compute_operator. rewrite !Hrun. split; reflexivity.
Qed.

(** ** The residual vector *)

Lemma broadcast_to_longer {A} (n : nat) (src : vec A) :
  length src = S n -> 0 < n ->
  broadcast_to n src = Raise (ValueError "could not broadcast input array").
Proof.
  intros H Hn. unfold broadcast_to.
  destruct (length src =? n) eqn:E; [apply Nat.eqb_eq in E; lia|].
  destruct src as [|x [|y src]]; simpl in H; try reflexivity. lia.
Qed.

Lemma unpack_eigs_odd alphas :
  Nat.odd (length alphas) = true -> 3 <= length alphas ->
  unpack_eigs alphas = Raise (ValueError "could not broadcast input array").
Proof.
  intros Hodd Hlen. unfold unpack_eigs.
  set (l := length alphas / 2).
  assert (Hl : length alphas = 2 * l + 1).
  { unfold l. rewrite (Nat.div_mod_eq (length alphas) 2) at 1.
    rewrite <- Nat.bit0_mod, Nat.bit0_odd, Hodd. reflexivity. }
  destruct (set_real_ok (repeat C0 l) (firstn l alphas)) as (z & -> & Hz).
  { rewrite length_firstn, repeat_length. lia. }
  cbn [rbind]. unfold set_imag. rewrite Hz, repeat_length.
  rewrite broadcast_to_longer; [reflexivity | rewrite length_skipn | ]; lia.
Qed.

(** X10. A parameter vector of odd length, three entries or more, cannot be
    split into real and imaginary parts of equal length: the residual and the
    Jacobian both raise NumPy's broadcast error on it, before any numerical
    work. *)
Theorem odd_parameter_vector_rejected (B : Backend)
  (alphas time : vec float) (data : cmat) (h : OptimizeHelper)
  (Hodd : Nat.odd (length alphas) = true) (Hlen : 3 <= length alphas) :
  let err := ValueError "could not broadcast input array" in
  unpack_eigs alphas = Raise err /\
  __compute_dmd_rho B alphas time data h = Raise err /\
  __compute_dmd_jac alphas time data h = Raise err.
Proof.
  pose proof (unpack_eigs_odd alphas Hodd Hlen) as H. cbv zeta.
  split; [exact H|]. unfold __compute_dmd_rho, __compute_dmd_jac.
  rewrite H. split; reflexivity.
Qed.

Lemma odd_parameter_vector_rejected_witness :
  unpack_eigs [1; 2; 3]%float
  = Raise (ValueError "could not broadcast input array") /\
  __compute_dmd_rho example_backend [1; 2; 3]%float example_time
    (transpose C0 example_data) (OptimizeHelper_init 1 3 2)
  = Raise (ValueError "could not broadcast input array") /\
  __compute_dmd_jac [1; 2; 3]%float example_time
    (transpose C0 example_data) (OptimizeHelper_init 1 3 2)
  = Raise (ValueError "could not broadcast input array").
Proof.
  apply (odd_parameter_vector_rejected example_backend [1; 2; 3]%float
           example_time (transpose C0 example_data)
           (OptimizeHelper_init 1 3 2)).
  - reflexivity.
  - simpl. lia.
Defined.

Lemma compute_dmd_rho_layout B alphas time data h0 rho_out h :
  __compute_dmd_rho B alphas time data h0 = Ok (rho_out, h) ->
  rho_out = map re (ravel (rho h)) ++ map im (ravel (rho h)).
Proof.
  unfold __compute_dmd_rho. intros H.
  destruct (unpack_eigs alphas) as [z|]; cbn [rbind] in H; [|discriminate].
  destruct (svd B _) as [[u s] vt].
  destruct (take_at _ _ _) as [recip|]; cbn [rbind] in H; [|discriminate].
  destruct (scatter _ _ _) as [sinv|]; cbn [rbind] in H; [|discriminate].
  destruct (multi_dot3 u _ data) as [proj|]; cbn [rbind] in H; [|discriminate].
  destruct (broadcast2 csub data proj) as [rho1|]; cbn [rbind] in H;
    [|discriminate].
  rewrite set_halves in H by apply length_map.
  destruct (broadcast2 cmul _ _) as [vs|]; cbn [rbind] in H; [|discriminate].
  destruct (multi_dot3 vs _ data) as [bm|]; cbn [rbind] in H; [|discriminate].
  injection H as <- <-. reflexivity.
Qed.

(** X11. The real residual vector is the real parts of the flattened
    residual matrix followed by its imaginary parts, which is the layout that
    [ssr] undoes: on the vector that the residual function returns, [ssr]
    recovers the complex residuals that the function has cached, and returns
    their Euclidean norm divided by the square root of the degrees of
    freedom, which are at least 1. *)
Theorem ssr_reads_residual_layout (B : Backend) (HB : BackendSpec B)
  (alphas time : vec float) (data : cmat) (h0 : OptimizeHelper) (l m n : nat)
  (Ha : length alphas = 2 * l) (Ht : length time = m)
  (Hrows : nrows data = m) (Hcols : ncols data = n) :
  exists rho_out h,
    __compute_dmd_rho B alphas time data h0 = Ok (rho_out, h) /\
    let flat := ravel (rho h) in
    rho_out = map re flat ++ map im flat /\
    unpack_eigs rho_out = Ok flat /\
    forall (dmd : VarProDMD) opt t,
      fitted dmd = true -> _optres dmd = Some opt ->
      opt_fun opt = rho_out -> _original_time dmd = Some t ->
      exists dof,
        (1 <= dof)%Z /\
        ssr dmd
        = Ok (PrimFloat.sqrt
                (np_sum (map (fun z => re z * re z) flat)
                 + np_sum (map (fun z => im z * im z) flat))
              / PrimFloat.sqrt (float_of_Z dof))%float.
Proof.
  destruct (compute_dmd_rho_ok B HB alphas time data h0 l m n Ha Ht Hrows Hcols)
    as (rho_out & h & Hrho & _).
  exists rho_out, h. split; [exact Hrho|]. cbv zeta.
  pose proof (compute_dmd_rho_layout _ _ _ _ _ _ _ Hrho) as Hlay.
  assert (Hun : unpack_eigs rho_out = Ok (ravel (rho h))).
  { rewrite Hlay, unpack_eigs_app by now rewrite !length_map.
    apply f_equal, zip_re_im. }
  split; [exact Hlay|]. split; [exact Hun|].
  intros dmd opt t Hf Hopt Hfun Ht0. unfold ssr.
  rewrite Hf, Hopt, Ht0. cbn [negb attr rbind]. rewrite Hfun, Hun.
  cbn [rbind]. eexists. split; [|reflexivity]. lia.
Qed.

Lemma ssr_reads_residual_layout_witness :
  exists rho_out h,
    __compute_dmd_rho example_backend [0; 0]%float [0; 1]%float
      (build 2 1 (fun i _ => mkC (float_of_nat i) F1))
      (OptimizeHelper_init 1 2 1)
    = Ok (rho_out, h) /\
    let flat := ravel (rho h) in
    rho_out = map re flat ++ map im flat /\
    unpack_eigs rho_out = Ok flat /\
    forall (dmd : VarProDMD) opt t,
      fitted dmd = true -> _optres dmd = Some opt ->
      opt_fun opt = rho_out -> _original_time dmd = Some t ->
      exists dof,
        (1 <= dof)%Z /\
        ssr dmd
        = Ok (PrimFloat.sqrt
                (np_sum (map (fun z => re z * re z) flat)
                 + np_sum (map (fun z => im z * im z) flat))
              / PrimFloat.sqrt (float_of_Z dof))%float.
Proof.
  apply (ssr_reads_residual_layout example_backend example_backend_spec
           [0; 0]%float [0; 1]%float
           (build 2 1 (fun i _ => mkC (float_of_nat i) F1))
           (OptimizeHelper_init 1 2 1) 1 2 1);
    reflexivity.
Defined.


(** ** The number of samples that a compression keeps

    [int(m * (1.0 - c))] lies between 0 and [m]: the three roundings (of [m],
    of the difference and of the product) never take the value above [m]. *)

Section FloatBounds.
Local Open Scope Z_scope.

Lemma val_le_all m e b k :
  val_le m e b -> 0 <= k -> 0 <= e + k -> m * 2 ^ (e + k) <= b * 2 ^ k.
Proof.
  intros (k0 & Hk0 & Hek0 & H) Hk Hek.
  assert (H0 : 0 < 2 ^ k0) by (apply Z.pow_pos_nonneg; lia).
  assert (H1 : 0 < 2 ^ k) by (apply Z.pow_pos_nonneg; lia).
  assert (E1 : 2 ^ (e + k) * 2 ^ k0 = 2 ^ (e + k0) * 2 ^ k).
  { rewrite <- !Z.pow_add_r by lia. f_equal. lia. }
  apply Z.mul_le_mono_pos_r with (p := 2 ^ k0); [exact H0|].
  replace (m * 2 ^ (e + k) * 2 ^ k0) with (m * 2 ^ (e + k0) * 2 ^ k)
    by (rewrite <- !Z.mul_assoc; f_equal; lia).
  replace (b * 2 ^ k * 2 ^ k0) with (b * 2 ^ k0 * 2 ^ k) by ring.
  apply Z.mul_le_mono_nonneg_r; lia.
Qed.

Lemma val_le_mul m1 e1 b1 m2 e2 b2 :
  0 <= m1 -> 0 <= m2 -> 0 <= b1 ->
  val_le m1 e1 b1 -> val_le m2 e2 b2 -> val_le (m1 * m2) (e1 + e2) (b1 * b2).
Proof.
  intros Hm1 Hm2 Hb1 (k1 & Hk1 & He1 & H1) (k2 & Hk2 & He2 & H2).
  exists (k1 + k2). split; [lia|]. split; [lia|].
  replace (e1 + e2 + (k1 + k2)) with ((e1 + k1) + (e2 + k2)) by lia.
  rewrite !Z.pow_add_r by lia.
  assert (0 <= 2 ^ (e1 + k1)) by (apply Z.pow_nonneg; lia).
  assert (0 <= 2 ^ (e2 + k2)) by (apply Z.pow_nonneg; lia).
  assert (0 <= 2 ^ k1) by (apply Z.pow_nonneg; lia).
  assert (Hp : 0 <= m1 * 2 ^ (e1 + k1)) by (apply Z.mul_nonneg_nonneg; lia).
  assert (Hq : 0 <= m2 * 2 ^ (e2 + k2)) by (apply Z.mul_nonneg_nonneg; lia).
  pose proof (Z.mul_le_mono_nonneg _ _ _ _ Hp H1 Hq H2) as Hmul.
  rewrite (Z.pow_add_r 2 k1 k2) by lia. lia.
Qed.

(** truncation of a value below an integer *)
Lemma shiftl_val_le m e b :
  0 <= m -> val_le m e b -> 0 <= Z.shiftl m e <= b.
Proof.
  intros Hm H. split; [apply Z.shiftl_nonneg; exact Hm|].
  destruct (Z.le_gt_cases 0 e) as [He|He].
  - rewrite Z.shiftl_mul_pow2 by exact He.
    pose proof (val_le_all m e b 0 H). rewrite Z.add_0_r in *.
    simpl in *. lia.
  - rewrite Z.shiftl_div_pow2 by lia.
    pose proof (val_le_all m e b (- e) H) as H1.
    replace (e + - e) with 0 in H1 by lia. simpl in H1.
    apply Z.div_le_upper_bound; [apply Z.pow_pos_nonneg; lia | lia].
Qed.

(** ** Right shifts of the rounding *)

Lemma shr_1_inv x : shr_inv 1 x (shr_1 x).
Proof.
  destruct x as [m r s]. unfold shr_inv. simpl shr_m. intros Hm.
  change (2 ^ 1) with 2.
  destruct m as [|[p|p|]|p]; simpl; try lia.
  - split; [reflexivity|]. intros -> ->. auto.
  - split; [rewrite Pos2Z.inj_xI; apply Z.div_unique with 1; lia|].
    intros _ _ H. rewrite Pos2Z.inj_xI in H.
    rewrite Z.add_comm, Z.mul_comm, Z.mod_add in H by lia. discriminate.
  - split; [rewrite Pos2Z.inj_xO; apply Z.div_unique with 0; lia|].
    intros -> -> _. auto.
  - split; [reflexivity|]. intros _ _ H. discriminate.
Qed.

Lemma shr_inv_comp n1 n2 x y z :
  0 <= n1 -> 0 <= n2 ->
  shr_inv n1 x y -> shr_inv n2 y z -> shr_inv (n1 + n2) x z.
Proof.
  intros Hn1 Hn2 Hxy Hyz Hx.
  destruct (Hxy Hx) as (Hy & Hexy).
  assert (H1 : 0 < 2 ^ n1) by (apply Z.pow_pos_nonneg; lia).
  assert (H2 : 0 < 2 ^ n2) by (apply Z.pow_pos_nonneg; lia).
  assert (Hy0 : 0 <= shr_m y) by (rewrite Hy; apply Z.div_pos; lia).
  destruct (Hyz Hy0) as (Hz & Heyz).
  rewrite Z.pow_add_r by lia. split.
  - rewrite Hz, Hy. apply Z.div_div; lia.
  - intros Hr Hs Hmod.
    apply Z.mod_divide in Hmod; [|lia]. destruct Hmod as (q & Hq).
    assert (Hm1 : shr_m x mod 2 ^ n1 = 0).
    { apply Z.mod_divide; [lia|]. exists (q * 2 ^ n2). lia. }
    destruct (Hexy Hr Hs Hm1) as (Hry & Hsy).
    apply Heyz; try assumption.
    rewrite Hy. apply Z.mod_divide; [lia|]. exists q.
    replace (shr_m x) with (q * 2 ^ n2 * 2 ^ n1) by lia.
    now rewrite Z.div_mul by lia.
Qed.

Lemma iter_pos_shr p : forall x, shr_inv (Zpos p) x (iter_pos shr_1 p x).
Proof.
  induction p as [p IH|p IH|]; intros x; simpl.
  - replace (Zpos p~1) with (1 + (Zpos p + Zpos p)) by lia.
    apply shr_inv_comp with (y := shr_1 x); try lia; [apply shr_1_inv|].
    apply shr_inv_comp with (y := iter_pos shr_1 p (shr_1 x)); try lia;
      apply IH.
  - replace (Zpos p~0) with (Zpos p + Zpos p) by lia.
    apply shr_inv_comp with (y := iter_pos shr_1 p x); try lia; apply IH.
  - apply shr_1_inv.
Qed.

Lemma round_nearest_even_le m l : round_nearest_even m l <= m + 1.
Proof.
  destruct l as [|[| |]]; simpl; try lia. destruct (Z.even m); lia.
Qed.

Lemma round_nearest_even_ge m l : m <= round_nearest_even m l.
Proof.
  destruct l as [|[| |]]; simpl; try lia. destruct (Z.even m); lia.
Qed.

(** ** Digits *)

Lemma digits_lower p : 2 ^ (Zpos (digits2_pos p) - 1) <= Zpos p.
Proof.
  rewrite digits2_pos_size.
  pose proof (Pos.size_le p) as H.
  assert (H2 : 2 ^ Zpos (Pos.size p) <= 2 * Zpos p).
  { change 2 with (Zpos 2) at 1. rewrite <- Pos2Z.inj_pow. lia. }
  replace (Zpos (Pos.size p)) with (Zpos (Pos.size p) - 1 + 1) in H2 by lia.
  rewrite Z.pow_add_r in H2 by lia. lia.
Qed.

Lemma digits_upper p : Zpos p < 2 ^ Zpos (digits2_pos p).
Proof.
  rewrite digits2_pos_size. pose proof (Pos.size_gt p) as H.
  change 2 with (Zpos 2). rewrite <- Pos2Z.inj_pow. lia.
Qed.

(** a value below [2^j] has at most [j - e] digits *)
Lemma digits_val_le p e b j :
  0 <= b < 2 ^ j -> 0 <= j -> val_le (Zpos p) e b ->
  Zpos (digits2_pos p) + e <= j.
Proof.
  intros Hb Hj H.
  set (k := Z.max (- e) 0).
  pose proof (val_le_all _ _ _ k H ltac:(lia) ltac:(lia)) as Hk.
  pose proof (digits_lower p) as Hd.
  set (d := Zpos (digits2_pos p)) in *.
  assert (H2k : 0 < 2 ^ k) by (apply Z.pow_pos_nonneg; lia).
  assert (H2e : 0 < 2 ^ (e + k)) by (apply Z.pow_pos_nonneg; lia).
  assert (Hlt : 2 ^ (d - 1 + (e + k)) < 2 ^ (j + k)).
  { rewrite (Z.pow_add_r 2 (d - 1) (e + k)), (Z.pow_add_r 2 j k) by lia.
    apply Z.le_lt_trans with (Zpos p * 2 ^ (e + k)).
    - apply Z.mul_le_mono_nonneg_r; lia.
    - apply Z.le_lt_trans with (b * 2 ^ k); [exact Hk|].
      apply Z.mul_lt_mono_pos_r; lia. }
  apply Z.pow_lt_mono_r_iff in Hlt; lia.
Qed.

(** ** Rounding a value that an integer below [2^53] bounds *)

Lemma val_le_shr m e b q :
  0 <= m -> 0 <= q -> val_le m e b -> val_le (m / 2 ^ q) (e + q) b.
Proof.
  intros Hm Hq (k & Hk & Hek & H). exists k.
  split; [lia|]. split; [lia|].
  assert (H2q : 0 < 2 ^ q) by (apply Z.pow_pos_nonneg; lia).
  assert (H2e : 0 <= 2 ^ (e + k)) by (apply Z.pow_nonneg; lia).
  replace (e + q + k) with (q + (e + k)) by lia.
  rewrite Z.pow_add_r by lia.
  pose proof (Z.mul_div_le m (2 ^ q) H2q) as Hdiv.
  apply Z.le_trans with (m * 2 ^ (e + k)); [|exact H].
  rewrite Z.mul_assoc. apply Z.mul_le_mono_nonneg_r; lia.
Qed.

Lemma fexp_bounds e :
  fexp prec emax e = Z.max (e - 53) (-1074).
Proof. reflexivity. Qed.

Lemma final_stage m2 e b :
  0 <= m2 -> 0 <= b < 2 ^ 53 -> val_le m2 e b ->
  rounded_le
    (let '(mrs, e') := shr_fexp prec emax m2 e loc_Exact in
     match shr_m mrs with
     | Z0 => S754_zero false
     | Zpos m =>
         if e' <=? emax - prec then S754_finite false m e'
         else S754_infinity false
     | Zneg _ => S754_nan
     end) b.
Proof.
  intros Hm Hb Hv. unfold shr_fexp, shr. cbn [shr_record_of_loc].
  destruct m2 as [|p2|p2]; [| |lia].
  - (* zero *)
    destruct (_ - e) as [|q|q]; cbn [shr_m]; try exact I.
    destruct (iter_pos_shr q (Build_shr_record 0 false false)) as (H & _);
      [simpl; lia|].
    cbn [shr_m] in H. rewrite Z.div_0_l in H by (apply Z.pow_nonzero; lia).
    rewrite H. exact I.
  - pose proof (digits_val_le p2 e b 53 Hb ltac:(lia) Hv) as Hd.
    cbn [Zdigits2]. rewrite fexp_bounds.
    destruct (Z.max (Zpos (digits2_pos p2) + e - 53) (-1074) - e)
      as [|q|q] eqn:En; cbn [shr_m].
    + replace (e <=? emax - prec) with true
        by (symmetry; apply Z.leb_le; unfold emax, prec; lia).
      exact Hv.
    + destruct (iter_pos_shr q (Build_shr_record (Zpos p2) false false))
        as (H & _); [simpl; lia|].
      cbn [shr_m] in H. rewrite H.
      pose proof (val_le_shr (Zpos p2) e b (Zpos q) ltac:(lia) ltac:(lia) Hv)
        as Hv'.
      destruct (Zpos p2 / 2 ^ Zpos q) as [|m|m] eqn:Em; [exact I| |].
      * replace (e + Zpos q <=? emax - prec) with true
          by (symmetry; apply Z.leb_le; unfold emax, prec; lia).
        exact Hv'.
      * assert (0 <= Zpos p2 / 2 ^ Zpos q)
          by (apply Z.div_pos; [lia | apply Z.pow_pos_nonneg; lia]).
        lia.
    + replace (e <=? emax - prec) with true
        by (symmetry; apply Z.leb_le; unfold emax, prec; lia).
      exact Hv.
Qed.

Lemma binary_round_aux_le (pz : positive) (ez b : Z) :
  0 <= b < 2 ^ 53 -> val_le (Zpos pz) ez b ->
  rounded_le (binary_round_aux prec emax false (Zpos pz) ez loc_Exact) b.
Proof.
  intros Hb Hv.
  pose proof (digits_val_le pz ez b 53 Hb ltac:(lia) Hv) as Hd.
  unfold binary_round_aux.
  assert (Hfirst : exists m2 e',
    (let '(mrs', e') := shr_fexp prec emax (Zpos pz) ez loc_Exact in
     (round_nearest_even (shr_m mrs') (loc_of_shr_record mrs'), e'))
    = (m2, e') /\ 0 <= m2 /\ val_le m2 e' b).
  { unfold shr_fexp, shr. cbn [shr_record_of_loc Zdigits2].
    rewrite fexp_bounds.
    destruct (Z.max (Zpos (digits2_pos pz) + ez - 53) (-1074) - ez)
      as [|p|p] eqn:En.
    - eexists. eexists. split; [reflexivity|]. cbn. split; [lia | exact Hv].
    - set (e1 := Z.max (Zpos (digits2_pos pz) + ez - 53) (-1074)) in *.
      assert (He1 : e1 <= 0) by lia.
      destruct (iter_pos_shr p (Build_shr_record (Zpos pz) false false))
        as (Hm1 & Hex); [simpl; lia|].
      cbn [shr_m shr_r shr_s] in Hm1, Hex.
      set (mrs := iter_pos shr_1 p _) in *.
      eexists. eexists. split; [reflexivity|].
      assert (H2p : 0 < 2 ^ Zpos p) by (apply Z.pow_pos_nonneg; lia).
      assert (Hm1pos : 0 <= shr_m mrs)
        by (rewrite Hm1; apply Z.div_pos; lia).
      split; [pose proof (round_nearest_even_ge (shr_m mrs)
                            (loc_of_shr_record mrs)); lia|].
      set (T := b * 2 ^ (- e1)).
      assert (HT : Zpos pz <= T * 2 ^ Zpos p).
      { pose proof (val_le_all _ _ _ (- ez) Hv ltac:(lia) ltac:(lia)) as H.
        replace (ez + - ez) with 0 in H by lia. simpl in H.
        unfold T. rewrite <- Z.mul_assoc, <- Z.pow_add_r by lia.
        replace (- e1 + Zpos p) with (- ez) by lia. lia. }
      assert (Hle : shr_m mrs <= T).
      { rewrite Hm1. apply Z.div_le_upper_bound; lia. }
      exists (- e1). split; [lia|]. split; [lia|].
      replace (ez + Zpos p + - e1) with 0 by lia.
      fold T. rewrite Z.mul_1_r.
      destruct (Z.eq_dec (shr_m mrs) T) as [Heq|Hne].
      + assert (Hexact : Zpos pz mod 2 ^ Zpos p = 0).
        { pose proof (Z.mul_div_le (Zpos pz) (2 ^ Zpos p) H2p) as Hfl.
          rewrite <- Hm1, Heq in Hfl.
          assert (Zpos pz = T * 2 ^ Zpos p) by lia.
          apply Z.mod_divide; [lia|]. now exists T. }
        destruct (Hex eq_refl eq_refl Hexact) as (Hr & Hs).
        destruct mrs as [mm rr ss]. simpl in *. subst rr ss. simpl. lia.
      + pose proof (round_nearest_even_le (shr_m mrs) (loc_of_shr_record mrs)).
        lia.
    - eexists. eexists. split; [reflexivity|]. cbn. split; [lia | exact Hv]. }
  destruct Hfirst as (m2 & e' & Heq & Hm2 & Hv2).
  destruct (shr_fexp prec emax (Zpos pz) ez loc_Exact) as [mrs' e0].
  injection Heq as -> ->.
  apply final_stage; assumption.
Qed.

(** ** Left alignment *)

Lemma iter_xO_val (m : positive) (d : positive) :
  Zpos (Pos.iter xO m d) = Zpos m * 2 ^ Zpos d.
Proof.
  induction d as [|d IH] using Pos.peano_ind.
  - simpl. rewrite Pos2Z.inj_xO. lia.
  - rewrite Pos.iter_succ, Pos2Z.inj_xO, IH, Pos2Z.inj_succ.
    rewrite Z.pow_succ_r by lia. lia.
Qed.

Lemma iter_xO_digits (m : positive) (d : positive) :
  Zpos (digits2_pos (Pos.iter xO m d)) = Zpos (digits2_pos m) + Zpos d.
Proof.
  induction d as [|d IH] using Pos.peano_ind.
  - simpl. lia.
  - rewrite Pos.iter_succ. simpl digits2_pos. rewrite Pos2Z.inj_succ, IH. lia.
Qed.

Lemma shl_align_val mx ex ex' :
  ex' <= ex ->
  shl_align mx ex ex' = (Z.to_pos (Zpos mx * 2 ^ (ex - ex')), ex').
Proof.
  intros H. unfold shl_align.
  destruct (ex' - ex) as [|d|d] eqn:E; try lia.
  - assert (ex' = ex) by lia. subst. rewrite Z.sub_diag. simpl.
    now rewrite Pos.mul_1_r.
  - replace (ex - ex') with (Zpos d) by lia.
    rewrite <- iter_xO_val. reflexivity.
Qed.

Lemma val_le_shl_align mx ex ex' b :
  val_le (Zpos mx) ex b ->
  val_le (Zpos (fst (shl_align mx ex ex'))) (snd (shl_align mx ex ex')) b.
Proof.
  intros Hv. unfold shl_align.
  destruct (ex' - ex) as [|d|d] eqn:E; try exact Hv.
  cbn [fst snd]. rewrite iter_xO_val.
  destruct Hv as (k & Hk & Hek & H). exists (k + Zpos d).
  split; [lia|]. split; [lia|].
  replace (ex' + (k + Zpos d)) with (ex + k) by lia.
  rewrite (Z.pow_add_r 2 k) by lia.
  assert (0 < 2 ^ Zpos d) by (apply Z.pow_pos_nonneg; lia).
  assert (0 <= 2 ^ (ex + k)) by (apply Z.pow_nonneg; lia).
  nia.
Qed.

Lemma binary_round_le (p : positive) (e b : Z) :
  0 <= b < 2 ^ 53 -> val_le (Zpos p) e b ->
  rounded_le (binary_round prec emax false p e) b.
Proof.
  intros Hb Hv. unfold binary_round.
  pose proof (val_le_shl_align p e
                (fexp prec emax (Zpos (digits2_pos p) + e)) b Hv) as H.
  destruct (shl_align p e _) as [mz ez]. cbn [fst snd] in H.
  now apply binary_round_aux_le.
Qed.

(** ** [1.0 - c] for [0 < c < 1] *)

Lemma Prim2SF_one : Prim2SF 1 = S754_finite false 4503599627370496 (-52).
Proof. reflexivity. Qed.

Lemma Prim2SF_zero : Prim2SF 0 = S754_zero false.
Proof. reflexivity. Qed.

Lemma one_minus_le_one (c : float) :
  PrimFloat.ltb 0 c = true -> PrimFloat.ltb c 1 = true ->
  rounded_le (Prim2SF (1 - c)) 1.
Proof.
  rewrite !ltb_spec.
  rewrite sub_spec.
  rewrite Prim2SF_one, Prim2SF_zero.
  pose proof (Prim2SF_valid c) as Hvalid.
  unfold SFltb, SFcompare.
  destruct (Prim2SF c) as [s|s| |s mc ec]; try discriminate;
    try (destruct s; discriminate).
  destruct s; [discriminate|]. intros _ Hlt.
  assert (Hec : ec <= -52).
  { destruct (Z.compare_spec ec (-52)); try discriminate; lia. }
  assert (Hmc : Zpos mc < 2 ^ (- ec)).
  { destruct (Z.eq_dec ec (-52)) as [->|Hne].
    - rewrite Z.compare_refl in Hlt.
      pose proof (Pos.compare_spec mc 4503599627370496) as Hs.
      unfold Pos.compare in Hs.
      destruct Hs as [Hs|Hs|Hs]; try discriminate.
      change (2 ^ (- -52)) with 4503599627370496. exact Hs.
    - unfold SpecFloat.valid_binary, bounded, canonical_mantissa in Hvalid.
      apply andb_prop in Hvalid. destruct Hvalid as [Hc _].
      apply Z.eqb_eq in Hc. rewrite fexp_bounds in Hc.
      pose proof (digits_upper mc) as Hu.
      apply Z.lt_le_trans with (1 := Hu).
      apply Z.pow_le_mono_r; lia. }
  unfold SF64sub, SFsub, cond_Zopp. cbv zeta.
  replace (Z.min (-52) ec) with ec by (clear - Hec; lia).
  rewrite (shl_align_val 4503599627370496 (-52) ec) by (clear - Hec; lia).
  rewrite (shl_align_val mc ec ec) by (clear; lia).
  cbn [fst]. rewrite Z.sub_diag.
  change (2 ^ 0) with 1. rewrite Z.mul_1_r.
  assert (Hpow : 2 ^ (-52 - ec) * 2 ^ 52 = 2 ^ (- ec)).
  { rewrite <- Z.pow_add_r by (clear - Hec; lia). f_equal. clear; lia. }
  assert (Hpos : 0 < 2 ^ (-52 - ec)) by (apply Z.pow_pos_nonneg; clear - Hec; lia).
  rewrite !Z2Pos.id by (clear - Hpos; lia).
  change (Zpos 4503599627370496) with (2 ^ 52). rewrite Z.mul_comm, Hpow.
  clear Hlt Hvalid Hpow Hpos.
  destruct (2 ^ (- ec) - Zpos mc) as [|D|D] eqn:ED; try lia.
  cbn [binary_normalize]. apply binary_round_le; [clear; lia|].
  exists (- ec). split; [lia|]. split; [lia|].
  replace (ec + - ec) with 0 by lia. change (2 ^ 0) with 1. lia.
Qed.


Lemma binary_round_aux_canonical (mz : positive) (ez : Z) :
  fexp prec emax (Zpos (digits2_pos mz) + ez) = ez -> ez <= emax - prec ->
  binary_round_aux prec emax false (Zpos mz) ez loc_Exact
  = S754_finite false mz ez.
Proof.
  intros Hc He. unfold binary_round_aux, shr_fexp.
  cbn [Zdigits2]. rewrite Hc, Z.sub_diag.
  cbn [shr shr_record_of_loc shr_m loc_of_shr_record round_nearest_even
       Zdigits2].
  rewrite Hc, Z.sub_diag. cbn [shr shr_m].
  apply Z.leb_le in He. now rewrite He.
Qed.

Lemma float_of_pos_finite (p : positive) :
  Zpos p < 2 ^ 53 ->
  exists mz ez,
    Prim2SF (float_of_Z (Zpos p)) = S754_finite false mz ez /\
    val_le (Zpos mz) ez (Zpos p).
Proof.
  intros Hz. unfold float_of_Z.
  cbn [binary_normalize]. unfold binary_round.
  pose proof (digits_lower p) as Hlo.
  assert (Hd : Zpos (digits2_pos p) <= 53).
  { destruct (Z.le_gt_cases (Zpos (digits2_pos p)) 53) as [H|H]; [exact H|].
    assert (2 ^ 53 <= 2 ^ (Zpos (digits2_pos p) - 1))
      by (apply Z.pow_le_mono_r; lia).
    lia. }
  clear Hlo. rewrite Z.add_0_r.
  assert (Hf : fexp prec emax (Zpos (digits2_pos p))
               = Zpos (digits2_pos p) - 53).
  { rewrite fexp_bounds. lia. }
  rewrite Hf.
  pose proof (val_le_shl_align p 0 (Zpos (digits2_pos p) - 53) (Zpos p)) as Hv.
  assert (Hcanon :
    let '(mz, ez) := shl_align p 0 (Zpos (digits2_pos p) - 53) in
    fexp prec emax (Zpos (digits2_pos mz) + ez) = ez /\ ez <= emax - prec).
  { unfold shl_align.
    destruct (Zpos (digits2_pos p) - 53 - 0) as [|d|d] eqn:E; try lia.
    - rewrite Z.add_0_r, Hf. split; [lia|]. unfold emax, prec. lia.
    - unfold shift_pos. rewrite iter_xO_digits, fexp_bounds.
      split; [lia|]. unfold emax, prec. lia. }
  destruct (shl_align p 0 _) as [mz ez]. cbn [fst snd] in Hv.
  destruct Hcanon as (Hc & He).
  rewrite binary_round_aux_canonical by assumption.
  exists mz, ez. split.
  - apply Prim2SF_SF2Prim.
    unfold valid_binary, bounded, canonical_mantissa.
    apply andb_true_intro.
    split; [apply Z.eqb_eq; exact Hc | apply Z.leb_le; exact He].
  - apply Hv. exists 0. split; [lia|]. split; lia.
Qed.

Lemma float_of_Z_le (z : Z) :
  0 <= z < 2 ^ 53 -> rounded_le (Prim2SF (float_of_Z z)) z.
Proof.
  intros Hz. destruct z as [|p|p]; [reflexivity| |lia].
  destruct (float_of_pos_finite p) as (mz & ez & -> & Hv); [lia | exact Hv].
Qed.

End FloatBounds.

Lemma mul_rounded_le (x y : float) (bx bz : Z) :
  (0 <= bx)%Z -> (0 <= bx * bz < 2 ^ 53)%Z ->
  rounded_le (Prim2SF x) bx -> rounded_le (Prim2SF y) bz ->
  rounded_le (Prim2SF (x * y)) (bx * bz).
Proof.
  intros Hbx Hb Hx Hy. rewrite mul_spec. unfold SF64mul, SFmul.
  destruct (Prim2SF x) as [sx|sx| |sx mx ex];
    destruct (Prim2SF y) as [sy|sy| |sy my ey];
    cbn [rounded_le] in *; try contradiction; try exact I.
  destruct sx, sy; try contradiction. cbn [xorb].
  apply binary_round_aux_le; [exact Hb|].
  rewrite Pos2Z.inj_mul. apply val_le_mul; try assumption; lia.
Qed.

Lemma int_of_float_rounded (x : float) (b : Z) :
  (0 <= b)%Z -> rounded_le (Prim2SF x) b ->
  exists n, int_of_float x = Ok n /\ (0 <= n <= b)%Z.
Proof.
  intros Hb H. unfold int_of_float.
  destruct (Prim2SF x) as [s|s| |s m e]; cbn [rounded_le] in H;
    try contradiction.
  - exists 0%Z. split; [reflexivity | lia].
  - destruct s; [contradiction|]. eexists. split; [reflexivity|].
    apply shiftl_val_le; [lia | exact H].
Qed.

Lemma n_samples_range (m : nat) (c : float) :
  (Z.of_nat m < 2 ^ 53)%Z ->
  PrimFloat.ltb F0 c = true -> PrimFloat.ltb c F1 = true ->
  exists n, int_of_float (float_of_nat m * (F1 - c))%float = Ok n /\
            (0 <= n <= Z.of_nat m)%Z.
Proof.
  intros Hm H0 H1. apply int_of_float_rounded; [lia|].
  replace (Z.of_nat m) with (Z.of_nat m * 1)%Z by lia.
  apply mul_rounded_le; try lia.
  - apply float_of_Z_le. lia.
  - now apply one_minus_le_one.
Qed.


(** ** Fitting again *)

Lemma io_bind_inv {A C} (m : io A) (k : A -> io C) log c :
  io_bind m k = (log, Ok c) ->
  exists l1 a l2, m = (l1, Ok a) /\ k a = (l2, Ok c) /\ log = l1 ++ l2.
Proof.
  destruct m as [l1 [a|e]]; cbn [io_bind]; [|discriminate].
  destruct (k a) as [l2 r] eqn:E. intros H. injection H as <- ->.
  now exists l1, a, l2.
Qed.

Lemma compute_operator_config B (A A' : VarProOperator) X t :
  _svd_rank A = _svd_rank A' -> _exact A = _exact A' ->
  _optargs A = _optargs A' -> _compression A = _compression A' ->
  effective_policy (_sorted_eigs A) = effective_policy (_sorted_eigs A') ->
  compute_operator B A X t = compute_operator B A' X t.
Proof.
  destruct A as [s1 r1 e1 o1 c1 m1 v1], A' as [s2 r2 e2 o2 c2 m2 v2].
  cbn [_svd_rank _exact _optargs _compression _sorted_eigs].
  intros -> -> -> -> Hs. unfold compute_operator.
  cbn [_svd_rank _exact _optargs _compression _sorted_eigs].
  destruct s1 as [[|]|p1], s2 as [[|]|p2]; cbn [effective_policy] in Hs;
    try discriminate; try reflexivity; injection Hs as <-; reflexivity.
Qed.

Lemma compute_operator_keeps_config B (A : VarProOperator) X t log op rest :
  compute_operator B A X t = (log, Ok (op, rest)) ->
  _svd_rank op = _svd_rank A /\ _exact op = _exact A /\
  _optargs op = _optargs A /\ _compression op = _compression A /\
  effective_policy (_sorted_eigs op) = effective_policy (_sorted_eigs A).
Proof.
  unfold compute_operator. intros H.
  apply io_bind_inv in H. destruct H as (l1 & res & l2 & _ & H & _).
  cbv zeta in H.
  cbn [_svd_rank _exact _optargs _compression] in H.
  destruct (_sorted_eigs A) as [[|]|p].
  - apply io_bind_inv in H. destruct H as (? & key & ? & _ & H & _).
    apply io_bind_inv in H. destruct H as (? & ev & ? & _ & H & _).
    apply io_bind_inv in H. destruct H as (? & md & ? & _ & H & _).
    apply io_bind_inv in H. destruct H as (? & ef & ? & _ & H & _).
    injection H as _ <- _. repeat split.
  - injection H as _ <- _. repeat split.
  - apply io_bind_inv in H. destruct H as (? & key & ? & _ & H & _).
    apply io_bind_inv in H. destruct H as (? & ev & ? & _ & H & _).
    apply io_bind_inv in H. destruct H as (? & md & ? & _ & H & _).
    apply io_bind_inv in H. destruct H as (? & ef & ? & _ & H & _).
    injection H as _ <- _. repeat split.
Qed.

(** X15. A model can be fitted again, and the second fit does not depend on
    the first: [fit] on a model that an earlier [fit] has returned gives what
    it gives on the model before that fit, whatever the data of the two fits.
    The rank, the projection flag, the optimiser options and the compression
    are kept by a fit, and the sort flag [True], which the first fit rewrites
    to "auto", sorts as before. *)
Theorem refit_is_fit (B : Backend) (self dmd : VarProDMD)
  (X0 X : ndarray complex) (t0 t : ndarray float) (log0 : list event)
  (Hfit : fit B self X0 t0 = (log0, Ok dmd)) :
  fit B dmd X t = fit B self X t.
Proof.
  unfold fit in Hfit. apply io_bind_inv in Hfit.
  destruct Hfit as (l1 & [op [[b optres] indices]] & l2 & Hop & Hrest & _).
  assert (HA : _Atilde dmd = op).
  { destruct t0 as [v| |]; try discriminate.
    apply io_bind_inv in Hrest. destruct Hrest as (? & dt & ? & _ & H & _).
    injection H as _ <-. reflexivity. }
  destruct (compute_operator_keeps_config B _ _ _ _ _ _ Hop)
    as (H1 & H2 & H3 & H4 & H5).
  unfold fit. rewrite HA.
  now rewrite (compute_operator_config B op (_Atilde self) X t H1 H2 H3 H4 H5).
Qed.

Lemma refit_is_fit_witness :
  exists log0 dmd,
    fit example_backend (example_model (SortBool true)) (Array2 example_data)
      (Array1 example_time) = (log0, Ok dmd) /\
    fit example_backend dmd (Array2 (eye 2 3)) (Array1 example_time)
    = fit example_backend (example_model (SortBool true)) (Array2 (eye 2 3))
        (Array1 example_time).
Proof.
  eexists. eexists. split; [vm_compute; reflexivity|].
  eapply (refit_is_fit example_backend (example_model (SortBool true)))
    with (X0 := Array2 example_data) (t0 := Array1 example_time).
  vm_compute. reflexivity.
Defined.

(** ** The hard threshold *)

Lemma float_of_nat_nonzero (n : nat) :
  0 < n -> (Z.of_nat n < 2 ^ 53)%Z ->
  PrimFloat.eqb (float_of_nat n) F0 = false.
Proof.
  intros Hn Hb. unfold float_of_nat.
  destruct (Z.of_nat n) as [|p|p] eqn:E; try lia.
  destruct (float_of_pos_finite p Hb) as (mz & ez & Hp & _).
  rewrite eqb_spec, Hp. reflexivity.
Qed.

(** X16. [__svht] on the singular values of an array with [rows] and [cols]
    of which one at least is positive (and below [2^53]): it raises nothing,
    with or without a known noise level, and for a non-empty 1-D input the
    rank it returns lies between 1 and the number of singular values.  For an
    array with neither rows nor columns the ratio [beta] is [0.0 / 0.0] and
    Python raises the division error; an input that is not 1-D is rejected
    with the invalid-argument error. *)
Theorem svht_returns_a_rank (sv : vec float) (rows cols : nat)
  (sigma : option float)
  (Hne : sv <> []) (Hpos : 0 < Nat.max rows cols)
  (Hbig : (Z.of_nat (Nat.max rows cols) < 2 ^ 53)%Z) :
  (exists k, __svht (Array1 sv) rows cols sigma = Ok k /\
             (1 <= k <= Z.of_nat (length sv))%Z) /\
  __svht (Array1 sv) 0 0 sigma = Raise ZeroDivisionError /\
  (forall a : ndarray float, ndim a <> 1 ->
     __svht a rows cols sigma
     = Raise (ValueError "Expected 1d array for diagonal matrix!")).
Proof.
  split; [|split].
  - assert (Hbeta : exists beta,
               (if cols <? rows
                then py_div (float_of_nat cols) (float_of_nat rows)
                else py_div (float_of_nat rows) (float_of_nat cols))
               = Ok beta).
    { destruct (cols <? rows) eqn:Hc.
      - apply Nat.ltb_lt in Hc. rewrite Nat.max_l in Hpos, Hbig by lia.
        rewrite py_div_ok by now apply float_of_nat_nonzero. eauto.
      - apply Nat.ltb_ge in Hc. rewrite Nat.max_r in Hpos, Hbig by lia.
        rewrite py_div_ok by now apply float_of_nat_nonzero. eauto. }
    destruct Hbeta as (beta & Hbeta).
    assert (Hok : exists k, __svht (Array1 sv) rows cols sigma = Ok k).
    { unfold __svht. rewrite Hbeta. cbn [rbind].
      destruct (length _ =? 0); eauto. }
    destruct Hok as (k & Hk). exists k. split; [exact Hk|].
    now apply (svht_range sv rows cols sigma).
  - reflexivity.
  - intros a Ha. destruct a as [v|a|sh]; [now contradiction Ha | |];
      reflexivity.
Qed.

Lemma svht_returns_a_rank_witness :
  (exists k, __svht (Array1 [3; 2; 1]%float) 3 5 None = Ok k /\
             (1 <= k <= Z.of_nat (length [3; 2; 1]%float))%Z) /\
  __svht (Array1 [3; 2; 1]%float) 0 0 None = Raise ZeroDivisionError /\
  (forall a : ndarray float, ndim a <> 1 ->
     __svht a 3 5 None
     = Raise (ValueError "Expected 1d array for diagonal matrix!")).
Proof.
  apply (svht_returns_a_rank [3; 2; 1]%float 3 5 None).
  - discriminate.
  - simpl. lia.
  - vm_compute. reflexivity.
Defined.

(** ** The optimisation *)

(** X17. The Jacobian does not read the values of the parameters: it is
    computed from the basis, the factors and the residual that the last
    residual evaluation has left in the helper, so that on one helper two
    parameter vectors of the same even length have the same Jacobian. *)
Theorem jacobian_reads_the_helper (alphas alphas' time : vec float)
  (data : cmat) (h : OptimizeHelper) (l : nat)
  (Ha : length alphas = 2 * l) (Ha' : length alphas' = 2 * l) :
  __compute_dmd_jac alphas time data h = __compute_dmd_jac alphas' time data h.
Proof.
  unfold __compute_dmd_jac.
  destruct (unpack_eigs_even alphas l Ha) as (z & -> & Hz).
  destruct (unpack_eigs_even alphas' l Ha') as (z' & -> & Hz').
  cbn [rbind]. now rewrite Ha, Ha', Hz, Hz'.
Qed.

Lemma jacobian_reads_the_helper_witness :
  __compute_dmd_jac [0; 0]%float [0; 1]%float
    (build 2 1 (fun i _ => mkC (float_of_nat i) F1))
    (OptimizeHelper_init 1 2 1)
  = __compute_dmd_jac [1; 2]%float [0; 1]%float
      (build 2 1 (fun i _ => mkC (float_of_nat i) F1))
      (OptimizeHelper_init 1 2 1).
Proof.
  apply (jacobian_reads_the_helper [0; 0]%float [1; 2]%float [0; 1]%float
           (build 2 1 (fun i _ => mkC (float_of_nat i) F1))
           (OptimizeHelper_init 1 2 1) 1);
    reflexivity.
Defined.


(** X19. The key of a supported sort policy never raises and has one entry
    for each eigenvalue; for "auto" it is the vector of the real parts, of the
    imaginary parts or of the magnitudes, the first two with their sign, and
    for "real" and "imag" the absolute values of these parts. *)
Theorem sort_key_of_supported_policy (B : Backend) (ev : vec complex) :
  (forall policy, supported_policy policy = true ->
     exists key, sort_key B policy ev = Ok key /\ length key = length ev) /\
  (exists key, sort_key B "auto" ev = Ok key /\
     (key = map re ev \/ key = map im ev \/ key = map (cabs B) ev)) /\
  sort_key B "real" ev = Ok (map (fun z => PrimFloat.abs (re z)) ev) /\
  sort_key B "imag" ev = Ok (map (fun z => PrimFloat.abs (im z)) ev) /\
  sort_key B "abs" ev = Ok (map (cabs B) ev).
Proof.
  split; [intros policy; apply sort_key_supported|].
  split; [|repeat split].
  destruct (sort_key_supported B "auto" ev eq_refl) as (key & Hk & _).
  exists key. split; [exact Hk|]. now apply (auto_key_candidates B).
Qed.

(** ** The entries of a prediction *)

Lemma bidx_in_range n i : i < n -> bidx n i = i.
Proof.
  intros H. unfold bidx. destruct (n =? 1) eqn:E; [|reflexivity].
  apply Nat.eqb_eq in E. lia.
Qed.

Lemma broadcast2_entry op (a b r : cmat) i j :
  broadcast2 op a b = Ok r -> i < nrows r -> j < ncols r ->
  cget r i j
  = op (cget a (bidx (nrows a) i) (bidx (ncols a) j))
       (cget b (bidx (nrows b) i) (bidx (ncols b) j)).
Proof.
  unfold broadcast2. intros H Hi Hj.
  apply rbind_ok in H. destruct H as (n & _ & H).
  apply rbind_ok in H. destruct H as (m & _ & H).
  injection H as <-. cbn [nrows ncols build] in Hi, Hj.
  unfold cget at 1. now rewrite get_build.
Qed.

Lemma nth_reals (v : vec float) j :
  nth j (map c_of_float v) C0 = c_of_float (nth j v F0).
Proof. change C0 with (c_of_float F0). apply map_nth. Qed.


(** ** The reconstruction from the dynamics *)

Lemma fmul_comm (x y : float) : (x * y = y * x)%float.
Proof.
  apply Prim2SF_inj. rewrite !mul_spec. unfold SF64mul, SFmul.
  destruct (Prim2SF x) as [sx|sx| |sx mx ex];
    destruct (Prim2SF y) as [sy|sy| |sy my ey];
    try reflexivity; rewrite (xorb_comm sx sy); try reflexivity.
  now rewrite Pos.mul_comm, Z.add_comm.
Qed.

Lemma fadd_comm (x y : float) : (x + y = y + x)%float.
Proof.
  apply Prim2SF_inj. rewrite !add_spec. unfold SF64add, SFadd.
  destruct (Prim2SF x) as [sx|sx| |sx mx ex];
    destruct (Prim2SF y) as [sy|sy| |sy my ey];
    try reflexivity; try (destruct sx, sy; reflexivity).
  cbv zeta. now rewrite Z.min_comm, Z.add_comm.
Qed.

Lemma cmul_comm (a b : complex) : cmul a b = cmul b a.
Proof.
  unfold cmul. f_equal.
  - now rewrite (fmul_comm (re a)), (fmul_comm (im a)).
  - now rewrite fadd_comm, (fmul_comm (im a)), (fmul_comm (re a)).
Qed.

Lemma build_ext {A} n m (f g : nat -> nat -> A) :
  (forall i j, f i j = g i j) -> build n m f = build n m g.
Proof.
  intros H. unfold build. f_equal. apply map_ext. intros i.
  apply map_ext. intros j. apply H.
Qed.

(** X21. The forecast at the times of the fit is the product of the modes
    and the dynamics.  On a model that holds one mode and one amplitude for
    each eigenvalue, [dynamics] returns the array of the
    [b_k * exp(omega_k * t_j)] over the original times, and [forecast] at
    these times returns, bit for bit, the matrix product of the modes with
    it: the two accessors multiply the amplitude and the exponential in the
    opposite order, and the complex product of binary64 pairs commutes. *)
Theorem forecast_is_modes_times_dynamics (B : Backend) (self : VarProDMD)
  (modes : cmat) (ev : vec complex) (b t : vec float)
  (Hmodes : _modes (_Atilde self) = Some modes)
  (Hev : _eigenvalues (_Atilde self) = Some ev)
  (Hb : _b self = Some b) (Ht : _original_time self = Some t)
  (Hcols : ncols modes = length ev) (Hamp : length b = length ev) :
  exists dyn,
    dynamics B self = Ok dyn /\
    dims (length ev) (length t) dyn /\
    (forall k j, k < length ev -> j < length t ->
       cget dyn k j
       = cmul (c_of_float (nth k b F0))
              (cexp B (cmul (nth k ev C0) (c_of_float (nth j t F0))))) /\
    forecast B self t = dot modes dyn /\
    is_ok (forecast B self t) = true.
Proof.
  destruct (dynamics_ok B self ev b t Hev Hb Ht Hamp) as (dyn & Hdyn & Hd).
  destruct Hd as (Hd1 & Hd2 & _).
  exists dyn. split; [exact Hdyn|]. split; [split; assumption|].
  unfold dynamics, eigs, amplitudes in Hdyn.
  rewrite Hev, Hb, Ht in Hdyn. cbn [attr rbind] in Hdyn.
  split; [|split].
  - intros k j Hk Hj.
    rewrite (broadcast2_entry _ _ _ _ k j Hdyn) by lia.
    cbn [nrows ncols mat_map outer as_col build].
    rewrite length_map, Hamp.
    rewrite (bidx_in_range (length ev) k), (bidx_in_range (length t) j)
      by lia.
    unfold mat_map, outer, as_col, cget, bidx. cbn [Nat.eqb].
    cbn [nrows ncols build].
    rewrite !get_build by (rewrite ?length_map; lia).
    now rewrite nth_reals.
  - unfold forecast, fitted, optdmd_predict.
    rewrite Hmodes, Hev, Hb. cbn [negb attr rbind].
    assert (Hsame :
      broadcast2 cmul
        (mat_map C0 (cexp B) (outer ev (map c_of_float t))) (as_col b)
      = Ok dyn).
    { rewrite <- Hdyn. unfold broadcast2.
      cbn [nrows ncols mat_map outer as_col build].
      rewrite length_map, Hamp, broadcast_dim_same, broadcast_dim_one,
        broadcast_one_dim.
      cbn [rbind]. f_equal. apply build_ext. intros i j.
      apply cmul_comm. }
    now rewrite Hsame.
  - destruct (optdmd_predict_ok B modes ev b t Hcols Hamp) as (r & Hr & _).
    unfold forecast, fitted. rewrite Hmodes, Hev, Hb. cbn [negb attr rbind].
    now rewrite Hr.
Qed.

Lemma forecast_is_modes_times_dynamics_witness :
  exists dyn,
    dynamics example_backend
      (mkDMD (mkOperator (SortBool false) (PyInt 2) false OPT_DEF_ARGS 0%float
                (Some (eye 2 2)) (Some [mkC 0 1; mkC 1 0]%float))
             None None None (Some [1; 2]%float) (Some example_time) None) = Ok dyn /\
    dims 2 3 dyn /\
    (forall k j, k < 2 -> j < 3 ->
       cget dyn k j
       = cmul (c_of_float (nth k [1; 2]%float F0))
              (cexp example_backend
                 (cmul (nth k [mkC 0 1; mkC 1 0]%float C0)
                       (c_of_float (nth j example_time F0))))) /\
    forecast example_backend
      (mkDMD (mkOperator (SortBool false) (PyInt 2) false OPT_DEF_ARGS 0%float
                (Some (eye 2 2)) (Some [mkC 0 1; mkC 1 0]%float))
             None None None (Some [1; 2]%float) (Some example_time) None) example_time = dot (eye 2 2) dyn /\
    is_ok (forecast example_backend
             (mkDMD (mkOperator (SortBool false) (PyInt 2) false OPT_DEF_ARGS 0%float
                (Some (eye 2 2)) (Some [mkC 0 1; mkC 1 0]%float))
             None None None (Some [1; 2]%float) (Some example_time) None) example_time) = true.
Proof.
  apply (forecast_is_modes_times_dynamics example_backend
           (mkDMD (mkOperator (SortBool false) (PyInt 2) false OPT_DEF_ARGS
                     0%float (Some (eye 2 2))
                     (Some [mkC 0 1; mkC 1 0]%float))
                  None None None (Some [1; 2]%float) (Some example_time) None)
           (eye 2 2) [mkC 0 1; mkC 1 0]%float [1; 2]%float example_time);
    reflexivity.
Defined.

(** ** From the biggest to the smallest *)

Ltac z_cases :=
  repeat match goal with
         | |- context [(?a ?= ?b)%Z] => destruct (Z.compare_spec a b)
         end.
Ltac pos_cases :=
  repeat match goal with
         | |- context [PosDef.Pos.compare_cont Eq ?a ?b] =>
             change (PosDef.Pos.compare_cont Eq a b) with (Pos.compare a b);
             destruct (Pos.compare_spec a b)
         end.
Ltac order_done :=
  cbn [orb andb negb CompOpp];
  try (intros; discriminate); try (intros; reflexivity).
Ltac order_solve :=
  order_done;
  z_cases; try (exfalso; lia); order_done;
  pos_cases; try (exfalso; lia); order_done.

Lemma sless_trans x y z :
  sless x y = true -> sless y z = true -> sless x z = true.
Proof.
  unfold sless, SFltb, SFeqb.
  destruct x as [sx|sx| |sx mx ex], y as [sy|sy| |sy my ey],
           z as [sz|sz| |sz mz ez];
    cbn [SFcompare];
    try destruct sx; try destruct sy; try destruct sz; order_solve.
Qed.

Lemma sless_asym x y : sless x y = true -> sless y x = false.
Proof.
  unfold sless, SFltb, SFeqb.
  destruct x as [sx|sx| |sx mx ex], y as [sy|sy| |sy my ey];
    cbn [SFcompare];
    try destruct sx; try destruct sy; order_solve.
Qed.

Lemma np_less_spec a b : np_less a b = sless (Prim2SF a) (Prim2SF b).
Proof. unfold np_less, fneb, sless. now rewrite ltb_spec, !eqb_spec. Qed.

Lemma np_less_trans a b c :
  np_less a b = true -> np_less b c = true -> np_less a c = true.
Proof. rewrite !np_less_spec. apply sless_trans. Qed.

Lemma np_less_asym a b : np_less a b = true -> np_less b a = false.
Proof. rewrite !np_less_spec. apply sless_asym. Qed.

Lemma In_insert_index v i l y :
  In y (insert_index v i l) -> y = i \/ In y l.
Proof.
  induction l as [|j l IH]; simpl.
  - intros [H|[]]. now left.
  - destruct (np_less _ _); simpl.
    + intros [H|H]; [now left | now right].
    + intros [H|H]; [right; now left|].
      destruct (IH H) as [Hi|Hl]; [now left | right; now right].
Qed.

Lemma insert_index_sorted v i l :
  sorted_indices v l -> sorted_indices v (insert_index v i l).
Proof.
  induction l as [|j l IH]; intros Hs.
  - simpl. split; [constructor | exact I].
  - destruct Hs as (Hj & Hl). cbn [insert_index].
    destruct (np_less (nth i v F0) (nth j v F0)) eqn:E.
    + split; [|split; assumption].
      constructor; [apply np_less_asym; exact E|].
      rewrite Forall_forall in Hj |- *. intros x Hx. unfold not_above.
      destruct (np_less (nth x v F0) (nth i v F0)) eqn:Ex; [|reflexivity].
      rewrite <- (Hj x Hx). symmetry. now apply np_less_trans with (nth i v F0).
    + split; [|now apply IH].
      rewrite Forall_forall in Hj |- *. intros x Hx.
      apply In_insert_index in Hx. destruct Hx as [->|Hx]; [exact E|].
      now apply Hj.
Qed.

Lemma sorted_indices_ascending v l : sorted_indices v l -> ascending v l.
Proof.
  induction l as [|a l IH]; intros Hs i j Hij Hj; [simpl in Hj; lia|].
  destruct Hs as (Ha & Hl). destruct j as [|j]; [lia|].
  simpl in Hj. destruct i as [|i]; cbn [nth].
  - rewrite Forall_forall in Ha. apply Ha, nth_In. lia.
  - apply IH; [exact Hl | lia | lia].
Qed.

Lemma insertion_argsort_ascending v : ascending v (insertion_argsort v).
Proof.
  apply sorted_indices_ascending. unfold insertion_argsort.
  induction (seq 0 (length v)) as [|i l IH]; [exact I|].
  cbn [fold_right]. now apply insert_index_sorted.
Qed.

Lemma nth_pick {A} (d : A) (v : vec A) idx i :
  i < length idx -> nth i (pick d v idx) d = nth (nth i idx 0) v d.
Proof.
  intros H. unfold pick.
  rewrite nth_indep with (d' := nth 0 v d) by (rewrite length_map; exact H).
  apply (map_nth (fun i => nth i v d)).
Qed.

Lemma descending_pick key idx :
  ascending key idx -> descending (pick F0 key (rev idx)).
Proof.
  intros Hasc i j Hij Hj. rewrite length_pick, length_rev in Hj.
  rewrite !nth_pick by (rewrite length_rev; lia).
  rewrite !rev_nth by lia.
  apply (Hasc (length idx - S j) (length idx - S i)); lia.
Qed.

Lemma map_pick (f : complex -> float) (v : vec complex) idx :
  Forall (fun i => i < length v) idx ->
  map f (pick C0 v idx) = pick F0 (map f v) idx.
Proof.
  intros H. unfold pick. rewrite map_map. apply map_ext_in.
  intros i Hi. rewrite Forall_forall in H.
  rewrite nth_indep with (d' := f C0) by (rewrite length_map; now apply H).
  symmetry. apply map_nth.
Qed.


Lemma sort_key_pointwise B p ev key :
  supported_policy p = true -> sort_key B p ev = Ok key ->
  exists f : complex -> float,
    key = map f ev /\
    (p = "real"%string -> f = fun z => PrimFloat.abs (re z)) /\
    (p = "imag"%string -> f = fun z => PrimFloat.abs (im z)) /\
    (p = "abs"%string -> f = cabs B) /\
    (p = "auto"%string -> f = re \/ f = im \/ f = cabs B).
Proof.
  intros Hs Hk.
  assert (Hcases : p = "auto"%string \/ p = "real"%string \/
                   p = "imag"%string \/ p = "abs"%string).
  { unfold supported_policy in Hs.
    destruct (String.eqb_spec p "auto"); [now left|].
    destruct (String.eqb_spec p "real"); [right; now left|].
    destruct (String.eqb_spec p "imag"); [right; right; now left|].
    destruct (String.eqb_spec p "abs"); [right; right; now right|].
    discriminate. }
  destruct Hcases as [->|[->|[->| ->]]].
  - destruct (auto_key_candidates B ev key Hk) as [H|[H|H]];
      [exists re | exists im | exists (cabs B)];
      (split; [exact H|]); repeat split; try discriminate; auto.
  - injection Hk as <-. eexists. split; [reflexivity|].
    repeat split; try discriminate; auto.
  - injection Hk as <-. eexists. split; [reflexivity|].
    repeat split; try discriminate; auto.
  - injection Hk as <-. eexists. split; [reflexivity|].
    repeat split; try discriminate; auto.
Qed.

(** X22. When [np.argsort] returns the indices from the smallest to the
    biggest key, as it does, a fit with a sort policy given as a string
    returns the eigenvalues from the biggest to the smallest key in NumPy's
    order (a NaN first).  The key is the one that the policy computes on the
    eigenvalues of the fit, a function [f] of each eigenvalue: [|Re|] for
    "real", [|Im|] for "imag", the magnitude for "abs", and for "auto" the
    one of the real part, the imaginary part and the magnitude that the
    policy has chosen. *)
Theorem eigenvalues_sorted_from_biggest (B : Backend) (HB : BackendSpec B)
  (Hasc : forall v, ascending v (argsort B v))
  (self : VarProOperator) (policy : string) (data : cmat) (time : vec float)
  (n m : nat) (kz ns : Z)
  (Hpolicy : _sorted_eigs self = SortStr policy)
  (Hsup : supported_policy policy = true)
  (Hdims : dims n m data) (Htime : length time = m)
  (Hn : 0 < n) (Hm : 0 < m)
  (Hrank : __compute_rank (snd (fst (svd B data))) n m (_svd_rank self) None
           = Ok kz)
  (Hcomp : PrimFloat.ltb F0 (_compression self) = true ->
           PrimFloat.ltb (_compression self) F1 = true /\
           int_of_float (float_of_nat m * (F1 - _compression self))%float
           = Ok ns) :
  exists log res op rest ev (f : complex -> float),
    compute_varprodmd_any B (Array2 data) (Array1 time) (_optargs self)
      (_svd_rank self) (negb (_exact self)) (_compression self)
    = (log, Ok res) /\
    compute_operator B self (Array2 data) (Array1 time)
    = (log, Ok (op, rest)) /\
    _eigenvalues op = Some ev /\
    sort_key B policy (vp_omegas res) = Ok (map f (vp_omegas res)) /\
    descending (map f ev) /\
    (policy = "real"%string -> f = fun z => PrimFloat.abs (re z)) /\
    (policy = "imag"%string -> f = fun z => PrimFloat.abs (im z)) /\
    (policy = "abs"%string -> f = cabs B) /\
    (policy = "auto"%string -> f = re \/ f = im \/ f = cabs B).
Proof.
  assert (Hpol : forall p, effective_policy (_sorted_eigs self) = Some p ->
                           supported_policy p = true).
  { rewrite Hpolicy. intros p Hp. injection Hp as <-. exact Hsup. }
  destruct (compute_operator_ok B HB self data time n m kz ns
              Hdims Htime Hn Hm Hrank Hcomp Hpol)
    as (res & pcol & idx & op & b & modes & ev & Hrun & Hop & _ & Hpi &
        _ & Hev & (-> & _) & _ & Hom & _ & _ & Hkey & _).
  cbv zeta in *. rewrite Hpolicy in Hkey.
  destruct (Hkey policy eq_refl) as (key & Hk & ->).
  assert (Hr : Forall (fun i => i < length (vp_omegas res))
                 (rev (argsort B key))).
  { rewrite Hom. now apply perm_seq_range. }
  destruct (sort_key_pointwise B policy (vp_omegas res) key Hsup Hk)
    as (f & Hf & Hcases).
  eexists. exists res, op. eexists. eexists. exists f.
  split; [exact Hrun|]. split; [exact Hop|]. split; [exact Hev|].
  split; [now rewrite <- Hf|]. split; [|exact Hcases].
  rewrite map_pick by exact Hr. rewrite <- Hf.
  apply descending_pick, Hasc.
Qed.

Lemma eigenvalues_sorted_from_biggest_witness :
  exists log res op rest ev (f : complex -> float),
    compute_varprodmd_any example_backend (Array2 example_data)
      (Array1 example_time) OPT_DEF_ARGS (PyInt 2) true 0%float
    = (log, Ok res) /\
    compute_operator example_backend (example_operator (SortStr "auto"))
      (Array2 example_data) (Array1 example_time)
    = (log, Ok (op, rest)) /\
    _eigenvalues op = Some ev /\
    sort_key example_backend "auto" (vp_omegas res)
    = Ok (map f (vp_omegas res)) /\
    descending (map f ev) /\
    ("auto"%string = "real"%string -> f = fun z => PrimFloat.abs (re z)) /\
    ("auto"%string = "imag"%string -> f = fun z => PrimFloat.abs (im z)) /\
    ("auto"%string = "abs"%string -> f = cabs example_backend) /\
    ("auto"%string = "auto"%string ->
     f = re \/ f = im \/ f = cabs example_backend).
Proof.
  apply (eigenvalues_sorted_from_biggest example_backend example_backend_spec
           insertion_argsort_ascending
           (example_operator (SortStr "auto")) "auto" example_data
           example_time 2 3 2%Z 0%Z).
  - reflexivity.
  - reflexivity.
  - split; reflexivity.
  - reflexivity.
  - lia.
  - lia.
  - vm_compute. reflexivity.
  - intros H. vm_compute in H. discriminate.
Defined.

(** ** The initial eigenvalues *)

(** X12. The initial eigenvalues.  For an integer rank [r >= 1] and two
    arrays of [p] rows and [c] columns, a call of [__compute_dmd_ev] that
    returns has run one SVD and then one eigenvalue computation, in this
    order, and returns [min r (min p c)] eigenvalues.  (The libraries raise
    on an array that is not finite, which a singular value of zero leads to;
    the statement is about the calls that return.) *)
Theorem initial_eigenvalues_count (B : Backend) (HB : BackendSpec B)
  (y_in z_in : cmat) (r : Z) (p c : nat)
  (Hy : dims p c y_in) (Hz : dims p c z_in) (Hr : (1 <= r)%Z) :
  forall log omegas,
    __compute_dmd_ev B y_in z_in (PyInt r) = (log, Ok omegas) ->
    log = [NumericalWork "svd"; NumericalWork "eigvals"] /\
    length omegas = Nat.min (Z.to_nat r) (Nat.min p c).
Proof.
  intros log omegas Hrun.
  destruct (compute_dmd_ev_ok B HB y_in z_in r p c Hy Hz Hr)
    as (omegas' & Hrun' & Hlen).
  rewrite Hrun' in Hrun. injection Hrun as <- <-.
  split; [reflexivity | exact Hlen].
Qed.

Lemma initial_eigenvalues_count_witness :
  exists log omegas,
    __compute_dmd_ev example_backend example_data example_data (PyInt 5)
    = (log, Ok omegas) /\
    log = [NumericalWork "svd"; NumericalWork "eigvals"] /\
    length omegas = Nat.min (Z.to_nat 5) (Nat.min 2 3).
Proof.
  eexists. eexists. split; [vm_compute; reflexivity|].
  apply (initial_eigenvalues_count example_backend example_backend_spec
           example_data example_data 5%Z 2 3).
  - split; reflexivity.
  - split; reflexivity.
  - lia.
  - vm_compute. reflexivity.
Defined.

(** ** C4: the number of selected samples *)

(** C4, as the code has it.  [select_best_samples_fast] raises the
    invalid-argument error on an input that is not 2-D and on a compression
    outside (0,1).  On a finite array of [m < 2^53] columns and a compression
    [c] in (0,1) the number of indices is [int(m * (1.0 - c))], the
    difference and the product rounded to binary64 and then truncated: this
    is an integer [n] between 0 and [m], whatever the roundings, and the
    function returns the first [n] pivots of the QR decomposition, [n]
    distinct indices below [m]. *)
Theorem selection_count_is_binary64 (B : Backend) (HB : BackendSpec B)
  (data : ndarray complex) (comp : float) :
  (ndim data <> 2 ->
   is_value_error (select_best_samples_fast B data comp) = true) /\
  (PrimFloat.ltb F0 comp && PrimFloat.ltb comp F1 = false ->
   is_value_error (select_best_samples_fast B data comp) = true) /\
  (forall a,
     data = Array2 a ->
     PrimFloat.ltb F0 comp && PrimFloat.ltb comp F1 = true ->
     (Z.of_nat (ncols a) < 2 ^ 53)%Z ->
     all_finite a = true ->
     exists n idx,
       int_of_float (float_of_nat (ncols a) * (F1 - comp))%float = Ok n /\
       (0 <= n <= Z.of_nat (ncols a))%Z /\
       select_best_samples_fast B data comp = Ok idx /\
       idx = firstn (Z.to_nat n) (qr_pivot B a) /\
       length idx = Z.to_nat n /\
       NoDup idx /\
       Forall (fun i => i < ncols a) idx).
Proof.
  split; [|split].
  - destruct data as [v|a|sh]; simpl; intros H; congruence.
  - intros Hc. destruct data as [v|a|sh]; simpl; try reflexivity.
    now rewrite Hc.
  - intros a -> Hc Hm _.
    pose proof Hc as Hc'. apply andb_prop in Hc'. destruct Hc' as (Hc0 & Hc1).
    destruct (n_samples_range (ncols a) comp Hm Hc0 Hc1) as (n & Hn & Hrange).
    pose proof (qr_pivot_perm HB a) as Hperm.
    assert (Hlen : length (qr_pivot B a) = ncols a).
    { rewrite (Permutation_length Hperm). apply length_seq. }
    exists n, (firstn (Z.to_nat n) (qr_pivot B a)).
    split; [exact Hn|]. split; [exact Hrange|]. split.
    { unfold select_best_samples_fast. rewrite Hc, Hn. cbn [negb rbind].
      now rewrite py_take_nat. }
    split; [reflexivity|]. split; [rewrite length_firstn; lia|]. split.
    + apply NoDup_firstn.
      apply (Permutation_NoDup (Permutation_sym Hperm)), seq_NoDup.
    + apply Forall_forall. intros i Hi.
      assert (Hin : In i (qr_pivot B a)).
      { rewrite <- (firstn_skipn (Z.to_nat n) (qr_pivot B a)).
        apply in_or_app. now left. }
      apply (Permutation_in _ Hperm) in Hin. apply in_seq in Hin. lia.
Qed.

Lemma selection_count_is_binary64_witness :
  exists n idx,
    int_of_float (float_of_nat (ncols example_data) * (F1 - 0.3))%float
    = Ok n /\
    (0 <= n <= Z.of_nat (ncols example_data))%Z /\
    select_best_samples_fast example_backend (Array2 example_data) 0.3%float
    = Ok idx /\
    idx = firstn (Z.to_nat n) (qr_pivot example_backend example_data) /\
    length idx = Z.to_nat n /\
    NoDup idx /\
    Forall (fun i => i < ncols example_data) idx.
Proof.
  apply (proj2 (proj2 (selection_count_is_binary64
                         example_backend example_backend_spec
                         (Array2 example_data) 0.3%float))
           example_data).
  - reflexivity.
  - vm_compute. reflexivity.
  - vm_compute. reflexivity.
  - vm_compute. reflexivity.
Defined.

(** C4 as stated fails: on ten columns and the compression [1e-17] the
    difference [1.0 - 1e-17] rounds to [1.0], and ten indices are returned,
    while the floor of [(1 - c) * 10] is 9. *)
Lemma selection_count_counterexample :
  exists idx,
    select_best_samples_fast example_backend
      (Array2 (build 1 10 (fun _ j => mkC (float_of_nat j) F0))) 1e-17%float
    = Ok idx /\
    length idx = 10 /\
    exact_floor_count 10 1e-17%float = Some 9%Z.
Proof. eexists. split; [vm_compute; reflexivity|]. split; reflexivity. Qed.

(** ** C8: the residual and the singular values that are zero *)





(** ** C10: the fit on an empty selection *)

Section SolverCall.
Variable B : Backend.
Hypothesis HB : BackendSpec B.


End SolverCall.



